(** * A verification model of the portfolio's LaTeX pipeline

    Two programs of the repository are embedded here:

    - the Extractor (the ingestion script: [extractTeXMetadata],
      [extractImages], [getPreviewImage], [slugify], [ingestProjects]),
    - the Transpiler ([escapeHtml] and [parseAndRender] of
      [src/components/TeXRenderer.tsx]).

    Both are cascades of regular-expression rewrites over JavaScript
    strings.  A JavaScript string is modelled as the list of its UTF-16
    code units ([N]); every regular expression of the source is written
    as a term of the type [regex] below and run by a backtracking
    matcher that follows the ECMAScript matching rules (leftmost match,
    ordered alternatives, greedy and lazy quantifiers, an iteration of a
    quantifier that passes no text is rejected).

    The file has three parts: the model of the two programs, the
    definitions that the statements need (the specification's words
    for [slugify] and for the title among them), and the facts, which
    end with one theorem for each claim of the specification. *)

From Stdlib Require Import Ascii String DecimalString DecimalNat.
From Stdlib Require Import List NArith Lia Bool Arith.
Import ListNotations.

Set Implicit Arguments.

(** ** Strings *)

Abbreviation char := N (only parsing).
Abbreviation str := (list N) (only parsing).

(** [lit "abc"] is the JavaScript string literal ['abc'].  Rocq string
    literals know no escape sequence, so a backslash stands for itself. *)
Definition lit (s : string) : str := map N_of_ascii (list_ascii_of_string s).

(** The templates of the source are full of double quotes.  [tpl] reads
    a template in which a backquote stands for the double quote (no
    template of the source contains a backquote). *)
Definition dq : char := 34%N.
Definition tpl (s : string) : str :=
  map (fun c => if N.eqb c 96%N then dq else c) (lit s).

Definition nl : char := 10%N.
Definition bullet : char := 8226%N.   (* U+2022 *)

Definition ch (s : string) : char :=
  match s with
  | String a _ => N_of_ascii a
  | EmptyString => 0%N
  end.

Definition in_range (lo hi c : char) : bool := N.leb lo c && N.leb c hi.

Definition is_digit (c : char) : bool := in_range 48 57 c.
Definition is_upper (c : char) : bool := in_range 65 90 c.
Definition is_lower (c : char) : bool := in_range 97 122 c.
Definition is_alnum (c : char) : bool := is_lower c || is_upper c || is_digit c.
Definition is_alpha (c : char) : bool := is_lower c || is_upper c.

(** [\w] is [[A-Za-z0-9_]]. *)
Definition is_word (c : char) : bool := is_alnum c || N.eqb c 95.

(** ECMAScript LineTerminator. *)
Definition is_line_terminator (c : char) : bool :=
  N.eqb c 10 || N.eqb c 13 || N.eqb c 8232 || N.eqb c 8233.

(** [\s]: ECMAScript WhiteSpace and LineTerminator. *)
Definition is_space (c : char) : bool :=
  in_range 9 13 c || N.eqb c 32 || N.eqb c 160 || N.eqb c 5760
  || in_range 8192 8202 c || N.eqb c 8232 || N.eqb c 8233
  || N.eqb c 8239 || N.eqb c 8287 || N.eqb c 12288 || N.eqb c 65279.

Definition eqc (c0 c : char) : bool := N.eqb c c0.
Definition neqc (c0 c : char) : bool := negb (N.eqb c c0).

Fixpoint str_eqb (a b : str) : bool :=
  match a, b with
  | [], [] => true
  | x :: a', y :: b' => N.eqb x y && str_eqb a' b'
  | _, _ => false
  end.

Fixpoint drop_while (p : char -> bool) (s : str) : str :=
  match s with
  | [] => []
  | c :: t => if p c then drop_while p t else s
  end.

(** [String.prototype.trim]. *)
Definition trim (s : str) : str :=
  rev (drop_while is_space (rev (drop_while is_space s))).

(** [strip_prefix p s] is [Some t] when [s = p ++ t]. *)
Fixpoint strip_prefix (p s : str) : option str :=
  match p with
  | [] => Some s
  | x :: p' =>
      match s with
      | [] => None
      | y :: s' => if N.eqb x y then strip_prefix p' s' else None
      end
  end.

Definition starts_with (p s : str) : bool :=
  match strip_prefix p s with Some _ => true | None => false end.

(** [s.includes(p)]. *)
Fixpoint includes (p s : str) : bool :=
  starts_with p s ||
  match s with
  | [] => false
  | _ :: t => includes p t
  end.

(** [s.indexOf(p)], [None] standing for -1. *)
Fixpoint indexOf (p s : str) : option nat :=
  if starts_with p s then Some 0
  else match s with
       | [] => None
       | _ :: t => option_map S (indexOf p t)
       end.

(** [String.prototype.toLowerCase].  The mapping is exact on ASCII and
    on the two code points outside ASCII whose lower case contains an
    ASCII letter (U+0130, U+212A).  Every other code unit is left as it
    is, where JavaScript maps a cased letter outside ASCII to its lower
    case, which is again outside ASCII and no white space.  [slugify]
    strips what is outside ASCII right after, so the difference cannot
    be seen there; the image look-up of the Transpiler agrees with
    JavaScript on file names without upper-case letters outside
    ASCII. *)
Definition lower_char (c : char) : str :=
  if is_upper c then [(c + 32)%N]
  else if N.eqb c 304 then [105%N; 775%N]
  else if N.eqb c 8490 then [107%N]
  else [c].

Definition toLowerCase (s : str) : str := flat_map lower_char s.

(** ** Regular expressions

    Each pattern of the source is quoted in the comment above its
    model, after [JS:], with a blank set between a star and a closing
    parenthesis. *)

Inductive regex : Type :=
| Eps                                   (* the empty pattern *)
| Chr (p : char -> bool)                (* one code unit of a class *)
| Seq (a b : regex)
| Alt (a b : regex)                     (* a|b *)
| Star (greedy : bool) (a : regex)      (* a* and a*? *)
| Opt (a : regex)                       (* a? *)
| Group (n : nat) (a : regex)           (* the n-th capturing group *)
| Bol                                   (* ^ under the m flag *)
| Eol                                   (* $ under the m flag *)
| Start                                 (* ^ without the m flag *)
| End                                   (* $ without the m flag *)
| Ahead (a : regex).                    (* (?=a) *)

Fixpoint Lit_of (s : str) : regex :=
  match s with
  | [] => Eps
  | c :: t => Seq (Chr (eqc c)) (Lit_of t)
  end.

(** A literal piece of a pattern, every character standing for itself. *)
Definition L (s : string) : regex := Lit_of (lit s).

Definition Plus (greedy : bool) (a : regex) : regex := Seq a (Star greedy a).

Definition Any : regex := Chr (fun _ => true).          (* [\s\S] *)
Definition Dot : regex := Chr (fun c => negb (is_line_terminator c)).
Definition Ws : regex := Chr is_space.                  (* \s *)
Definition Not1 (s : string) : regex := Chr (neqc (ch s)). (* [^c] *)

Declare Scope re_scope.
Delimit Scope re_scope with re.
Bind Scope re_scope with regex.
Notation "a ;; b" := (Seq a b) (at level 61, right associativity) : re_scope.
Local Open Scope re_scope.

(** The number of capturing groups of a pattern. *)
Fixpoint ngroups (r : regex) : nat :=
  match r with
  | Seq a b | Alt a b => Nat.max (ngroups a) (ngroups b)
  | Star _ a | Opt a | Ahead a => ngroups a
  | Group n a => Nat.max n (ngroups a)
  | _ => 0
  end.

(** The state of a match in progress: the part of the subject already
    passed (last character first), the part still ahead, and the
    captures made so far (latest first). *)
Record mstate : Type := MState {
  before : str;
  after : str;
  caps : list (nat * str)
}.

Definition cont := mstate -> option mstate.

Definition consume (c : char) (t : str) (st : mstate) : mstate :=
  MState (c :: before st) t (caps st).

Definition progressed (st st' : mstate) : bool :=
  Nat.ltb (length (after st')) (length (after st)).

(** The text passed between two states of one match. *)
Definition passed (st st' : mstate) : str :=
  rev (firstn (length (before st') - length (before st)) (before st')).

Definition at_line_start (st : mstate) : bool :=
  match before st with
  | [] => true
  | c :: _ => is_line_terminator c
  end.

Definition at_line_end (st : mstate) : bool :=
  match after st with
  | [] => true
  | c :: _ => is_line_terminator c
  end.

(** The loop of a quantifier: [fuel] bounds the number of iterations by
    the length of the text ahead, which suffices because an iteration
    that passes no text is rejected. *)
Fixpoint star_loop (step : cont -> cont) (greedy : bool) (k : cont)
  (fuel : nat) (st : mstate) : option mstate :=
  match fuel with
  | O => k st
  | S f =>
      let again :=
        step (fun st' => if progressed st st'
                         then star_loop step greedy k f st' else None) st in
      if greedy
      then match again with Some x => Some x | None => k st end
      else match k st with Some x => Some x | None => again end
  end.

(** [m r k st]: match [r] at [st], then continue with [k]; the first
    success in backtracking order. *)
Fixpoint m (r : regex) (k : cont) (st : mstate) : option mstate :=
  match r with
  | Eps => k st
  | Chr p =>
      match after st with
      | c :: t => if p c then k (consume c t st) else None
      | [] => None
      end
  | Seq a b => m a (m b k) st
  | Alt a b =>
      match m a k st with
      | Some x => Some x
      | None => m b k st
      end
  | Star g a => star_loop (m a) g k (S (length (after st))) st
  | Opt a =>
      match m a (fun st' => if progressed st st' then k st' else None) st with
      | Some x => Some x
      | None => k st
      end
  | Group n a =>
      m a (fun st' => k (MState (before st') (after st')
                           ((n, passed st st') :: caps st'))) st
  | Bol => if at_line_start st then k st else None
  | Eol => if at_line_end st then k st else None
  | Start => match before st with [] => k st | _ :: _ => None end
  | End => match after st with [] => k st | _ :: _ => None end
  | Ahead a =>
      match m a Some st with
      | Some st' => k (MState (before st) (after st) (caps st'))
      | None => None
      end
  end.

(** One successful match, as the callbacks of [replace] and the result
    of [match] and [exec] see it. *)
Record rmatch : Type := RMatch {
  m_pre : str;                 (* the subject before the match, reversed *)
  m_text : str;                (* the matched text *)
  m_post : str;                (* the subject after the match *)
  m_caps : list (nat * str)
}.

Fixpoint assoc (n : nat) (l : list (nat * str)) : option str :=
  match l with
  | [] => None
  | (k, v) :: t => if Nat.eqb k n then Some v else assoc n t
  end.

(** The n-th capture; [None] is JavaScript's [undefined]. *)
Definition group (n : nat) (mt : rmatch) : option str := assoc n (m_caps mt).

Definition or_empty (o : option str) : str :=
  match o with Some s => s | None => [] end.

(** A match attempt at one position: [pre] is the subject before it
    (reversed), [s] the subject from it on. *)
Definition match_at (r : regex) (pre s : str) : option rmatch :=
  match m r Some (MState pre s []) with
  | Some st' =>
      Some (RMatch pre (firstn (length s - length (after st')) s)
              (after st') (caps st'))
  | None => None
  end.

(** The leftmost match at or after the current position
    ([RegExp.prototype.exec] from [lastIndex], [String.prototype.match]
    without the g flag). *)
Fixpoint search (r : regex) (pre s : str) : option rmatch :=
  match match_at r pre s with
  | Some mt => Some mt
  | None =>
      match s with
      | [] => None
      | c :: t => search r (c :: pre) t
      end
  end.

Definition re_match (r : regex) (s : str) : option rmatch := search r [] s.

Definition re_test (r : regex) (s : str) : bool :=
  match re_match r s with Some _ => true | None => false end.

(** ** The string methods that take a pattern *)

(** [GetSubstitution]: the expansion of a replacement string.  [ng] is
    the number of capturing groups of the pattern. *)
Definition digit_val (c : char) : nat := N.to_nat (c - 48).

Definition cap_or_ref (ng idx : nat) (mt : rmatch) (ref : str) : str :=
  if (Nat.leb 1 idx && Nat.leb idx ng)%bool then or_empty (group idx mt) else ref.

Fixpoint expand (ng : nat) (mt : rmatch) (repl : str) : str :=
  match repl with
  | [] => []
  | c :: t =>
      if negb (N.eqb c 36) then c :: expand ng mt t
      else
        match t with
        | [] => [c]
        | d :: t1 =>
            if N.eqb d 36 then 36%N :: expand ng mt t1                (* $$ *)
            else if N.eqb d 38 then m_text mt ++ expand ng mt t1      (* $& *)
            else if N.eqb d 96 then rev (m_pre mt) ++ expand ng mt t1 (* $` *)
            else if N.eqb d 39 then m_post mt ++ expand ng mt t1      (* $' *)
            else if is_digit d then
              match t1 with
              | d2 :: t2 =>
                  if is_digit d2 &&
                     Nat.leb (10 * digit_val d + digit_val d2) ng
                  then cap_or_ref ng (10 * digit_val d + digit_val d2) mt
                         [c; d; d2] ++ expand ng mt t2
                  else cap_or_ref ng (digit_val d) mt [c; d] ++ expand ng mt t1
              | [] => cap_or_ref ng (digit_val d) mt [c; d]
              end
            else c :: expand ng mt t
        end
  end.

(** [s.replace(r, f)] for a pattern with the g flag and a callback [f].
    The subject is walked once from left to right; a match is tried at
    every position that no earlier match covers.  [skip] counts the
    characters of the last match that are still to be passed over; after
    an empty match the walk moves on by one character. *)
Fixpoint replace_loop (r : regex) (f : rmatch -> str) (skip : nat)
  (pre s : str) : str :=
  match skip with
  | S n =>
      match s with
      | [] => []
      | c :: t => replace_loop r f n (c :: pre) t
      end
  | O =>
      match match_at r pre s with
      | Some mt =>
          f mt ++
          match s with
          | [] => []
          | c :: t =>
              match length (m_text mt) with
              | O => c :: replace_loop r f 0 (c :: pre) t
              | S n => replace_loop r f n (c :: pre) t
              end
          end
      | None =>
          match s with
          | [] => []
          | c :: t => c :: replace_loop r f 0 (c :: pre) t
          end
      end
  end.

Definition re_replace_fn (r : regex) (f : rmatch -> str) (s : str) : str :=
  replace_loop r f 0 [] s.

(** [s.replace(r, repl)] for a pattern with the g flag and a replacement
    string. *)
Definition re_replace (r : regex) (repl : str) (s : str) : str :=
  re_replace_fn r (fun mt => expand (ngroups r) mt repl) s.

(** The same walk for a callback that updates a state [St] (the math
    passes mint keys and fill a table while they replace). *)
Fixpoint replace_loop_st (St : Type) (r : regex)
  (f : rmatch -> St -> str * St) (skip : nat) (pre s : str) (sg : St)
  : str * St :=
  match skip with
  | S n =>
      match s with
      | [] => ([], sg)
      | c :: t => replace_loop_st r f n (c :: pre) t sg
      end
  | O =>
      match match_at r pre s with
      | Some mt =>
          let (out, sg1) := f mt sg in
          match s with
          | [] => (out, sg1)
          | c :: t =>
              match length (m_text mt) with
              | O =>
                  let (rest, sg2) := replace_loop_st r f 0 (c :: pre) t sg1 in
                  (out ++ c :: rest, sg2)
              | S n =>
                  let (rest, sg2) := replace_loop_st r f n (c :: pre) t sg1 in
                  (out ++ rest, sg2)
              end
          end
      | None =>
          match s with
          | [] => ([], sg)
          | c :: t =>
              let (rest, sg1) := replace_loop_st r f 0 (c :: pre) t sg in
              (c :: rest, sg1)
          end
      end
  end.

Definition re_replace_st (St : Type) (r : regex) (f : rmatch -> St -> str * St)
  (s : str) (sg : St) : str * St :=
  replace_loop_st r f 0 [] s sg.

(** [s.replace(r, repl)] for a pattern without the g flag: the leftmost
    match only. *)
Definition re_replace_first (r : regex) (repl : str) (s : str) : str :=
  match re_match r s with
  | Some mt => rev (m_pre mt) ++ expand (ngroups r) mt repl ++ m_post mt
  | None => s
  end.

(** [s.replace(key, repl)] for a string [key]: its first occurrence. *)
Definition replace_string (key repl s : str) : str :=
  re_replace_first (Lit_of key) repl s.

(** All matches of a pattern with the g flag, as a loop
    [while ((x = r.exec(s)) !== null)] meets them. *)
Fixpoint match_all_loop (r : regex) (skip : nat) (pre s : str) : list rmatch :=
  match skip with
  | S n =>
      match s with
      | [] => []
      | c :: t => match_all_loop r n (c :: pre) t
      end
  | O =>
      match match_at r pre s with
      | Some mt =>
          mt ::
          match s with
          | [] => []
          | c :: t =>
              match length (m_text mt) with
              | O => match_all_loop r 0 (c :: pre) t
              | S n => match_all_loop r n (c :: pre) t
              end
          end
      | None =>
          match s with
          | [] => []
          | c :: t => match_all_loop r 0 (c :: pre) t
          end
      end
  end.

Definition re_match_all (r : regex) (s : str) : list rmatch :=
  match_all_loop r 0 [] s.

(** [s.split(r)] for a pattern without capturing groups.  [cur] is the
    piece being collected (reversed).  A match that ends where the last
    piece ended splits nothing. *)
Fixpoint split_loop (r : regex) (skip : nat) (pre cur s : str) : list str :=
  match s with
  | [] => [rev cur]
  | c :: t =>
      match skip with
      | S n => split_loop r n (c :: pre) cur t
      | O =>
          match match_at r pre s with
          | Some mt =>
              match length (m_text mt) with
              | O =>
                  match cur with
                  | [] => split_loop r 0 (c :: pre) [c] t
                  | _ :: _ => rev cur :: split_loop r 0 (c :: pre) [c] t
                  end
              | S n => rev cur :: split_loop r n (c :: pre) [] t
              end
          | None => split_loop r 0 (c :: pre) (c :: cur) t
          end
      end
  end.

Definition re_split (r : regex) (s : str) : list str :=
  match s with
  | [] => match match_at r [] [] with Some _ => [] | None => [[]] end
  | _ :: _ => split_loop r 0 [] [] s
  end.

(** [s.split(c)] for a separator of one character. *)
Fixpoint split_char_loop (sep : char) (cur s : str) : list str :=
  match s with
  | [] => [rev cur]
  | c :: t =>
      if N.eqb c sep then rev cur :: split_char_loop sep [] t
      else split_char_loop sep (c :: cur) t
  end.

Definition split_char (sep : char) (s : str) : list str :=
  split_char_loop sep [] s.

(** [a.join('')] and [a.join(sep)]. *)
Definition join (l : list str) : str := concat l.

Fixpoint join_with (sep : str) (l : list str) : str :=
  match l with
  | [] => []
  | [x] => x
  | x :: t => x ++ sep ++ join_with sep t
  end.

(** [s.substring(a, b)]: the bounds are swapped when [a > b]. *)
Definition substring (a b : nat) (s : str) : str :=
  firstn (Nat.max a b - Nat.min a b) (skipn (Nat.min a b) s).

(** [s.slice(1, -1)]. *)
Definition slice_1_m1 (s : str) : str := removelast (tl s).

(** [s.endsWith(p)]. *)
Definition ends_with (p s : str) : bool := starts_with (rev p) (rev s).

(** The decimal numeral of a counter, as a template literal prints it. *)
Definition of_nat (n : nat) : str :=
  lit (NilEmpty.string_of_uint (Nat.to_uint n)).

(** ** Objects used as maps

    A [Record<string, string>] is modelled by the list of its entries in
    the order [Object.entries] and [Object.keys] yield them: the order
    in which the keys were first set.  (JavaScript moves keys that are
    canonical array indices, such as ["7"], to the front; the keys of
    this program are file names and placeholder keys.) *)
Definition obj := list (str * str).

Fixpoint obj_get (k : str) (o : obj) : option str :=
  match o with
  | [] => None
  | (k', v) :: t => if str_eqb k' k then Some v else obj_get k t
  end.

(** [o[k] = v] *)
Fixpoint obj_set (k v : str) (o : obj) : obj :=
  match o with
  | [] => [(k, v)]
  | (k', v') :: t =>
      if str_eqb k' k then (k', v) :: t else (k', v') :: obj_set k v t
  end.

(** ** Exceptions *)

(** The errors that the modelled code can end with: the evaluation of
    an identifier without binding, and the failure of a call of [fs]
    (an [Error] with a [code] such as ENOENT, ENOTDIR, EISDIR or
    EACCES). *)
Inductive js_error : Type :=
| ReferenceError (name : string)
| SystemError (code : string).

Inductive completion (A : Type) : Type :=
| Normal (a : A)
| Throw (e : js_error).
Arguments Normal {A} a.
Arguments Throw {A} e.

Definition bind (A B : Type) (c : completion A) (f : A -> completion B)
  : completion B :=
  match c with
  | Normal a => f a
  | Throw e => Throw e
  end.

Notation "x <- c ;;; k" := (bind c (fun x => k))
  (at level 100, c at next level, right associativity).

(** ** The Extractor *)

(** JS: /[^\w\s-]/g *)
Definition re_slug_strip : regex :=
  Chr (fun c => negb (is_word c || is_space c || N.eqb c 45)).
(** JS: /\s+/g *)
Definition re_spaces : regex := Plus true (Chr is_space).
(** JS: /-+/g *)
Definition re_hyphens : regex := Plus true (L "-").

Definition slugify (text : str) : str :=
  firstn 50
    (re_replace re_hyphens (lit "-")
       (re_replace re_spaces (lit "-")
          (re_replace re_slug_strip (lit "")
             (toLowerCase text)))).

(** JS: /\\title\{\\textbf\{([^}]+)\}\}/ *)
Definition re_bold_title : regex :=
  L "\title{\textbf{" ;; Group 1 (Plus true (Not1 "}")) ;; L "}}".

(** JS: /\$([^$]* )\$/g *)
Definition re_dollar_pair : regex :=
  L "$" ;; Group 1 (Star true (Not1 "$")) ;; L "$".

(** A letter of a pattern under the i flag. *)
Definition Ci (s : string) : regex :=
  Chr (fun c => str_eqb (lower_char c) (lower_char (ch s)) && N.ltb c 128).

(** JS: /\\section\*?\{Overview\}([\s\S]*?)(?=\\section|\\begin\{figure\}|\\end\{document\})/i *)
Definition re_overview : regex :=
  L "\" ;; Ci "s" ;; Ci "e" ;; Ci "c" ;; Ci "t" ;; Ci "i" ;; Ci "o" ;; Ci "n" ;;
  Opt (L "*") ;; L "{" ;;
  Ci "O" ;; Ci "v" ;; Ci "e" ;; Ci "r" ;; Ci "v" ;; Ci "i" ;; Ci "e" ;; Ci "w" ;;
  L "}" ;;
  Group 1 (Star false Any) ;;
  Ahead (Alt (L "\" ;; Ci "s" ;; Ci "e" ;; Ci "c" ;; Ci "t" ;; Ci "i" ;; Ci "o" ;; Ci "n")
        (Alt (L "\" ;; Ci "b" ;; Ci "e" ;; Ci "g" ;; Ci "i" ;; Ci "n" ;; L "{" ;;
              Ci "f" ;; Ci "i" ;; Ci "g" ;; Ci "u" ;; Ci "r" ;; Ci "e" ;; L "}")
             (L "\" ;; Ci "e" ;; Ci "n" ;; Ci "d" ;; L "{" ;;
              Ci "d" ;; Ci "o" ;; Ci "c" ;; Ci "u" ;; Ci "m" ;; Ci "e" ;; Ci "n" ;; Ci "t" ;;
              L "}"))).

(** JS: /\\footnote\{[^}]*\}/g, /\\cite\{[^}]*\}/g, /\\\\/g *)
Definition re_footnote_arg : regex := L "\footnote{" ;; Star true (Not1 "}") ;; L "}".
Definition re_cite : regex := L "\cite{" ;; Star true (Not1 "}") ;; L "}".
Definition re_linebreak : regex := L "\\".

(** JS: /\\begin\{document\}([\s\S]*?)\\end\{document\}/ *)
Definition re_document_body : regex :=
  L "\begin{document}" ;; Group 1 (Star false Any) ;; L "\end{document}".

Record metadata : Type := Metadata {
  title : str;
  summary : str;
  content : str
}.

Definition extract_title (texContent : str) : str :=
  let title :=
    match re_match re_bold_title texContent with
    | Some titleMatch => or_empty (group 1 titleMatch)
    | None => lit "Untitled"
    end in
  re_replace_fn re_dollar_pair (fun mt => slice_1_m1 (m_text mt)) title.

Definition extract_summary (texContent : str) : str :=
  match re_match re_overview texContent with
  | Some overviewMatch =>
      trim (firstn 300
        (join_with (lit " ")
           (filter (fun line => negb (Nat.eqb (length line) 0))
              (map trim
                 (split_char nl
                    (re_replace re_linebreak (lit " ")
                       (re_replace re_cite (lit "")
                          (re_replace re_footnote_arg (lit "")
                             (or_empty (group 1 overviewMatch))))))))))
  | None => []
  end.

Definition extract_content (texContent : str) : str :=
  match re_match re_document_body texContent with
  | Some documentMatch => trim (or_empty (group 1 documentMatch))
  | None => texContent
  end.

Definition extractTeXMetadata (texContent : str) : metadata :=
  Metadata (extract_title texContent) (extract_summary texContent)
    (extract_content texContent).

(** JS: /\\includegraphics(?:\s*\[[^\]]*\])?\{([^}]+)\}/g *)
Definition re_includegraphics_tight : regex :=
  L "\includegraphics" ;;
  Opt (Star true (Chr is_space) ;; L "[" ;; Star true (Not1 "]") ;; L "]") ;;
  L "{" ;; Group 1 (Plus true (Not1 "}")) ;; L "}".

Section FileSystem.

(** What the script reads from its surroundings: the directory of the
    script, Node's [path.join], and the file system as [fs] shows it.
    [existsSync] never throws; [readdirSync], [statSync] and
    [readFileSync] return their result or throw ([isDirectory p] is
    [fs.statSync(p).isDirectory()]). *)
Variable dirname : str.
Variable path_join : list str -> str.
Variable existsSync : str -> bool.
Variable readdirSync : str -> completion (list str).
Variable isDirectory : str -> completion bool.
Variable readFileSync : str -> completion str.
(** [new Date().toISOString().split('T')[0]] and [localeCompare]. *)
Variable today : str.
Variable localeCompare : str -> str -> comparison.

Definition projectsDir : str := path_join [dirname; lit "../projects"].
Definition publicAssetsDir : str := path_join [dirname; lit "../public/assets"].

(** The body of the loop of [extractImages], for the capture of one
    match. *)
Definition add_image (images : obj) (capture : str) : obj :=
  let imagePath := trim capture in
  let parts := split_char (ch "/") imagePath in
  if Nat.leb 2 (length parts) then
    let projectFolder := hd [] parts in
    let fileName := last parts [] in
    let assetsPath := path_join [publicAssetsDir; projectFolder; fileName] in
    if existsSync assetsPath
    then obj_set fileName (lit "/assets/" ++ projectFolder ++ lit "/" ++ fileName) images
    else images
  else images.

Definition image_captures (texContent : str) : list str :=
  map (fun mt => or_empty (group 1 mt))
    (re_match_all re_includegraphics_tight texContent).

Definition extractImages (texContent projectDir : str) : obj :=
  fold_left add_image (image_captures texContent) [].

(** The string constants that the script binds at its top level.  An
    identifier that is neither among them nor a global of the runtime
    has no binding, and evaluating it throws a [ReferenceError]. *)
Definition script_constants : list (string * str) :=
  [ ("__dirname"%string, dirname);
    ("projectsDir"%string, projectsDir);
    ("outputFile"%string, path_join [dirname; lit "../projectIndex.json"]) ].

Fixpoint lookup_constant (x : string) (env : list (string * str))
  : completion str :=
  match env with
  | [] => Throw (ReferenceError x)
  | (y, v) :: t => if String.eqb y x then Normal v else lookup_constant x t
  end.

Definition identifier (x : string) : completion str :=
  lookup_constant x script_constants.

(** The table of hand-picked covers.  (Only the table's own keys are
    modelled; the names that every object inherits are no slugs of the
    author's folders.) *)
Definition coverImages : obj :=
  [ (lit "project-1", lit "/assets/project1-cover.jpg");
    (lit "project-2", lit "/assets/project2-cover.jpg");
    (lit "project-3", lit "/assets/project3-cover.jpg") ].

Definition getPreviewImage (images : obj) (slug : str) : completion str :=
  match obj_get slug coverImages with
  | Some cover => Normal cover
  | None =>
      match images with
      | (_, url) :: _ => Normal url
      | [] =>
          baseUrl <- identifier "baseUrl" ;;;
          Normal (baseUrl ++ lit "/assets/placeholder.svg")
      end
  end.

Record Project : Type := MkProject {
  p_slug : str;
  p_title : str;
  p_summary : str;
  p_content : str;
  p_images : obj;
  p_previewImage : str;
  p_date : str
}.

(** The order of [Array.prototype.sort] without a comparator: by code
    units. *)
Fixpoint str_ltb (a b : str) : bool :=
  match a, b with
  | _, [] => false
  | [], _ :: _ => true
  | x :: a', y :: b' => N.ltb x y || (N.eqb x y && str_ltb a' b')
  end.

Fixpoint insert_by (A : Type) (lt : A -> A -> bool) (x : A) (l : list A)
  : list A :=
  match l with
  | [] => [x]
  | y :: t => if lt x y then x :: l else y :: insert_by lt x t
  end.

(** A stable sort: an element goes behind the elements it is not less
    than. *)
Definition sort_by (A : Type) (lt : A -> A -> bool) (l : list A) : list A :=
  fold_left (fun acc x => insert_by lt x acc) l [].

(** One turn of the loop of [ingestProjects]: [None] for a folder that
    is skipped. *)
Definition ingest_folder (folder : str) : completion (option Project) :=
  let projectPath := path_join [projectsDir; folder] in
  stat_isDirectory <- isDirectory projectPath ;;;
  if negb stat_isDirectory then Normal None
  else
    files <- readdirSync projectPath ;;;
    match find (ends_with (lit ".tex")) files with
    | None => Normal None
    | Some texFile =>
        texContent <- readFileSync (path_join [projectPath; texFile]) ;;;
        let md := extractTeXMetadata texContent in
        let images := extractImages texContent projectPath in
        let slug := slugify folder in
        previewImage <- getPreviewImage images slug ;;;
        Normal (Some (MkProject slug (title md) (summary md) (content md)
                        images previewImage today))
    end.

Fixpoint ingest_loop (folders : list str) (projects : list Project)
  : completion (list Project) :=
  match folders with
  | [] => Normal projects
  | folder :: rest =>
      r <- ingest_folder folder ;;;
      match r with
      | Some p => ingest_loop rest (projects ++ [p])
      | None => ingest_loop rest projects
      end
  end.

(** [ingestProjects]: the list that is handed to [writeFileSync] for
    the index file, or the error that is thrown before that call and
    rejects the promise (and then no index is written).  The writing
    itself ([mkdirSync], [writeFileSync]) is not modelled. *)
Definition ingestProjects : completion (list Project) :=
  if negb (existsSync projectsDir) then Normal []
  else
    projectFolders <- readdirSync projectsDir ;;;
    projects <- ingest_loop (sort_by str_ltb projectFolders) [] ;;;
    Normal (sort_by (fun a b =>
                       match localeCompare (p_slug a) (p_slug b) with
                       | Lt => true
                       | _ => false
                       end) projects).

End FileSystem.

(** ** The Transpiler *)

(** JS: the class of the five characters ampersand, less-than,
    greater-than, double quote and single quote, with the g flag; each
    match is replaced through the table of [escapeHtml]. *)
Definition re_html_special : regex :=
  Chr (fun c => N.eqb c 38 || N.eqb c 60 || N.eqb c 62 || N.eqb c 34 || N.eqb c 39).

Definition entity (c : char) : str :=
  if N.eqb c 38 then lit "&amp;"
  else if N.eqb c 60 then lit "&lt;"
  else if N.eqb c 62 then lit "&gt;"
  else if N.eqb c 34 then lit "&quot;"
  else if N.eqb c 39 then lit "&#039;"
  else [c].

Definition escapeHtml (text : str) : str :=
  re_replace_fn re_html_special (fun mt => flat_map entity (m_text mt)) text.

(** The table of extracted math and the counter that numbers its keys. *)
Record math_state : Type := MathState {
  mathBlocks : obj;
  mathCounter : nat
}.

Definition display_markup (math : str) : str :=
  tpl "<div class=`my-6 overflow-x-auto` data-math=`" ++ math ++
  tpl "` data-display=`true`></div>".

Definition inline_markup (math : str) : str :=
  tpl "<span data-math=`" ++ math ++ tpl "` data-display=`false`></span>".

(** The callback of the math passes. *)
Definition mint (prefix : str) (markup : str -> str) (mt : rmatch)
  (sg : math_state) : str * math_state :=
  let key := prefix ++ of_nat (mathCounter sg) ++ lit "__" in
  (key,
   MathState (obj_set key (markup (trim (or_empty (group 1 mt)))) (mathBlocks sg))
     (S (mathCounter sg))).

Definition mint_display := mint (lit "__MATH_DISPLAY_") display_markup.
Definition mint_inline := mint (lit "__MATH_INLINE_") inline_markup.

(** JS: /\\texorpdfstring\{[^}]*\}\{([^}]* )\}/g *)
Definition re_texorpdfstring : regex :=
  L "\texorpdfstring{" ;; Star true (Not1 "}") ;; L "}{" ;;
  Group 1 (Star true (Not1 "}")) ;; L "}".

(** JS: /\\\[([\s\S]*?)\\\]/g *)
Definition re_bracket_math : regex :=
  L "\[" ;; Group 1 (Star false Any) ;; L "\]".
(** JS: /\$\$([\s\S]*?)\$\$/g *)
Definition re_dollars_math : regex :=
  L "$$" ;; Group 1 (Star false Any) ;; L "$$".
(** JS: /\\begin\{NAME\*?\}([\s\S]*?)\\end\{NAME\*?\}/g, for NAME one of
    equation, align, gather, eqnarray, multline *)
Definition re_math_env (name : string) : regex :=
  L "\begin{" ;; L name ;; Opt (L "*") ;; L "}" ;;
  Group 1 (Star false Any) ;;
  L "\end{" ;; L name ;; Opt (L "*") ;; L "}".
(** JS: /\$([^$]+?)\$/g *)
Definition re_inline_math : regex :=
  L "$" ;; Group 1 (Plus false (Not1 "$")) ;; L "$".

Definition display_pass (r : regex) (x : str * math_state) : str * math_state :=
  re_replace_st r mint_display (fst x) (snd x).

Definition inline_pass (x : str * math_state) : str * math_state :=
  re_replace_st re_inline_math mint_inline (fst x) (snd x).

(** PHASE 1: the eight math passes, in the order of the source. *)
Definition extract_math (html : str) : str * math_state :=
  inline_pass
    (display_pass (re_math_env "multline")
    (display_pass (re_math_env "eqnarray")
    (display_pass (re_math_env "gather")
    (display_pass (re_math_env "align")
    (display_pass (re_math_env "equation")
    (display_pass re_dollars_math
    (display_pass re_bracket_math (html, MathState [] 0)))))))).

(** [html.replace(r, '')] *)
Definition strip (r : regex) (html : str) : str := re_replace r [] html.

(** A command with one argument in braces, JS: /\\NAME\{[^}]*\}/g *)
Definition re_cmd_arg (name : string) : regex :=
  L "\" ;; L name ;; L "{" ;; Star true (Not1 "}") ;; L "}".
(** JS: /\\NAME\{[^}]*\}\{[^}]*\}/g *)
Definition re_cmd_2args (name : string) : regex :=
  L "\" ;; L name ;; L "{" ;; Star true (Not1 "}") ;; L "}{" ;;
  Star true (Not1 "}") ;; L "}".
(** JS: /\\usepackage(?:\[[^\]]*\])?\{[^}]*\}/g *)
Definition re_usepackage : regex :=
  L "\usepackage" ;; Opt (L "[" ;; Star true (Not1 "]") ;; L "]") ;;
  L "{" ;; Star true (Not1 "}") ;; L "}".
(** JS: /\\begin\{abstract\}[\s\S]*?\\end\{abstract\}/g *)
Definition re_abstract : regex :=
  L "\begin{abstract}" ;; Star false Any ;; L "\end{abstract}".
(** JS: /\\begin\{table\*?\}[\s\S]*?\\end\{table\*?\}/g *)
Definition re_table : regex :=
  L "\begin{table" ;; Opt (L "*") ;; L "}" ;; Star false Any ;;
  L "\end{table" ;; Opt (L "*") ;; L "}".
(** JS: /\\begin\{tabular\}[^}]*\}[\s\S]*?\\end\{tabular\}/g *)
Definition re_tabular : regex :=
  L "\begin{tabular}" ;; Star true (Not1 "}") ;; L "}" ;; Star false Any ;;
  L "\end{tabular}".
(** JS: /0\.48/g *)
Definition re_048 : regex := L "0.48".
(** JS: /0\.\d+\\textwidth/g *)
Definition re_frac_textwidth : regex :=
  L "0." ;; Plus true (Chr is_digit) ;; L "\textwidth".
(** JS: /%[^\n]*/g *)
Definition re_comment : regex := L "%" ;; Star true (Chr (neqc nl)).
(** JS: /^[^a-zA-Z0-9]*\n/gm *)
Definition re_blank_line : regex :=
  Bol ;; Star true (Chr (fun c => negb (is_alnum c))) ;; Chr (eqc nl).

(** PHASE 2, first part: the document structure. *)
Definition strip_structure (html : str) : str :=
  strip (re_cmd_2args "renewcommand")
    (strip (re_cmd_2args "setcounter")
    (strip (re_cmd_arg "pagestyle")
    (strip (re_cmd_arg "geometry")
    (strip re_tabular
    (strip re_table
    (strip (L "\maketitle")
    (strip re_abstract
    (strip (L "\end{document}")
    (strip (L "\begin{document}")
    (strip re_usepackage
    (strip (re_cmd_arg "documentclass") html))))))))))).

(** PHASE 2, second part: the rules under the source's comment
    [Remove figure-related LaTeX commands that might leak through]. *)
Definition strip_figure_commands (html : str) : str :=
  strip (L "[!htbp]")
    (strip (L "[htbp]")
    (strip (L "[b]")
    (strip (L "[t]")
    (strip (L "[h]")
    (strip (L "[H]")
    (strip (re_cmd_arg "label")
    (strip (re_cmd_arg "caption")
    (strip (L "\hfill")
    (strip (L "\centering") html))))))))).

(** The two width rules that close PHASE 2. *)
Definition strip_048 (html : str) : str := strip re_048 html.
Definition strip_frac_textwidth (html : str) : str := strip re_frac_textwidth html.
Definition strip_widths (html : str) : str :=
  strip_frac_textwidth (strip_048 html).

Definition strip_comments (html : str) : str :=
  strip re_blank_line (strip re_comment html).

(** JS: /\\NAME\{([^}]+)\}/ *)
Definition re_cmd_text (name : string) : regex :=
  L "\" ;; L name ;; L "{" ;; Group 1 (Plus true (Not1 "}")) ;; L "}".
(** JS: /\\NAME\*?\{([^}]+)\}/g *)
Definition re_heading (name : string) : regex :=
  L "\" ;; L name ;; Opt (L "*") ;; L "{" ;;
  Group 1 (Plus true (Not1 "}")) ;; L "}".

(** PHASE 3: the title block. *)
Definition title_block (html : str) : str :=
  match re_match (re_cmd_text "title") html with
  | Some titleMatch =>
      tpl "<h1 class=`text-4xl font-bold mb-3 text-white`>" ++
      escapeHtml (or_empty (group 1 titleMatch)) ++ lit "</h1>" ++ [nl]
  | None => []
  end ++
  match re_match (re_cmd_text "author") html with
  | Some authorMatch =>
      tpl "<p class=`text-base text-gray-400 mb-1`>" ++
      escapeHtml (or_empty (group 1 authorMatch)) ++ lit "</p>" ++ [nl]
  | None => []
  end ++
  match re_match (re_cmd_text "date") html with
  | Some dateMatch =>
      tpl "<p class=`text-sm text-gray-500 mb-6`>" ++
      escapeHtml (or_empty (group 1 dateMatch)) ++ lit "</p>" ++ [nl]
  | None => []
  end.

Definition strip_title_commands (html : str) : str :=
  strip (L "\today")
    (strip (re_cmd_arg "date")
    (strip (re_cmd_arg "author")
    (strip (re_cmd_arg "title") html))).

Definition convert_footnotes (html : str) : str :=
  re_replace (re_cmd_text "footnote")
    (tpl "<sup class=`text-orange-400 cursor-help` title=`$1`>[*]</sup>") html.

(** PHASE 4 *)
Definition convert_headings (html : str) : str :=
  re_replace (re_heading "subsubsection")
    (tpl "<h4 class=`text-xl font-semibold mt-6 mb-3 text-gray-200`>$1</h4>")
    (re_replace (re_heading "subsection")
       (tpl "<h3 class=`text-2xl font-semibold mt-8 mb-4 text-gray-100`>$1</h3>")
       (re_replace (re_heading "section")
          (tpl "<h2 class=`text-3xl font-bold mt-10 mb-5 text-white border-b border-orange-500/50 pb-2`>$1</h2>")
          html)).

(** PHASE 5 *)
Definition convert_emphasis (html : str) : str :=
  re_replace (re_cmd_text "textsf") (lit "$1")
    (re_replace (re_cmd_text "textrm") (lit "$1")
    (re_replace (re_cmd_text "textsc") (tpl "<span class=`uppercase`>$1</span>")
    (re_replace (re_cmd_text "textsl") (lit "<em>$1</em>")
    (re_replace (re_cmd_text "emph") (lit "<em>$1</em>")
    (re_replace (re_cmd_text "texttt") (lit "<code>$1</code>")
    (re_replace (re_cmd_text "textit") (lit "<em>$1</em>")
    (re_replace (re_cmd_text "textbf") (lit "<strong>$1</strong>") html))))))).

(** *** PHASE 5a: figures *)

Definition sp (n : nat) : str := repeat 32%N n.

(** The loop that looks for the brace closing the caption; the result
    is [endIdx - startIdx]. *)
Fixpoint brace_scan (braceCount : nat) (s : str) : nat :=
  match s with
  | [] => 0
  | c :: t =>
      match braceCount with
      | O => 0
      | S _ =>
          let b1 := if N.eqb c 123 then S braceCount else braceCount in
          let b2 := if N.eqb c 125 then pred b1 else b1 in
          S (brace_scan b2 t)
      end
  end.

Definition main_caption (figContent : str) : str :=
  match re_match (L "\caption{") figContent with
  | Some _ =>
      match indexOf (lit "\caption{") figContent with
      | Some i =>
          let startIdx := i + 9 in
          let endIdx := startIdx + brace_scan 1 (skipn startIdx figContent) in
          substring startIdx (endIdx - 1) figContent
      | None => []
      end
  | None => []
  end.

(** [processCaptionMath]: its own counter and table; the keys are put
    back through [replace] with a string pattern. *)
Definition mint_caption (mt : rmatch) (sg : math_state) : str * math_state :=
  mint (lit "__CAP_MATH_") inline_markup mt sg.

Definition processCaptionMath (captionText : str) : str :=
  let (processed, sg) :=
    re_replace_st re_inline_math mint_caption captionText (MathState [] 0) in
  fold_left (fun acc kv => replace_string (fst kv) (snd kv) acc)
    (mathBlocks sg) processed.

(** JS: /\.[^.]+$/ *)
Definition re_extension : regex := L "." ;; Plus true (Not1 ".") ;; End.

Definition last_segment (path : str) : str :=
  last (split_char (ch "/") path) [].

Definition nonempty (s : str) : bool := negb (Nat.eqb (length s) 0).

(** [findImageUrl]; [None] is [null]. *)
Definition findImageUrl (images : obj) (fileName : str) : option str :=
  let cleaned := re_replace (Plus true Ws) [] (last_segment fileName) in
  let cleanFileName := if nonempty cleaned then cleaned else fileName in
  option_map snd
    (find (fun kv =>
             let key := fst kv in
             let keyBase := toLowerCase (re_replace_first re_extension [] key) in
             let fileBase :=
               toLowerCase (re_replace_first re_extension [] cleanFileName) in
             str_eqb (toLowerCase key) (toLowerCase cleanFileName)
             || str_eqb keyBase fileBase)
       images).

(** [if (url)]: neither [null] nor the empty string. *)
Definition truthy (o : option str) : option str :=
  match o with
  | Some u => if nonempty u then Some u else None
  | None => None
  end.

(** JS: /\\begin\{subfigure\}(?:\{[^}]*\\textwidth\})?([\s\S]*?)\\end\{subfigure\}/g *)
Definition re_subfigure : regex :=
  L "\begin{subfigure}" ;;
  Opt (L "{" ;; Star true (Not1 "}") ;; L "\textwidth}") ;;
  Group 1 (Star false Any) ;; L "\end{subfigure}".
(** JS: /\\begin\{minipage\}(?:\[[^\]]*\])?\{[^}]*\}([\s\S]*?)\\end\{minipage\}/g *)
Definition re_minipage : regex :=
  L "\begin{minipage}" ;; Opt (L "[" ;; Star true (Not1 "]") ;; L "]") ;;
  L "{" ;; Star true (Not1 "}") ;; L "}" ;;
  Group 1 (Star false Any) ;; L "\end{minipage}".
(** JS: /\\includegraphics(?:\s*\[[^\]]*\])?\s*\{([^}]+)\}/ *)
Definition re_includegraphics : regex :=
  L "\includegraphics" ;;
  Opt (Star true Ws ;; L "[" ;; Star true (Not1 "]") ;; L "]") ;;
  Star true Ws ;; L "{" ;; Group 1 (Plus true (Not1 "}")) ;; L "}".
(** JS: /\\includegraphics(?:\s*\[([^\]]* )\])?\s*\{([^}]+)\}/ *)
Definition re_includegraphics_width : regex :=
  L "\includegraphics" ;;
  Opt (Star true Ws ;; L "[" ;; Group 1 (Star true (Not1 "]")) ;; L "]") ;;
  Star true Ws ;; L "{" ;; Group 2 (Plus true (Not1 "}")) ;; L "}".
(** JS: /\\caption\{([^}]* )\}/ and /\\caption\*?\{([^}]* )\}/ *)
Definition re_subcaption : regex :=
  L "\caption{" ;; Group 1 (Star true (Not1 "}")) ;; L "}".
Definition re_subcaption_star : regex :=
  L "\caption" ;; Opt (L "*") ;; L "{" ;; Group 1 (Star true (Not1 "}")) ;; L "}".

Definition sub_caption_html (text : str) : str :=
  tpl "<p class=`text-sm text-gray-400 mt-2 text-center`>" ++ text ++ lit "</p>".

Definition half_item (div_class url alt subCaption : str) : str :=
  [nl] ++ sp 12 ++ tpl "<div class=`" ++ div_class ++ tpl "`>" ++
  [nl] ++ sp 14 ++ tpl "<img src=`" ++ url ++ tpl "` alt=`" ++ alt ++
  tpl "` class=`w-full h-auto rounded-lg` loading=`lazy` />" ++
  [nl] ++ sp 14 ++ subCaption ++
  [nl] ++ sp 12 ++ lit "</div>" ++
  [nl] ++ sp 10.

(** One turn of the subfigure loop: the items it pushes. *)
Definition subfigure_item (images : obj) (subfigMatch : rmatch) : list str :=
  let subfigContent := or_empty (group 1 subfigMatch) in
  match re_match re_includegraphics subfigContent with
  | Some imgMatch =>
      let img := or_empty (group 1 imgMatch) in
      let subCaption :=
        match re_match re_subcaption subfigContent with
        | Some subCaptionMatch => sub_caption_html (or_empty (group 1 subCaptionMatch))
        | None => []
        end in
      match truthy (findImageUrl images img) with
      | Some url =>
          [half_item (lit "flex-1 min-w-[280px] max-w-[48%]") url img subCaption]
      | None =>
          [half_item (lit "flex-1 min-w-[280px] max-w-[48%]")
             (lit "/assets/" ++ img) img subCaption]
      end
  | None => []
  end.

(** One turn of the minipage loop. *)
Definition minipage_item (images : obj) (minipageMatch : rmatch) : list str :=
  let minipageContent := or_empty (group 1 minipageMatch) in
  match re_match re_includegraphics minipageContent with
  | Some imgMatch =>
      let img := or_empty (group 1 imgMatch) in
      match truthy (findImageUrl images img) with
      | Some url =>
          let subCaption :=
            match re_match re_subcaption_star minipageContent with
            | Some subCaptionMatch =>
                sub_caption_html
                  (processCaptionMath (or_empty (group 1 subCaptionMatch)))
            | None => []
            end in
          [half_item (lit "w-[48%] min-w-[280px]") url img subCaption]
      | None => []
      end
  | None => []
  end.

(** The display-size class of a direct image, from its width
    specifier. *)
Definition sizeClass (widthSpec : str) : str :=
  if includes (lit "0.48") widthSpec || includes (lit "0.5") widthSpec
     || includes (lit "0.6") widthSpec
  then lit "max-w-md w-full"
  else if includes (lit "0.4") widthSpec || includes (lit "0.3") widthSpec
  then lit "max-w-sm w-full"
  else lit "max-w-3xl w-full".

Definition direct_item (images : obj) (figContent : str) : list str :=
  match re_match re_includegraphics_width figContent with
  | Some directImgMatch =>
      let widthSpec := or_empty (group 1 directImgMatch) in
      let imgPath := or_empty (group 2 directImgMatch) in
      match truthy (findImageUrl images imgPath) with
      | Some url =>
          [tpl "<img src=`" ++ url ++ tpl "` alt=`" ++ imgPath ++
           tpl "` class=`" ++ sizeClass widthSpec ++
           tpl " h-auto rounded-lg mx-auto` loading=`lazy` />"]
      | None => []
      end
  | None => []
  end.

Definition figure_images (images : obj) (figContent : str) : list str :=
  let nested :=
    flat_map (subfigure_item images) (re_match_all re_subfigure figContent) ++
    flat_map (minipage_item images) (re_match_all re_minipage figContent) in
  match nested with
  | [] => direct_item images figContent
  | _ :: _ => nested
  end.

(** The callback of the figure pass. *)
Definition render_figure (images : obj) (mt : rmatch) : str :=
  let figContent := or_empty (group 1 mt) in
  let caption := main_caption figContent in
  let imageMatches := figure_images images figContent in
  match imageMatches with
  | [] => []
  | _ :: _ =>
      let processedCaption := processCaptionMath caption in
      let captionHtml :=
        if nonempty processedCaption
        then tpl "<p class=`text-sm text-gray-400 mt-4 text-center italic`>" ++
             processedCaption ++ lit "</p>"
        else [] in
      let layoutClass :=
        if Nat.eqb (length imageMatches) 4
        then lit "grid grid-cols-1 md:grid-cols-2 gap-4"
        else lit "flex flex-wrap gap-4 justify-center" in
      [nl] ++ sp 6 ++ tpl "<figure class=`my-8`>" ++
      [nl] ++ sp 8 ++ tpl "<div class=`" ++ layoutClass ++ tpl "`>" ++
      [nl] ++ sp 10 ++ join imageMatches ++
      [nl] ++ sp 8 ++ lit "</div>" ++
      [nl] ++ sp 8 ++ captionHtml ++
      [nl] ++ sp 6 ++ lit "</figure>" ++
      [nl] ++ sp 4
  end.

(** JS: /\\begin\{figure\}(?:\[[^\]]*\])?([\s\S]*?)\\end\{figure\}/g *)
Definition re_figure : regex :=
  L "\begin{figure}" ;; Opt (L "[" ;; Star true (Not1 "]") ;; L "]") ;;
  Group 1 (Star false Any) ;; L "\end{figure}".

Definition resolve_figures (images : obj) (html : str) : str :=
  re_replace_fn re_figure (render_figure images) html.

(** The callback of the pass over the images outside figures. *)
Definition render_standalone (images : obj) (mt : rmatch) : str :=
  let imagePath := or_empty (group 1 mt) in
  let seg := last_segment imagePath in
  let fileName :=
    re_replace (Plus true Ws) [] (if nonempty seg then seg else imagePath) in
  match find (fun kv => str_eqb (toLowerCase (fst kv)) (toLowerCase fileName)
                        || includes fileName (fst kv)) images with
  | Some kv =>
      tpl "<img src=`" ++ snd kv ++ tpl "` alt=`" ++ fileName ++
      tpl "` class=`max-w-full h-auto rounded-lg my-4` loading=`lazy` />"
  | None => []
  end.

Definition standalone_images (images : obj) (html : str) : str :=
  re_replace_fn re_includegraphics (render_standalone images) html.

(** *** Lists, rules and bullets *)

(** JS: /\\begin\{NAME\}([\s\S]*?)\\end\{NAME\}/g *)
Definition re_list_env (name : string) : regex :=
  L "\begin{" ;; L name ;; L "}" ;; Group 1 (Star false Any) ;;
  L "\end{" ;; L name ;; L "}".
(** JS: /\\item\s*/ *)
Definition re_item : regex := L "\item" ;; Star true Ws.

Definition item_text (text : str) : str :=
  strip re_linebreak
    (re_replace (re_cmd_text "textit") (lit "<em>$1</em>")
       (re_replace (re_cmd_text "textbf") (lit "<strong>$1</strong>")
          (trim text))).

Definition item_parts (items : str) : list str :=
  filter (fun s => nonempty (trim s)) (re_split re_item items).

Definition render_itemize (mt : rmatch) : str :=
  tpl "<ul class=`my-4 space-y-1`>" ++
  join (map (fun text =>
               tpl "<li class=`ml-4 mb-2 text-gray-200`>" ++ [bullet; 32%N] ++
               item_text text ++ lit "</li>")
          (item_parts (or_empty (group 1 mt)))) ++
  lit "</ul>".

Fixpoint numbered (idx : nat) (l : list str) : list str :=
  match l with
  | [] => []
  | text :: t =>
      (tpl "<li class=`ml-4 mb-2 text-gray-200`>" ++ of_nat (idx + 1) ++
       lit ". " ++ item_text text ++ lit "</li>") :: numbered (S idx) t
  end.

Definition render_enumerate (mt : rmatch) : str :=
  tpl "<ol class=`my-4 space-y-1`>" ++
  join (numbered 0 (item_parts (or_empty (group 1 mt)))) ++
  lit "</ol>".

Definition convert_lists (html : str) : str :=
  re_replace_fn (re_list_env "enumerate") render_enumerate
    (re_replace_fn (re_list_env "itemize") render_itemize html).

(** JS: /^---+$/gm *)
Definition re_rule : regex := Bol ;; L "--" ;; Plus true (L "-") ;; Eol.

Definition convert_rules (html : str) : str :=
  re_replace re_rule (tpl "<hr class=`my-6 border-gray-600` />") html.

(** JS: /(?:^|\n)\s*-\s+([^\n\\]+)(?:\s*\\\\)?/g *)
Definition re_dash_bullet : regex :=
  Alt Start (Chr (eqc nl)) ;; Star true Ws ;; L "-" ;; Plus true Ws ;;
  Group 1 (Plus true (Chr (fun c => negb (N.eqb c 10 || N.eqb c 92)))) ;;
  Opt (Star true Ws ;; L "\\").

Definition convert_bullets (html : str) : str :=
  re_replace_fn re_dash_bullet
    (fun mt => [nl] ++ tpl "<li class=`ml-4 mb-2 text-gray-200`>" ++
               [bullet; 32%N] ++ trim (or_empty (group 1 mt)) ++ lit "</li>")
    html.

(** JS: /((?:<li[^>]*>.*?<\/li>\s* )+)/g *)
Definition re_li_run : regex :=
  Group 1 (Plus true
             (L "<li" ;; Star true (Not1 ">") ;; L ">" ;; Star false Dot ;;
              L "</li>" ;; Star true Ws)).

Definition wrap_li_runs (html : str) : str :=
  re_replace_fn re_li_run
    (fun mt => tpl "<ul class=`my-4 space-y-1`>" ++ m_text mt ++ lit "</ul>")
    html.

(** *** The sweep over what is left of LaTeX *)

(** JS: /\\[a-zA-Z]+(?:\{[^}]*\})?/g *)
Definition re_any_command : regex :=
  L "\" ;; Plus true (Chr is_alpha) ;;
  Opt (L "{" ;; Star true (Not1 "}") ;; L "}").
(** JS: /\\[^a-zA-Z]/g *)
Definition re_escaped_char : regex :=
  L "\" ;; Chr (fun c => negb (is_alpha c)).
(** JS: /\{([^}]* )\}/g *)
Definition re_braces : regex :=
  L "{" ;; Group 1 (Star true (Not1 "}")) ;; L "}".

Definition sweep (html : str) : str :=
  trim (re_replace re_braces (lit "$1")
          (strip re_escaped_char (strip re_any_command html))).

(** *** Paragraphs *)

(** JS: /\n\n+/ *)
Definition re_blank_lines : regex :=
  Chr (eqc nl) ;; Plus true (Chr (eqc nl)).

(** The callback of [map] in the paragraph step. *)
Definition wrap_paragraph (para : str) : str :=
  let para := trim para in
  if negb (nonempty para) then []
  else if re_test (Start ;; L "<") para then para
  else tpl "<p class=`mb-4 leading-relaxed text-gray-200`>" ++
       escapeHtml para ++ lit "</p>".

Definition paragraphs (html : str) : str :=
  join (filter nonempty (map wrap_paragraph (re_split re_blank_lines html))).

(** *** Putting the math back *)

(** [new RegExp(src, 'g')] for a source without pattern
    metacharacters, as the placeholder keys are. *)
Definition RegExp_of (src : str) : regex := Lit_of src.

Definition restore_math (blocks : obj) (result : str) : str :=
  fold_left (fun acc kv =>
               re_replace (RegExp_of (escapeHtml (fst kv))) (snd kv) acc)
    blocks result.

(** *** The pipeline *)

Definition parseAndRender (texContent : str) (images : obj) : str :=
  let html := re_replace re_texorpdfstring (lit "$1") texContent in
  let (html, sg) := extract_math html in
  let html := strip_structure html in
  let html := strip_figure_commands html in
  let html := strip_widths html in
  let html := strip_comments html in
  let titleHtml := title_block html in
  let html := strip_title_commands html in
  let html := convert_footnotes html in
  let html := convert_headings html in
  let html := convert_emphasis html in
  let html := resolve_figures images html in
  let html := standalone_images images html in
  let html := convert_lists html in
  let html := convert_rules html in
  let html := convert_bullets html in
  let html := wrap_li_runs html in
  let html := sweep html in
  restore_math (mathBlocks sg) (titleHtml ++ paragraphs html).

(** *** The component around the pipeline *)

(** The image table as the component hands it to [parseAndRender]:
    every value without its leading slash, behind the base path.
    JS: /^\// *)
Definition processedImages (basePath : str) (images : obj) : obj :=
  fold_left (fun acc kv =>
               obj_set (fst kv)
                 (basePath ++ re_replace_first (Start ;; L "/") [] (snd kv)) acc)
    images [].

(** What [getAttribute('data-math')] returns for the element that the
    browser builds from the markup of a placeholder: the value of a
    double-quoted attribute runs up to the next double quote.
    (The parser of the browser also decodes character references,
    reads a carriage return as a line feed and replaces the null
    character; none of this is modelled here, so statements that use
    this function keep to values without an ampersand, a carriage
    return and a null character.) *)
Fixpoint until_quote (s : str) : str :=
  match s with
  | [] => []
  | c :: t => if N.eqb c dq then [] else c :: until_quote t
  end.

Fixpoint after_first (p s : str) : option str :=
  match strip_prefix p s with
  | Some t => Some t
  | None =>
      match s with
      | [] => None
      | _ :: t => after_first p t
      end
  end.

Definition data_math (markup : str) : option str :=
  option_map until_quote (after_first (tpl "data-math=`") markup).

(** * Definitions for the statements *)

Fixpoint take_while (p : char -> bool) (s : str) : str :=
  match s with
  | [] => []
  | c :: t => if p c then c :: take_while p t else []
  end.

(** ** The slug, in the words of the specification *)

(** Every maximal run of characters of the class [p] becomes one
    [rep]; [in_run] tells that the walk is inside a run. *)
Fixpoint squeeze (p : char -> bool) (rep : char) (in_run : bool) (s : str) : str :=
  match s with
  | [] => []
  | c :: t =>
      if p c
      then if in_run then squeeze p rep true t else rep :: squeeze p rep true t
      else c :: squeeze p rep false t
  end.

Definition hyphen : char := 45%N.

(** The slug for a given set of characters that survive the stripping:
    lower-case, strip, white-space runs to one hyphen, runs of hyphens
    to one hyphen, at most 50 characters. *)
Definition slug_of (keep : char -> bool) (name : str) : str :=
  firstn 50
    (squeeze (eqc hyphen) hyphen false
       (squeeze is_space hyphen false
          (filter keep (toLowerCase name)))).

(** As the specification words it: alphanumeric characters, white space
    and hyphens survive. *)
Definition slugify_as_claimed : str -> str :=
  slug_of (fun c => is_alnum c || is_space c || N.eqb c hyphen).

(** As the code has it: word characters (which include the underscore),
    white space and hyphens survive. *)
Definition slugify_amended : str -> str :=
  slug_of (fun c => is_word c || is_space c || N.eqb c hyphen).

(** ** The title, in the words of the specification *)

Definition dollar : char := 36%N.

(** The title without the delimiters of its math: the two dollars of
    every pair are removed, a dollar without a partner stays.
    [inside] tells that the walk is between the dollars of a pair. *)
Fixpoint strip_math_delimiters (inside : bool) (s : str) : str :=
  match s with
  | [] => []
  | c :: t =>
      if N.eqb c dollar then
        if inside then strip_math_delimiters false t
        else if existsb (eqc dollar) t then strip_math_delimiters true t
        else c :: strip_math_delimiters false t
      else c :: strip_math_delimiters inside t
  end.

(** ** The image table *)

(** A reference is entitled to the entry [(key, url)] when its path has
    two segments or more, [key] is the last of them, the file that the
    first and the last name exists under the public assets, and [url]
    is its public path. *)
Definition entitles (dirname : str) (path_join : list str -> str)
  (existsSync : str -> bool) (capture : str) (kv : str * str) : Prop :=
  let parts := split_char (ch "/") (trim capture) in
  2 <= length parts /\
  fst kv = last parts [] /\
  existsSync (path_join [publicAssetsDir dirname path_join; hd [] parts; fst kv])
  = true /\
  snd kv = lit "/assets/" ++ hd [] parts ++ lit "/" ++ fst kv.

(** ** The two width rules *)


Definition at_frac_textwidth (s : str) : option (str * str) :=
  match strip_prefix (lit "0.") s with
  | Some t =>
      match take_while is_digit t with
      | [] => None
      | d =>
          match strip_prefix (lit "\textwidth") (drop_while is_digit t) with
          | Some rest => Some (lit "0." ++ d ++ lit "\textwidth", rest)
          | None => None
          end
      end
  | None => None
  end.


(** ** Blank lines and blocks *)

(** [no_blank prev s]: no two line feeds stand side by side in [s];
    [prev] tells that a line feed stands right before [s]. *)
Fixpoint no_blank (prev : bool) (s : str) : bool :=
  match s with
  | [] => true
  | c :: t =>
      if N.eqb c nl then negb prev && no_blank true t else no_blank false t
  end.

Fixpoint ends_nl (prev : bool) (s : str) : bool :=
  match s with
  | [] => prev
  | c :: t => ends_nl (N.eqb c nl) t
  end.

Definition is_nl_hd (s : str) : bool :=
  match s with c :: _ => N.eqb c nl | [] => false end.

(** A block of the output: it opens with the less-than sign, ends on a
    character that is no white space, and holds no blank line. *)
Definition block (x : str) : Prop :=
  hd 32%N x = 60%N /\ is_space (last x 32%N) = false /\ no_blank false x = true.

(** ** Texts on which a pattern finds nothing *)

(** [opens_with w r]: the pattern [r] matches only where the literal
    [w] stands. *)
Definition opens_with (w : str) (r : regex) : Prop :=
  forall pre s, starts_with w s = false -> match_at r pre s = None.

(** [silent r pre s]: no position of [s] has a match of [r], when
    [pre] (reversed) stands before [s]. *)
Definition silent (r : regex) (pre s : str) : Prop :=
  forall a b, s = a ++ b -> match_at r (rev a ++ pre) b = None.

(** ** Inputs of the worked examples *)

(** An image table with one entry. *)
Definition one_image : obj := [(lit "a.png", lit "/assets/p/a.png")].

(** A figure with a caption, and a figure whose image is half the text
    width. *)
Definition captioned_figure : str :=
  lit "\begin{figure}\includegraphics{p/a.png}\caption{Hi}\end{figure}".
Definition half_width_figure : str :=
  lit "\begin{figure}\includegraphics[width=0.5\textwidth]{p/a.png}\end{figure}".


(** A projects root with one folder, [Project-4], that holds one
    document and no image. *)
Definition demo_dirname : str := lit "/repo/scripts".
Definition demo_join (parts : list str) : str := join_with (lit "/") parts.
Definition demo_projects : str := lit "/repo/scripts/../projects".
Definition demo_folder : str := lit "/repo/scripts/../projects/Project-4".
Definition demo_paper : str := lit "/repo/scripts/../projects/Project-4/paper.tex".
Definition demo_exists (p : str) : bool := str_eqb p demo_projects.
Definition demo_readdir (p : str) : completion (list str) :=
  if str_eqb p demo_projects then Normal [lit "Project-4"]
  else if str_eqb p demo_folder then Normal [lit "paper.tex"]
  else if str_eqb p demo_paper then Throw (SystemError "ENOTDIR")
  else Throw (SystemError "ENOENT").
Definition demo_isDirectory (p : str) : completion bool :=
  if str_eqb p demo_projects || str_eqb p demo_folder then Normal true
  else if str_eqb p demo_paper then Normal false
  else Throw (SystemError "ENOENT").
Definition demo_readFile (p : str) : completion str :=
  if str_eqb p demo_paper
  then Normal (lit "\title{\textbf{Orbits}}\begin{document}Hello\end{document}")
  else if str_eqb p demo_projects || str_eqb p demo_folder
  then Throw (SystemError "EISDIR")
  else Throw (SystemError "ENOENT").
(** A sentence of plain prose with characters that HTML escapes. *)
Definition plain_prose : str := tpl "Fish & chips cost > 5 'now', `he` said.".

Definition demo_compare (a b : str) : comparison :=
  if str_eqb a b then Eq else if str_ltb a b then Lt else Gt.

(** ** The pipeline around the width rules *)







(** ** The rules of the pipeline *)





(** ** Characters of HTML *)

(** The five characters that [escapeHtml] rewrites, and the four of
    them that must not stand in its output. *)
Definition html_special (c : char) : bool :=
  N.eqb c 38 || N.eqb c 60 || N.eqb c 62 || N.eqb c 34 || N.eqb c 39.

Definition markup_char (c : char) : bool :=
  N.eqb c 60 || N.eqb c 62 || N.eqb c 34 || N.eqb c 39.

(** ** Slugs *)

(** The characters of a slug: lower-case ASCII letters, digits, the
    underscore and the hyphen. *)
Definition slug_char (c : char) : bool :=
  is_lower c || is_digit c || N.eqb c 95 || N.eqb c hyphen.

(** [single_hyphens prev s]: no two hyphens stand side by side in [s];
    [prev] tells that a hyphen stands right before [s]. *)
Fixpoint single_hyphens (prev : bool) (s : str) : bool :=
  match s with
  | [] => true
  | c :: t =>
      if N.eqb c hyphen then negb prev && single_hyphens true t
      else single_hyphens false t
  end.

(** ** Image tables *)

(** The reading of a value that the component hands on for a table
    entry: the value without its leading slash, behind the base path. *)
Definition behind_base (basePath : str) (kv : str * str) : str * str :=
  (fst kv,
   basePath ++ match snd kv with
               | c :: t => if N.eqb c 47 then t else c :: t
               | [] => []
               end).

Definition no_space (s : str) : bool := forallb (fun c => negb (is_space c)) s.

(** ** Slugs and the cover table *)

(** The two names that every JavaScript object inherits and that a
    slug can spell (the other inherited names hold an upper-case
    letter).  The model of the cover table knows the table's own keys
    only, so statements about every folder keep to slugs that are
    none of the two. *)
Definition inherited_name (slug : str) : bool :=
  str_eqb slug (lit "constructor") || str_eqb slug (lit "__proto__").

(** ** Braces *)

(** [nested e s]: the braces of [s] are balanced when [e] braces are
    open before it: no closing brace of [s] lacks its opening brace,
    and none of the [e] and of its own opening braces stays open. *)
Fixpoint nested (e : nat) (s : str) : bool :=
  match s with
  | [] => Nat.eqb e 0
  | c :: t =>
      if N.eqb c 123 then nested (S e) t
      else if N.eqb c 125 then
        match e with
        | O => false
        | S e' => nested e' t
        end
      else nested e t
  end.

(** ** Lines *)

(** The text of [s] up to its last [c0], that one included. *)
Fixpoint upto_last (c0 : char) (s : str) : option str :=
  match s with
  | [] => None
  | c :: t =>
      match upto_last c0 t with
      | Some u => Some (c :: u)
      | None => if N.eqb c c0 then Some [c] else None
      end
  end.

(** ** Plain prose *)

(** The triggers of the rewriting phases that are no line feed. *)
Definition calm_triggers : list str :=
  [ lit "\"; lit "$"; lit "%"; lit "{";
    lit "[H]"; lit "[h]"; lit "[t]"; lit "[b]"; lit "[htbp]"; lit "[!htbp]";
    lit "0.48"; lit "--"; lit "<li" ].

Definition calm (x : str) : bool :=
  forallb (fun w => negb (includes w x)) calm_triggers.

(** A piece of one line without any trigger. *)
Definition plain (x : str) : bool :=
  calm x && forallb (fun c => negb (is_line_terminator c)) x.

Definition starts_alnum (x : str) : bool := is_alnum (hd 0%N x).
Definition ends_space (x : str) : bool := is_space (last x 0%N).

(** A hyphen is the first character after the white space that [s]
    starts with. *)
Definition dash_ahead (s : str) : bool :=
  match drop_while is_space s with
  | c :: _ => N.eqb c 45
  | [] => false
  end.

(** The paragraph element around an escaped text. *)
Definition paragraph_of (text : str) : str :=
  tpl "<p class=`mb-4 leading-relaxed text-gray-200`>" ++ escapeHtml text ++
  lit "</p>".

(** ** Inline math *)

Definition underscore : char := 95%N.

(** What stands between the dollars of a piece of inline math that
    the inline pass is the first to take: a text that is not empty
    and holds neither a dollar nor the opening of display math, of an
    environment or of [\texorpdfstring]. *)
Definition inline_payload (math : str) : bool :=
  nonempty math
  && negb (existsb (eqc dollar) math)
  && negb (includes (lit "\[") math)
  && negb (includes (lit "\begin{") math)
  && negb (includes (lit "\texorpdfstring{") math).

(** A text that the parser of the browser hands over as it stands when
    it is the value of a double-quoted attribute: no double quote
    (which ends the value), no ampersand (which starts a character
    reference), no carriage return (read as a line feed) and no null
    character (replaced). *)
Definition attribute_plain (s : str) : bool :=
  forallb (fun c => negb (N.eqb c 34 || N.eqb c 38 || N.eqb c 13 || N.eqb c 0)) s.

(** The key that the inline pass mints for the first piece of math of
    a document. *)
Definition inline_key : str := lit "__MATH_INLINE_0__".

(** ** A projects root whose one project has a cover *)

Definition covered_folder : str := lit "/repo/scripts/../projects/Project-1".
Definition covered_notes : str := lit "/repo/scripts/../projects/notes.txt".
Definition covered_paper : str := lit "/repo/scripts/../projects/Project-1/paper.tex".
Definition covered_figure : str := lit "/repo/scripts/../projects/Project-1/figure.png".
Definition covered_readdir (p : str) : completion (list str) :=
  if str_eqb p demo_projects then Normal [lit "notes.txt"; lit "Project-1"]
  else if str_eqb p covered_folder then Normal [lit "figure.png"; lit "paper.tex"]
  else if str_eqb p covered_notes || str_eqb p covered_paper
          || str_eqb p covered_figure
  then Throw (SystemError "ENOTDIR")
  else Throw (SystemError "ENOENT").
Definition covered_isDirectory (p : str) : completion bool :=
  if str_eqb p demo_projects || str_eqb p covered_folder then Normal true
  else if str_eqb p covered_notes || str_eqb p covered_paper
          || str_eqb p covered_figure
  then Normal false
  else Throw (SystemError "ENOENT").
Definition covered_readFile (p : str) : completion str :=
  if str_eqb p covered_paper
  then Normal (lit "\title{\textbf{Orbits}}\begin{document}Hello\end{document}")
  else if str_eqb p covered_notes then Normal (lit "to do")
  else if str_eqb p covered_figure then Normal []
  else if str_eqb p demo_projects || str_eqb p covered_folder
  then Throw (SystemError "EISDIR")
  else Throw (SystemError "ENOENT").
Definition covered_index : list Project :=
  [ MkProject (lit "project-1") (lit "Orbits") [] (lit "Hello") []
      (lit "/assets/project1-cover.jpg") (lit "2026-01-01") ].

(** ** The keys of the math table *)

(** The key that a math pass mints at the count [i]: [display] tells
    the display passes from the inline pass. *)
Definition math_key (display : bool) (i : nat) : str :=
  (if display then lit "__MATH_DISPLAY_" else lit "__MATH_INLINE_") ++
  of_nat i ++ lit "__".

(** The table has one entry for each count below the counter. *)
Definition table_ok (sg : math_state) : Prop :=
  length (mathBlocks sg) = mathCounter sg
  /\ NoDup (map fst (mathBlocks sg))
  /\ Forall (fun kv => exists display i,
                 i < mathCounter sg /\ fst kv = math_key display i)
       (mathBlocks sg).

(** ** Headings *)

(** A heading command with its argument; [star] tells the starred
    form. *)
Definition heading_command (name : string) (star : bool) (T : str) : str :=
  lit "\" ++ lit name ++ (if star then lit "*" else []) ++ lit "{" ++ T ++ lit "}".

(** ** Lists *)

(** The text of a list item as the statements take it: not empty,
    without white space at its ends, without a backslash. *)
Definition item_ok (t : str) : bool :=
  nonempty t && str_eqb (trim t) t && negb (existsb (eqc 92%N) t).

(** The body of a list environment with the items [ts]. *)
Definition items_of (ts : list str) : str :=
  concat (map (fun t => lit "\item " ++ t) ts).

(** The list item of the text [t], behind the label [label]. *)
Definition li_of (label t : str) : str :=
  tpl "<li class=`ml-4 mb-2 text-gray-200`>" ++ label ++ t ++ lit "</li>".

(** The key that the display passes mint for the first piece of math
    of a document. *)
Definition display_key : str := lit "__MATH_DISPLAY_0__".

(** * Facts *)

(** ** Facts about lists and strings *)

Lemma take_drop_while p s : take_while p s ++ drop_while p s = s.
Proof.
  induction s as [|c t IH]; simpl; [reflexivity|].
  destruct (p c); simpl; [now rewrite IH | reflexivity].
Qed.

Lemma firstn_length_app (A : Type) (w t : list A) :
  firstn (length (w ++ t) - length t) (w ++ t) = w.
Proof.
  rewrite length_app.
  replace (length w + length t - length t) with (length w) by lia.
  rewrite firstn_app, firstn_all, Nat.sub_diag. simpl. apply app_nil_r.
Qed.

Lemma strip_prefix_app p t : strip_prefix p (p ++ t) = Some t.
Proof.
  induction p as [|x p IH]; simpl; [reflexivity|].
  now rewrite N.eqb_refl.
Qed.

Lemma strip_prefix_Some p s t : strip_prefix p s = Some t -> s = p ++ t.
Proof.
  revert s; induction p as [|x p IH]; simpl; intros s H.
  - now inversion H.
  - destruct s as [|y s]; [discriminate|].
    destruct (N.eqb x y) eqn:E; [|discriminate].
    apply N.eqb_eq in E; subst y. f_equal. now apply IH.
Qed.

(** ** Facts about the matcher *)

Lemma m_Seq a b k st : m (Seq a b) k st = m a (m b k) st.
Proof. reflexivity. Qed.

Lemma m_Chr p k b c t cs :
  m (Chr p) k (MState b (c :: t) cs) =
  if p c then k (MState (c :: b) t cs) else None.
Proof. reflexivity. Qed.

Lemma m_Chr_nil p k b cs : m (Chr p) k (MState b [] cs) = None.
Proof. reflexivity. Qed.

Lemma m_Star g a k st :
  m (Star g a) k st = star_loop (m a) g k (S (length (after st))) st.
Proof. reflexivity. Qed.

Lemma m_Group n a k st :
  m (Group n a) k st =
  m a (fun st' => k (MState (before st') (after st')
                       ((n, passed st st') :: caps st'))) st.
Proof. reflexivity. Qed.

Lemma m_Lit_of l k b a cs :
  m (Lit_of l) k (MState b a cs) =
  match strip_prefix l a with
  | Some t => k (MState (rev l ++ b) t cs)
  | None => None
  end.
Proof.
  revert b a; induction l as [|c l IH]; intros b a; simpl; [reflexivity|].
  destruct a as [|y a]; [reflexivity|].
  unfold eqc. rewrite (N.eqb_sym y c).
  destruct (N.eqb c y) eqn:E; [|reflexivity].
  apply N.eqb_eq in E; subst y.
  unfold consume; simpl. rewrite IH.
  destruct (strip_prefix l a); [|reflexivity].
  now rewrite <- app_assoc.
Qed.

Lemma match_at_Lit_of w pre s :
  match_at (Lit_of w) pre s =
  match strip_prefix w s with
  | Some t => Some (RMatch pre w t [])
  | None => None
  end.
Proof.
  unfold match_at. rewrite m_Lit_of.
  destruct (strip_prefix w s) as [t|] eqn:E; [|reflexivity].
  apply strip_prefix_Some in E; subst s. simpl.
  now rewrite firstn_length_app.
Qed.

(** A quantified class whose continuation cannot start on a character
    of the class: greedy or lazy, the loop passes the whole run. *)
Lemma star_class_run (step : cont -> cont) p g (k : cont) :
  (forall k' st, step k' st = m (Chr p) k' st) ->
  (forall b c t cs, p c = true -> k (MState b (c :: t) cs) = None) ->
  forall fuel b a cs,
    length (take_while p a) < fuel ->
    star_loop step g k fuel (MState b a cs) =
    k (MState (rev (take_while p a) ++ b) (drop_while p a) cs).
Proof.
  intros Hstep Hk. induction fuel as [|f IH]; intros b a cs Hf; [lia|].
  simpl. rewrite Hstep. destruct a as [|c t]; simpl.
  - destruct g; [reflexivity|]. now destruct (k _).
  - destruct (p c) eqn:Hp; simpl.
    + unfold progressed, consume; simpl.
      replace (length t <? S (length t)) with true
        by (symmetry; apply Nat.ltb_lt; lia).
      simpl in Hf. rewrite Hp in Hf. simpl in Hf.
      rewrite IH by lia.
      rewrite (Hk b c t cs Hp).
      rewrite <- app_assoc. simpl.
      destruct g; [|reflexivity]. now destruct (k _).
    + destruct g; [reflexivity|]. now destruct (k _).
Qed.

(** The same loop before a continuation that always accepts. *)
Lemma star_class_greedy_all (step : cont -> cont) p :
  (forall k' st, step k' st = m (Chr p) k' st) ->
  forall fuel b a cs,
    length (take_while p a) < fuel ->
    star_loop step true Some fuel (MState b a cs) =
    Some (MState (rev (take_while p a) ++ b) (drop_while p a) cs).
Proof.
  intros Hstep. induction fuel as [|f IH]; intros b a cs Hf; [lia|].
  simpl. rewrite Hstep. destruct a as [|c t]; simpl; [reflexivity|].
  destruct (p c) eqn:Hp; simpl; [|reflexivity].
  unfold progressed, consume; simpl.
  replace (length t <? S (length t)) with true
    by (symmetry; apply Nat.ltb_lt; lia).
  simpl in Hf. rewrite Hp in Hf. simpl in Hf.
  rewrite IH by lia. now rewrite <- app_assoc.
Qed.

Lemma firstn_one (c : char) (t : str) :
  firstn (length (c :: t) - length t) (c :: t) = [c].
Proof. exact (firstn_length_app [c] t). Qed.

Lemma take_while_length p s : length (take_while p s) <= length s.
Proof.
  induction s as [|c t IH]; simpl; [lia|]. destruct (p c); simpl; lia.
Qed.

(** ** The replace loop, and the three rules of [slugify] *)

Lemma skipn_take_while p s : skipn (length (take_while p s)) s = drop_while p s.
Proof.
  induction s as [|c t IH]; simpl; [reflexivity|].
  destruct (p c); simpl; [apply IH | reflexivity].
Qed.

Lemma drop_while_length p s : length (drop_while p s) <= length s.
Proof.
  induction s as [|c t IH]; simpl; [lia|]. destruct (p c); simpl; lia.
Qed.

Lemma replace_loop_skip r f n :
  forall pre s, n <= length s ->
    replace_loop r f n pre s =
    replace_loop r f 0 (rev (firstn n s) ++ pre) (skipn n s).
Proof.
  induction n as [|n IH]; intros pre s Hn; [reflexivity|].
  destruct s as [|c t]; simpl in Hn; [lia|].
  simpl. rewrite IH by lia. now rewrite <- app_assoc.
Qed.

Lemma match_at_Chr q pre s :
  match_at (Chr q) pre s =
  match s with
  | c :: t => if q c then Some (RMatch pre [c] t []) else None
  | [] => None
  end.
Proof.
  unfold match_at. cbn [m after]. destruct s as [|c t]; [reflexivity|].
  destruct (q c); [|reflexivity].
  unfold consume. cbn [after before caps].
  now rewrite firstn_one.
Qed.

(** Deleting the matches of a one-character class is a filter. *)
Lemma replace_Chr_delete q (f : rmatch -> str) s pre :
  (forall mt, f mt = []) ->
  replace_loop (Chr q) f 0 pre s = filter (fun c => negb (q c)) s.
Proof.
  intros Hf. revert pre; induction s as [|c t IH]; intros pre;
    cbn [replace_loop]; rewrite match_at_Chr.
  - reflexivity.
  - cbn [filter]. destruct (q c) eqn:E; cbn [negb m_text length].
    + now rewrite Hf, IH.
    + now rewrite IH.
Qed.

(** [a+] for a pattern [a] that matches as a one-character class. *)
Lemma match_at_plus_class (a : regex) p pre s :
  (forall k' st, m a k' st = m (Chr p) k' st) ->
  match_at (Plus true a) pre s =
  match s with
  | c :: t =>
      if p c then Some (RMatch pre (c :: take_while p t) (drop_while p t) [])
      else None
  | [] => None
  end.
Proof.
  intros Ha. unfold match_at, Plus. cbn [m]. rewrite Ha. cbn [m after].
  destruct s as [|c t]; [reflexivity|].
  destruct (p c); [|reflexivity].
  unfold consume. cbn [after before caps].
  rewrite (@star_class_greedy_all (m a) p Ha) by
    (pose proof (take_while_length p t); lia).
  cbn [after caps].
  pose proof (firstn_length_app (c :: take_while p t) (drop_while p t)) as E.
  cbn [app] in E. rewrite take_drop_while in E. now rewrite E.
Qed.

Lemma squeeze_in_run p rep s :
  squeeze p rep true s = squeeze p rep false (drop_while p s).
Proof.
  induction s as [|c t IH]; simpl; [reflexivity|].
  destruct (p c) eqn:E; [exact IH|]. simpl. now rewrite E.
Qed.

(** Replacing the runs of a class by one character squeezes them. *)
Lemma replace_plus_class (a : regex) p rep (f : rmatch -> str) :
  (forall k' st, m a k' st = m (Chr p) k' st) ->
  (forall mt, f mt = [rep]) ->
  forall n s pre, length s <= n ->
    replace_loop (Plus true a) f 0 pre s = squeeze p rep false s.
Proof.
  intros Ha Hf. induction n as [|n IH]; intros s pre Hn.
  - destruct s; [|simpl in Hn; lia].
    cbn [replace_loop]. now rewrite (@match_at_plus_class a p _ _ Ha).
  - destruct s as [|c t].
    + cbn [replace_loop]. now rewrite (@match_at_plus_class a p _ _ Ha).
    + simpl in Hn. cbn [replace_loop].
      rewrite (@match_at_plus_class a p _ _ Ha).
      cbn [squeeze]. destruct (p c) eqn:E.
      * cbn [m_text length]. rewrite Hf.
        rewrite replace_loop_skip by apply take_while_length.
        rewrite skipn_take_while.
        rewrite IH by (pose proof (drop_while_length p t); lia).
        now rewrite squeeze_in_run.
      * now rewrite IH by lia.
Qed.

Lemma slugify_refines name : slugify name = slugify_amended name.
Proof.
  unfold slugify, slugify_amended, slug_of. f_equal.
  unfold re_replace, re_replace_fn.
  set (s0 := toLowerCase name).
  assert (E1 : replace_loop re_slug_strip
                 (fun mt => expand (ngroups re_slug_strip) mt (lit "")) 0 [] s0 =
               filter (fun c => is_word c || is_space c || N.eqb c hyphen) s0).
  { unfold re_slug_strip. rewrite replace_Chr_delete by reflexivity.
    apply filter_ext. intros c. apply negb_involutive. }
  rewrite E1. clear E1.
  assert (E2 : forall s,
             replace_loop re_spaces
               (fun mt => expand (ngroups re_spaces) mt (lit "-")) 0 [] s =
             squeeze is_space hyphen false s).
  { intros s. unfold re_spaces.
    apply (@replace_plus_class (Chr is_space) is_space hyphen) with (n := length s);
      [reflexivity | reflexivity | lia]. }
  rewrite E2. clear E2.
  unfold re_hyphens, L.
  apply (@replace_plus_class (Lit_of (lit "-")) (eqc hyphen) hyphen)
    with (n := length (squeeze is_space hyphen false
                 (filter (fun c => is_word c || is_space c || N.eqb c hyphen) s0)));
    [reflexivity | reflexivity | lia].
Qed.

(** ** The title of the Extractor *)

Lemma take_while_all p a c t :
  forallb p a = true -> p c = false ->
  take_while p (a ++ c :: t) = a /\ drop_while p (a ++ c :: t) = c :: t.
Proof.
  intros Ha Hc. induction a as [|x a IH]; simpl in *.
  - now rewrite Hc.
  - apply andb_prop in Ha as [Hx Ha]. rewrite Hx.
    destruct (IH Ha) as [E1 E2]. now rewrite E1, E2.
Qed.

Lemma firstn_rev_app (A : Type) (a b : list A) :
  rev (firstn (length (rev a ++ b) - length b) (rev a ++ b)) = a.
Proof. rewrite firstn_length_app. apply rev_involutive. Qed.

(** The pattern of the bold title on a text that starts with such a
    title. *)
Lemma match_at_bold_title pre T post :
  T <> [] -> forallb (neqc (ch "}")) T = true ->
  exists mt,
    match_at re_bold_title pre (lit "\title{\textbf{" ++ T ++ lit "}}" ++ post)
    = Some mt /\ group 1 mt = Some T.
Proof.
  intros HT Hall. destruct T as [|c T]; [congruence|]. clear HT.
  cbn [forallb] in Hall. apply andb_prop in Hall as [Hc Hall].
  unfold match_at, re_bold_title, L.
  rewrite m_Seq, m_Lit_of, strip_prefix_app.
  rewrite m_Seq, m_Group. unfold Plus, Not1.
  rewrite m_Seq. cbn [app]. rewrite m_Chr, Hc, m_Star. cbn [after].
  destruct (@take_while_all (neqc (ch "}")) T (ch "}") (ch "}" :: post) Hall eq_refl)
    as [E1 E2].
  change (lit "}}" ++ post) with (ch "}" :: ch "}" :: post).
  rewrite (@star_class_run (m (Chr (neqc (ch "}")))) (neqc (ch "}")) true).
  - rewrite E1, E2. cbn [before after caps].
    rewrite m_Lit_of.
    change (strip_prefix (lit "}}") (ch "}" :: ch "}" :: post)) with (Some post).
    eexists; split; [reflexivity|].
    unfold group. cbn [m_caps caps assoc Nat.eqb]. f_equal.
    unfold passed. cbn [before].
    replace (rev T ++ c :: rev (lit "\title{\textbf{") ++ pre)
      with (rev (c :: T) ++ (rev (lit "\title{\textbf{") ++ pre))
      by (simpl; now rewrite <- app_assoc).
    apply firstn_rev_app.
  - reflexivity.
  - intros b x t cs Hx. rewrite m_Lit_of. cbn [after].
    unfold neqc in Hx. change (lit "}}") with [ch "}"; ch "}"].
    cbn [strip_prefix]. rewrite N.eqb_sym.
    now destruct (N.eqb x (ch "}")).
  - rewrite E1. simpl. rewrite length_app. simpl. lia.
Qed.

(** A pattern that opens with a literal matches only where the
    literal stands. *)
Lemma match_at_needs_literal w r pre s :
  starts_with w s = false -> match_at (Seq (Lit_of w) r) pre s = None.
Proof.
  unfold starts_with, match_at. cbn [m]. rewrite m_Lit_of.
  now destruct (strip_prefix w s).
Qed.

Lemma search_none w r : forall s pre,
  includes w s = false -> search (Seq (Lit_of w) r) pre s = None.
Proof.
  induction s as [|c t IH]; intros pre H; cbn [search includes] in *;
    apply orb_false_iff in H as [H1 H2];
    rewrite match_at_needs_literal by exact H1; [reflexivity|].
  now apply IH.
Qed.

Lemma search_first w r : forall a s pre,
  indexOf w (a ++ s) = Some (length a) ->
  search (Seq (Lit_of w) r) pre (a ++ s) =
  search (Seq (Lit_of w) r) (rev a ++ pre) s.
Proof.
  induction a as [|c a IH]; intros s pre H; [reflexivity|].
  cbn [app indexOf length] in H.
  destruct (starts_with w (c :: a ++ s)) eqn:E; [discriminate|].
  cbn [app search]. rewrite match_at_needs_literal by exact E.
  destruct (indexOf w (a ++ s)) as [i|] eqn:Ei; [|discriminate].
  simpl in H. injection H as H. subst i.
  rewrite IH by exact Ei. simpl. now rewrite <- app_assoc.
Qed.

Lemma drop_while_head p s x rest : drop_while p s = x :: rest -> p x = false.
Proof.
  induction s as [|c t IH]; simpl; [discriminate|].
  destruct (p c) eqn:E; [exact IH|]. intros H. now inversion H; subst.
Qed.

Lemma match_at_dollar_pair pre s :
  match_at re_dollar_pair pre s =
  match s with
  | c :: t =>
      if N.eqb c dollar then
        match drop_while (neqc dollar) t with
        | _ :: rest =>
            Some (RMatch pre (dollar :: take_while (neqc dollar) t ++ [dollar])
                    rest [(1, take_while (neqc dollar) t)])
        | [] => None
        end
      else None
  | [] => None
  end.
Proof.
  unfold match_at, re_dollar_pair, L.
  rewrite m_Seq, m_Lit_of. change (lit "$") with [dollar].
  destruct s as [|c t]; [reflexivity|]. cbn [strip_prefix].
  rewrite N.eqb_sym. destruct (N.eqb c dollar) eqn:Ec; [|reflexivity].
  apply N.eqb_eq in Ec. subst c.
  rewrite m_Seq, m_Group. unfold Not1. rewrite m_Star. cbn [after].
  change (ch "$") with dollar.
  rewrite (@star_class_run (m (Chr (neqc dollar))) (neqc dollar) true).
  - cbn [before after caps]. rewrite m_Lit_of.
    destruct (drop_while (neqc dollar) t) as [|x rest] eqn:Ed; [reflexivity|].
    pose proof (drop_while_head _ _ Ed) as Hx. unfold neqc in Hx.
    apply negb_false_iff in Hx. apply N.eqb_eq in Hx. subst x.
    cbn [strip_prefix]. rewrite N.eqb_refl. cbn [after caps]. f_equal.
    pose proof (take_drop_while (neqc dollar) t) as Et. rewrite Ed in Et.
    f_equal.
    + rewrite <- Et at 1 2.
      replace (dollar :: take_while (neqc dollar) t ++ dollar :: rest)
        with ((dollar :: take_while (neqc dollar) t ++ [dollar]) ++ rest)
        by (simpl; now rewrite <- app_assoc).
      apply firstn_length_app.
    + f_equal. f_equal. unfold passed. cbn [before].
      replace (rev [dollar] ++ pre) with (dollar :: pre) by reflexivity.
      rewrite firstn_length_app. apply rev_involutive.
  - reflexivity.
  - intros b x u cs Hx. rewrite m_Lit_of. cbn [after strip_prefix].
    unfold neqc in Hx. rewrite N.eqb_sym. now destruct (N.eqb x dollar).
  - pose proof (take_while_length (neqc dollar) t). lia.
Qed.

Lemma strip_inside s :
  strip_math_delimiters true s =
  take_while (neqc dollar) s ++
  match drop_while (neqc dollar) s with
  | _ :: rest => strip_math_delimiters false rest
  | [] => []
  end.
Proof.
  induction s as [|c t IH]; [reflexivity|].
  cbn [strip_math_delimiters take_while drop_while]. unfold neqc at 1 3.
  destruct (N.eqb c dollar); cbn [negb]; [reflexivity|].
  now rewrite IH.
Qed.

Lemma existsb_dollar s :
  existsb (eqc dollar) s =
  match drop_while (neqc dollar) s with _ :: _ => true | [] => false end.
Proof.
  induction s as [|c t IH]; [reflexivity|].
  cbn [existsb drop_while]. unfold eqc at 1, neqc at 1.
  destruct (N.eqb c dollar); cbn [negb orb]; [reflexivity | exact IH].
Qed.

Lemma skipn_run (A : Type) (a : list A) x y rest :
  skipn (length (a ++ [y])) (a ++ x :: rest) = rest.
Proof.
  replace (a ++ x :: rest) with ((a ++ [x]) ++ rest)
    by (now rewrite <- app_assoc).
  replace (length (a ++ [y])) with (length (a ++ [x]))
    by (rewrite !length_app; reflexivity).
  rewrite skipn_app, skipn_all, Nat.sub_diag. reflexivity.
Qed.

(** The second step of the title: the delimiters of every pair go. *)
Lemma unwrap_dollars : forall n s pre, length s <= n ->
  replace_loop re_dollar_pair (fun mt => slice_1_m1 (m_text mt)) 0 pre s =
  strip_math_delimiters false s.
Proof.
  induction n as [|n IH]; intros s pre Hn.
  - destruct s; [|simpl in Hn; lia].
    cbn [replace_loop]. now rewrite match_at_dollar_pair.
  - destruct s as [|c t].
    + cbn [replace_loop]. now rewrite match_at_dollar_pair.
    + simpl in Hn. cbn [replace_loop]. rewrite match_at_dollar_pair.
      cbn [strip_math_delimiters].
      destruct (N.eqb c dollar) eqn:Ec.
      * rewrite existsb_dollar.
        pose proof (take_drop_while (neqc dollar) t) as Et.
        destruct (drop_while (neqc dollar) t) as [|x rest] eqn:Ed.
        -- apply N.eqb_eq in Ec. subst c. now rewrite IH by lia.
        -- rewrite strip_inside, Ed.
           remember (take_while (neqc dollar) t) as tw eqn:Etw.
           clear Etw Ed. subst t.
           cbn [m_text length]. unfold slice_1_m1. cbn [tl].
           rewrite removelast_last.
           rewrite replace_loop_skip by (rewrite !length_app; simpl; lia).
           rewrite skipn_run.
           rewrite IH by (rewrite length_app in Hn; simpl in Hn; lia).
           reflexivity.
      * now rewrite IH by lia.
Qed.

Lemma extract_title_bold pre T post :
  indexOf (lit "\title{\textbf{")
    (pre ++ lit "\title{\textbf{" ++ T ++ lit "}}" ++ post) = Some (length pre) ->
  T <> [] ->
  forallb (neqc (ch "}")) T = true ->
  extract_title (pre ++ lit "\title{\textbf{" ++ T ++ lit "}}" ++ post) =
  strip_math_delimiters false T.
Proof.
  intros Hi HT Hall. unfold extract_title, re_match.
  destruct (match_at_bold_title (rev pre ++ []) post HT Hall) as [mt [Hm Hg]].
  assert (Hs : search re_bold_title []
                 (pre ++ lit "\title{\textbf{" ++ T ++ lit "}}" ++ post) = Some mt).
  { unfold re_bold_title, L in *. rewrite search_first by exact Hi.
    destruct (lit "\title{\textbf{" ++ T ++ lit "}}" ++ post);
      cbn [search]; now rewrite Hm. }
  rewrite Hs, Hg. cbn [or_empty]. unfold re_replace_fn.
  now apply unwrap_dollars with (n := length T).
Qed.

Lemma extract_title_fallback doc :
  includes (lit "\title{\textbf{") doc = false ->
  extract_title doc = lit "Untitled".
Proof.
  intros H. unfold extract_title, re_match, re_bold_title, L.
  rewrite search_none by exact H. reflexivity.
Qed.

(** ** The image table of the Extractor *)

Lemma str_eqb_eq a b : str_eqb a b = true <-> a = b.
Proof.
  revert b; induction a as [|x a IH]; intros [|y b]; simpl;
    try (split; [discriminate | congruence]); [tauto|].
  rewrite andb_true_iff, N.eqb_eq, IH. split; [intros []|intros H; inversion H];
    subst; auto.
Qed.

Lemma split_char_no_sep sep : forall s cur,
  forallb (neqc sep) s = true ->
  split_char_loop sep cur s = [rev cur ++ s].
Proof.
  induction s as [|c t IH]; intros cur H; simpl in *.
  - now rewrite app_nil_r.
  - apply andb_prop in H as [Hc Ht]. unfold neqc in Hc.
    apply negb_true_iff in Hc. rewrite Hc, IH by exact Ht.
    simpl. now rewrite <- app_assoc.
Qed.

Lemma Forall_obj_set (P : str * str -> Prop) k v : forall o,
  Forall P o -> P (k, v) -> Forall P (obj_set k v o).
Proof.
  induction o as [|[k0 v0] o IH]; intros Ho Hkv; simpl.
  - now constructor.
  - inversion Ho; subst. destruct (str_eqb k0 k) eqn:E.
    + apply str_eqb_eq in E. subst k0. now constructor.
    + constructor; [assumption | now apply IH].
Qed.

Section ExtractorFacts.

Variable dirname : str.
Variable path_join : list str -> str.
Variable existsSync : str -> bool.

(** A reference without a slash adds nothing. *)
Lemma add_image_bare images capture :
  forallb (neqc (ch "/")) (trim capture) = true ->
  add_image dirname path_join existsSync images capture = images.
Proof.
  intros H. unfold add_image, split_char.
  now rewrite split_char_no_sep by exact H.
Qed.

(** One turn of the loop keeps the table within what the references
    seen so far entitle to. *)
Lemma add_image_entitled (seen : list str) images capture :
  Forall (fun kv => exists c, In c seen /\
            entitles dirname path_join existsSync c kv) images ->
  Forall (fun kv => exists c, In c (seen ++ [capture]) /\
            entitles dirname path_join existsSync c kv)
    (add_image dirname path_join existsSync images capture).
Proof.
  intros H.
  assert (H' : Forall (fun kv => exists c, In c (seen ++ [capture]) /\
                entitles dirname path_join existsSync c kv) images).
  { eapply Forall_impl; [|exact H]. intros kv [c [Hc He]].
    exists c. split; [apply in_or_app; now left | exact He]. }
  unfold add_image.
  set (parts := split_char (ch "/") (trim capture)).
  destruct (Nat.leb 2 (length parts)) eqn:E2; [|exact H'].
  destruct (existsSync _) eqn:Ee; [|exact H'].
  apply Forall_obj_set; [exact H'|].
  exists capture. split; [apply in_or_app; right; now left|].
  unfold entitles. fold parts. cbn [fst snd].
  apply Nat.leb_le in E2. auto.
Qed.

Lemma fold_add_entitled captures : forall seen images,
  Forall (fun kv => exists c, In c seen /\
            entitles dirname path_join existsSync c kv) images ->
  Forall (fun kv => exists c, In c (seen ++ captures) /\
            entitles dirname path_join existsSync c kv)
    (fold_left (add_image dirname path_join existsSync) captures images).
Proof.
  induction captures as [|c l IH]; intros seen images H; cbn [fold_left].
  - now rewrite app_nil_r.
  - replace (seen ++ c :: l) with ((seen ++ [c]) ++ l)
      by (now rewrite <- app_assoc).
    apply IH. now apply add_image_entitled.
Qed.

Lemma extractImages_entitled texContent projectDir :
  Forall (fun kv => exists c, In c (image_captures texContent) /\
            entitles dirname path_join existsSync c kv)
    (extractImages dirname path_join existsSync texContent projectDir).
Proof.
  unfold extractImages.
  apply (@fold_add_entitled (image_captures texContent) [] []). constructor.
Qed.

End ExtractorFacts.

(** ** Deleting the occurrences of a pattern *)

Section Deletion.

(** A pattern [r] whose match at a position is described by [fm] (the
    matched text and what follows it), deleted by [f]; [occ] is a text
    that the pattern matches and that no match can reach into from the
    left. *)
Variable r : regex.
Variable f : rmatch -> str.
Variable fm : str -> option (str * str).
Variable occ : str -> Prop.

Hypothesis f_deletes : forall mt, f mt = [].
Hypothesis match_at_fm : forall pre s,
  match_at r pre s =
  match fm s with
  | Some (txt, rest) => Some (RMatch pre txt rest [])
  | None => None
  end.
Hypothesis fm_sound : forall s txt rest,
  fm s = Some (txt, rest) -> s = txt ++ rest /\ txt <> [].
Hypothesis fm_occ : forall o b, occ o -> fm (o ++ b) = Some (o, b).
Hypothesis fm_stable : forall x z txt rest,
  fm x = Some (txt, rest) -> fm (x ++ z) = Some (txt, rest ++ z).
Hypothesis fm_no_reach : forall x o b,
  occ o -> x <> [] -> fm x = None -> fm (x ++ o ++ b) = None.






End Deletion.



Lemma take_while_forallb p s : forallb p (take_while p s) = true.
Proof.
  induction s as [|c t IH]; simpl; [reflexivity|].
  destruct (p c) eqn:E; simpl; [now rewrite E | reflexivity].
Qed.




Lemma match_at_frac_textwidth pre s :
  match_at re_frac_textwidth pre s =
  match at_frac_textwidth s with
  | Some (txt, rest) => Some (RMatch pre txt rest [])
  | None => None
  end.
Proof.
  unfold match_at, re_frac_textwidth, at_frac_textwidth, L.
  rewrite m_Seq, m_Lit_of.
  destruct (strip_prefix (lit "0.") s) as [t|] eqn:E; [|reflexivity].
  apply strip_prefix_Some in E. subst s.
  unfold Plus. rewrite !m_Seq.
  destruct t as [|c t]; [reflexivity|].
  rewrite m_Chr. cbn [take_while drop_while].
  destruct (is_digit c) eqn:Hc; [|reflexivity].
  rewrite m_Star. cbn [after].
  rewrite (@star_class_run (m (Chr is_digit)) is_digit true).
  - rewrite m_Lit_of.
    destruct (strip_prefix (lit "\textwidth") (drop_while is_digit t))
      as [rest|] eqn:Er; [|reflexivity].
    cbn [after caps]. f_equal. f_equal.
    apply strip_prefix_Some in Er.
    pose proof (take_drop_while is_digit t) as Et. rewrite Er in Et.
    rewrite <- Et at 1 2.
    replace (lit "0." ++ c :: take_while is_digit t ++ lit "\textwidth" ++ rest)
      with ((lit "0." ++ (c :: take_while is_digit t) ++ lit "\textwidth") ++ rest).
    + apply firstn_length_app.
    + rewrite <- !app_assoc. reflexivity.
  - reflexivity.
  - intros b x u cs Hx. rewrite m_Lit_of. cbn [after].
    change (lit "\textwidth") with (92%N :: lit "textwidth").
    cbn [strip_prefix]. destruct (N.eqb 92 x) eqn:Ex; [|reflexivity].
    apply N.eqb_eq in Ex. subst x. discriminate.
  - pose proof (take_while_length is_digit t). lia.
Qed.






(** ** The paragraph step on its own output *)

Lemma no_blank_app a : forall p b,
  no_blank p (a ++ b) = no_blank p a && no_blank (ends_nl p a) b.
Proof.
  induction a as [|c a IH]; intros p b; simpl; [reflexivity|].
  destruct (N.eqb c nl); rewrite IH; [|reflexivity].
  now rewrite andb_assoc.
Qed.


Lemma no_blank_weaken s : forall p, no_blank p s = true -> no_blank false s = true.
Proof.
  destruct s as [|c t]; intros p H; simpl in *; [reflexivity|].
  destruct (N.eqb c nl); [|exact H].
  apply andb_prop in H as [_ H]. exact H.
Qed.

Lemma ends_nl_last s : forall p,
  s <> [] -> ends_nl p s = N.eqb (last s 32%N) nl.
Proof.
  induction s as [|c t IH]; intros p H; [congruence|].
  destruct t as [|c' t]; [reflexivity|].
  change (ends_nl p (c :: c' :: t)) with (ends_nl (N.eqb c nl) (c' :: t)).
  rewrite IH by discriminate. reflexivity.
Qed.

Lemma not_space_not_nl c : is_space c = false -> N.eqb c nl = false.
Proof.
  intros H. destruct (N.eqb c nl) eqn:E; [|reflexivity].
  apply N.eqb_eq in E. subst c. discriminate.
Qed.

Lemma block_nonempty x : block x -> x <> [].
Proof. intros [H _] ->. discriminate. Qed.

Lemma block_ends x : block x -> forall p, ends_nl p x = false.
Proof.
  intros Hb p. rewrite ends_nl_last by now apply block_nonempty.
  apply not_space_not_nl. apply Hb.
Qed.

Lemma last_app_nonempty (a b : list N) d : b <> [] -> last (a ++ b) d = last b d.
Proof.
  intros Hb. induction a as [|x a IH]; [reflexivity|].
  simpl. destruct (a ++ b) eqn:E; [|exact IH].
  apply app_eq_nil in E as [_ E]. congruence.
Qed.



(** *** [trim] *)

Lemma drop_while_fixed p s :
  p (hd 32%N s) = false -> s <> [] -> drop_while p s = s.
Proof. destruct s as [|c t]; [congruence|]. simpl. now intros ->. Qed.

Lemma hd_rev (s : list N) d : hd d (rev s) = last s d.
Proof.
  induction s as [|c t IH]; [reflexivity|].
  simpl rev. destruct t as [|c' t]; [reflexivity|].
  change (last (c :: c' :: t) d) with (last (c' :: t) d). rewrite <- IH.
  destruct (rev (c' :: t)) eqn:E; [|reflexivity].
  apply (f_equal (@length N)) in E. rewrite length_rev in E. discriminate.
Qed.

Lemma last_rev (s : list N) d : last (rev s) d = hd d s.
Proof. rewrite <- (rev_involutive s) at 2. now rewrite hd_rev. Qed.

Lemma rev_nonempty (s : list N) : s <> [] -> rev s <> [].
Proof.
  intros H E. apply H. rewrite <- (rev_involutive s), E. reflexivity.
Qed.

Lemma trim_fixed x :
  x <> [] -> is_space (hd 32%N x) = false -> is_space (last x 32%N) = false ->
  trim x = x.
Proof.
  intros Hn Hh Hl. unfold trim.
  rewrite (@drop_while_fixed is_space x Hh Hn).
  rewrite drop_while_fixed; [apply rev_involutive | | now apply rev_nonempty].
  now rewrite hd_rev.
Qed.

Lemma drop_while_hd p s :
  drop_while p s <> [] -> p (hd 32%N (drop_while p s)) = false.
Proof.
  intros H. destruct (drop_while p s) as [|x r] eqn:E; [congruence|].
  exact (drop_while_head _ _ E).
Qed.

Lemma drop_while_last p s d :
  drop_while p s <> [] -> last (drop_while p s) d = last s d.
Proof.
  intros H. rewrite <- (take_drop_while p s) at 2.
  now rewrite last_app_nonempty.
Qed.

(** What [trim] leaves is empty, or starts and ends on characters that
    are no white space; and it is a part of the text. *)
Lemma trim_ends s :
  trim s <> [] ->
  is_space (hd 32%N (trim s)) = false /\ is_space (last (trim s) 32%N) = false.
Proof.
  unfold trim. intros H.
  set (q := drop_while is_space s) in *.
  assert (Hr : drop_while is_space (rev q) <> []).
  { intros E. apply H. now rewrite E. }
  assert (Hq : q <> []).
  { intros E. apply Hr. now rewrite E. }
  split.
  - rewrite hd_rev, drop_while_last by exact Hr.
    rewrite last_rev. now apply drop_while_hd.
  - rewrite last_rev. now apply drop_while_hd.
Qed.

Lemma trim_infix s : exists a b, s = a ++ trim s ++ b.
Proof.
  unfold trim. set (q := drop_while is_space s).
  exists (take_while is_space s), (rev (take_while is_space (rev q))).
  rewrite <- rev_app_distr, take_drop_while, rev_involutive.
  symmetry. apply take_drop_while.
Qed.



(** *** [escapeHtml] *)

Lemma escapeHtml_flat_map text : escapeHtml text = flat_map entity text.
Proof.
  unfold escapeHtml, re_replace_fn, re_html_special. generalize (@nil N).
  induction text as [|c t IH]; intros pre; cbn [replace_loop];
    rewrite match_at_Chr; [reflexivity|].
  cbn [flat_map].
  destruct (_ || _) eqn:E.
  - cbn [m_text length flat_map]. rewrite app_nil_r. now rewrite IH.
  - rewrite IH. f_equal.
    repeat (apply orb_false_elim in E as [E ?]).
    unfold entity.
    repeat match goal with H : N.eqb _ _ = false |- _ => rewrite H; clear H end.
    reflexivity.
Qed.



(** *** Splitting at blank lines *)

Lemma match_at_blank_lines pre s :
  match_at re_blank_lines pre s =
  match s with
  | c1 :: c2 :: t =>
      if N.eqb c1 nl && N.eqb c2 nl
      then Some (RMatch pre (c1 :: c2 :: take_while (eqc nl) t)
                   (drop_while (eqc nl) t) [])
      else None
  | _ => None
  end.
Proof.
  unfold match_at, re_blank_lines, Plus. rewrite m_Seq.
  destruct s as [|c1 s]; [reflexivity|]. rewrite m_Chr. unfold eqc at 1.
  destruct (N.eqb c1 nl); [|now destruct s]. rewrite m_Seq.
  destruct s as [|c2 t]; [reflexivity|]. rewrite m_Chr. unfold eqc at 1.
  destruct (N.eqb c2 nl); [|reflexivity]. rewrite m_Star. cbn [after andb].
  rewrite (@star_class_greedy_all (m (Chr (eqc nl))) (eqc nl))
    by (try reflexivity; pose proof (take_while_length (eqc nl) t); lia).
  cbn [after caps]. f_equal. f_equal.
  pose proof (firstn_length_app (c1 :: c2 :: take_while (eqc nl) t)
                (drop_while (eqc nl) t)) as E.
  cbn [app] in E. now rewrite take_drop_while in E.
Qed.



(** A text without a blank line is its own single piece. *)
Lemma split_no_blank : forall s pre cur,
  no_blank (is_nl_hd cur) s = true ->
  split_loop re_blank_lines 0 pre cur s = [rev cur ++ s].
Proof.
  induction s as [|c t IH]; intros pre cur H; cbn [split_loop].
  - now rewrite app_nil_r.
  - rewrite match_at_blank_lines.
    assert (Hgo : split_loop re_blank_lines 0 (c :: pre) (c :: cur) t =
                  [rev cur ++ c :: t]).
    { rewrite IH.
      - cbn [rev]. now rewrite <- app_assoc.
      - cbn [is_nl_hd]. cbn [no_blank] in H.
        destruct (N.eqb c nl); [|exact H].
        apply andb_prop in H as [_ H]. exact H. }
    destruct t as [|c2 t]; [exact Hgo|].
    destruct (N.eqb c nl && N.eqb c2 nl) eqn:E; [|exact Hgo].
    apply andb_prop in E as [E1 E2]. cbn [no_blank] in H.
    rewrite E1, E2 in H. cbn [negb andb] in H.
    rewrite andb_false_r in H. discriminate.
Qed.


(** *** The callback and the whole step *)

Lemma m_Start k b a cs :
  m Start k (MState b a cs) =
  match b with [] => k (MState b a cs) | _ :: _ => None end.
Proof. reflexivity. Qed.

Lemma search_start_later r : forall s p0 pre,
  search (Start ;; r) (p0 :: pre) s = None.
Proof.
  induction s as [|c t IH]; intros p0 pre; cbn [search];
    unfold match_at; rewrite m_Seq, m_Start; [reflexivity | apply IH].
Qed.

Lemma re_test_lt x : re_test (Start ;; L "<") x = N.eqb (hd 32%N x) 60.
Proof.
  unfold re_test, re_match.
  destruct x as [|c t]; cbn [search]; unfold match_at, L;
    rewrite m_Seq, m_Start, m_Lit_of; change (lit "<") with [60%N];
    cbn [strip_prefix after]; [reflexivity|].
  rewrite N.eqb_sym. cbn [hd].
  destruct (N.eqb c 60); [reflexivity|].
  now rewrite search_start_later.
Qed.

Lemma nonempty_true (s : list N) : nonempty s = true <-> s <> [].
Proof.
  destruct s; simpl; split; intros H; try discriminate; try reflexivity.
  now elim H.
Qed.





(** ** Texts on which a pattern finds nothing *)

Lemma opens_with_lit w : opens_with w (Lit_of w).
Proof.
  intros pre s H. rewrite match_at_Lit_of. unfold starts_with in H.
  now destruct (strip_prefix w s).
Qed.

Lemma opens_with_seq w r : opens_with w (Seq (Lit_of w) r).
Proof. intros pre s H. now apply match_at_needs_literal. Qed.

Lemma starts_with_app a x s :
  starts_with (a ++ x) s = true -> starts_with a s = true.
Proof.
  unfold starts_with. revert s. induction a as [|c a IH]; intros s H;
    [reflexivity|].
  cbn [app strip_prefix] in *. destruct s as [|y s]; [discriminate|].
  destruct (N.eqb c y); [now apply IH | discriminate].
Qed.

Lemma opens_with_shorter a x r : opens_with (a ++ x) r -> opens_with a r.
Proof.
  intros H pre s Hs. apply H.
  destruct (starts_with (a ++ x) s) eqn:E; [|reflexivity].
  apply starts_with_app in E. congruence.
Qed.

Lemma includes_suffix w a b : includes w (a ++ b) = false -> includes w b = false.
Proof.
  induction a as [|c a IH]; intros H; [exact H|].
  cbn [app includes] in H. apply orb_false_iff in H as [_ H]. now apply IH.
Qed.

Lemma includes_starts w s : includes w s = false -> starts_with w s = false.
Proof.
  destruct s; cbn [includes]; intros H; apply orb_false_iff in H; tauto.
Qed.

Lemma opens_silent w r pre s :
  opens_with w r -> includes w s = false -> silent r pre s.
Proof.
  intros Ho Hi a b ->. apply Ho.
  apply includes_starts. now apply includes_suffix in Hi.
Qed.

Lemma silent_tail r pre c t : silent r pre (c :: t) -> silent r (c :: pre) t.
Proof.
  intros H a b ->.
  specialize (H (c :: a) b eq_refl). cbn [rev] in H.
  now rewrite <- app_assoc in H.
Qed.

Lemma silent_here r s pre : silent r pre s -> match_at r pre s = None.
Proof. intros H. exact (H [] s eq_refl). Qed.

(** On a silent text every method that takes the pattern finds
    nothing. *)
Lemma replace_silent r f : forall s pre,
  silent r pre s -> replace_loop r f 0 pre s = s.
Proof.
  induction s as [|c t IH]; intros pre H; cbn [replace_loop];
    rewrite (silent_here H); [reflexivity|].
  f_equal. apply IH. now apply silent_tail in H.
Qed.

Lemma replace_st_silent (St : Type) r (f : rmatch -> St -> str * St) sg :
  forall s pre, silent r pre s -> replace_loop_st r f 0 pre s sg = (s, sg).
Proof.
  induction s as [|c t IH]; intros pre H; cbn [replace_loop_st];
    rewrite (silent_here H); [reflexivity|].
  rewrite IH by (now apply silent_tail in H). reflexivity.
Qed.

Lemma search_silent r : forall s pre, silent r pre s -> search r pre s = None.
Proof.
  induction s as [|c t IH]; intros pre H; cbn [search];
    rewrite (silent_here H); [reflexivity|].
  apply IH. now apply silent_tail in H.
Qed.

Lemma re_replace_silent r repl s : silent r [] s -> re_replace r repl s = s.
Proof. intros H. now apply replace_silent. Qed.

Lemma re_replace_fn_silent r f s : silent r [] s -> re_replace_fn r f s = s.
Proof. intros H. now apply replace_silent. Qed.

Lemma strip_silent r s : silent r [] s -> strip r s = s.
Proof. intros H. now apply replace_silent. Qed.

Lemma re_match_silent r s : silent r [] s -> re_match r s = None.
Proof. intros H. now apply search_silent. Qed.

Lemma display_pass_silent r s sg :
  silent r [] s -> display_pass r (s, sg) = (s, sg).
Proof. intros H. unfold display_pass, re_replace_st. now apply replace_st_silent. Qed.

Lemma inline_pass_silent s sg :
  silent re_inline_math [] s -> inline_pass (s, sg) = (s, sg).
Proof. intros H. unfold inline_pass, re_replace_st. now apply replace_st_silent. Qed.

(** ** Tactics for texts on which the rules find nothing *)

Ltac opens :=
  unfold re_texorpdfstring, re_bracket_math, re_dollars_math, re_math_env,
    re_inline_math, re_cmd_arg, re_cmd_2args, re_usepackage, re_abstract,
    re_table, re_tabular, re_048, re_comment, re_cmd_text, re_heading,
    re_figure, re_includegraphics, re_list_env, re_any_command,
    re_escaped_char, re_braces, L;
  match goal with
  | |- opens_with ?a (Seq (Lit_of ?w) ?r) =>
      apply (@opens_with_shorter a (skipn (length a) w));
      exact (opens_with_seq w r)
  | |- opens_with ?a (Lit_of ?w) =>
      apply (@opens_with_shorter a (skipn (length a) w));
      exact (opens_with_lit w)
  end.

Ltac silence :=
  match goal with
  | H : includes ?w ?x = false |- silent _ _ ?x =>
      apply (@opens_silent w); [opens | exact H]
  end.

Lemma includes_here w s : starts_with w s = true -> includes w s = true.
Proof. destruct s; cbn [includes]; now intros ->. Qed.

Lemma includes_occurrence w : forall a b, includes w (a ++ w ++ b) = true.
Proof.
  intros a b. induction a as [|c a IH].
  - apply includes_here. unfold starts_with. cbn [app].
    now rewrite strip_prefix_app.
  - cbn [app includes]. rewrite IH. apply orb_true_r.
Qed.

Lemma silent_frac_textwidth pre x :
  includes (lit "\") x = false -> silent re_frac_textwidth pre x.
Proof.
  intros H a b ->. rewrite match_at_frac_textwidth.
  destruct (at_frac_textwidth b) as [[txt rest]|] eqn:E; [|reflexivity].
  unfold at_frac_textwidth in E.
  destruct (strip_prefix (lit "0.") b) as [t|] eqn:E1; [|discriminate].
  apply strip_prefix_Some in E1.
  pose proof (take_drop_while is_digit t) as Et.
  destruct (take_while is_digit t) as [|d0 d]; [discriminate|].
  destruct (strip_prefix (lit "\textwidth") (drop_while is_digit t))
    as [r0|] eqn:E2; [|discriminate].
  apply strip_prefix_Some in E2. rewrite E2 in Et. subst b t.
  exfalso.
  match type of H with
  | includes _ ?X = false =>
      assert (Hin : includes (lit "\") X = true);
      [ replace X with ((a ++ lit "0." ++ d0 :: d) ++ lit "\" ++
                        (lit "textwidth" ++ r0));
        [ apply includes_occurrence
        | rewrite <- !app_assoc; reflexivity ]
      | congruence ]
  end.
Qed.

Lemma star_never (step : cont -> cont) p g (k : cont) c0 :
  (forall k' st, step k' st = m (Chr p) k' st) ->
  (forall st, existsb (eqc c0) (after st) = false -> k st = None) ->
  forall fuel b a cs,
    existsb (eqc c0) a = false ->
    star_loop step g k fuel (MState b a cs) = None.
Proof.
  intros Hstep Hk. induction fuel as [|f IH]; intros b a cs Ha.
  - apply Hk. exact Ha.
  - cbn [star_loop]. rewrite Hstep, (Hk (MState b a cs) Ha).
    destruct a as [|c t]; [now destruct g|]. rewrite m_Chr.
    cbn [existsb] in Ha. apply orb_false_iff in Ha as [_ Ha].
    destruct (p c); [|now destruct g].
    unfold progressed. cbn [after].
    replace (length t <? length (c :: t)) with true
      by (symmetry; apply Nat.ltb_lt; simpl; lia).
    rewrite IH by exact Ha. now destruct g.
Qed.

Lemma includes_char c x : includes [c] x = existsb (eqc c) x.
Proof.
  induction x as [|y x IH]; [reflexivity|].
  cbn [includes existsb]. rewrite IH. f_equal.
  unfold starts_with, eqc. cbn [strip_prefix]. rewrite N.eqb_sym.
  now destruct (N.eqb y c).
Qed.

Lemma m_Bol k st : m Bol k st = if at_line_start st then k st else None.
Proof. reflexivity. Qed.

Lemma silent_blank_line pre x :
  includes [nl] x = false -> silent re_blank_line pre x.
Proof.
  intros H a b ->. apply includes_suffix in H. rewrite includes_char in H.
  unfold match_at, re_blank_line. rewrite m_Seq, m_Bol.
  destruct (at_line_start _); [|reflexivity].
  rewrite m_Seq, m_Star.
  rewrite (@star_never (m (Chr (fun c => negb (is_alnum c))))
             (fun c => negb (is_alnum c)) true _ nl);
    [reflexivity | reflexivity | | exact H].
  intros [b' a' cs'] Ha. cbn [after] in Ha.
  destruct a' as [|c t]; [reflexivity|]. rewrite m_Chr.
  cbn [existsb] in Ha. apply orb_false_iff in Ha as [Hc _]. now rewrite Hc.
Qed.

Lemma silent_rule pre x : includes (lit "--") x = false -> silent re_rule pre x.
Proof.
  intros H a b ->. apply includes_suffix, includes_starts in H.
  unfold match_at, re_rule, L. rewrite m_Seq, m_Bol.
  destruct (at_line_start _); [|reflexivity].
  rewrite m_Seq, m_Lit_of. unfold starts_with in H. cbn [after].
  now destruct (strip_prefix (lit "--") b).
Qed.

Lemma silent_li_run pre x : includes (lit "<li") x = false -> silent re_li_run pre x.
Proof.
  intros H a b ->. apply includes_suffix, includes_starts in H.
  unfold match_at, re_li_run, Plus, L. rewrite m_Group, !m_Seq, m_Lit_of.
  unfold starts_with in H. cbn [after].
  now destruct (strip_prefix (lit "<li") b).
Qed.

(** The bullet pattern needs a line feed, or the start of the text
    before white space and a hyphen. *)
Lemma m_Alt a b k st :
  m (Alt a b) k st =
  match m a k st with Some x => Some x | None => m b k st end.
Proof. reflexivity. Qed.

Lemma silent_dash_bullet x :
  includes [nl] x = false -> hd 32%N x = 60%N -> silent re_dash_bullet [] x.
Proof.
  intros H Hh a b E. unfold match_at, re_dash_bullet.
  rewrite m_Seq, m_Alt, app_nil_r.
  assert (Hnl : forall k, m (Chr (eqc nl)) k (MState (rev a) b []) = None).
  { intros k. destruct b as [|c t]; [reflexivity|]. rewrite m_Chr.
    subst x. apply includes_suffix in H. rewrite includes_char in H.
    cbn [existsb] in H. apply orb_false_iff in H as [Hc _]. now rewrite Hc. }
  rewrite Hnl, m_Start.
  destruct (rev a) as [|r0 ra] eqn:Er; [|reflexivity].
  assert (a = []) by (destruct a; [reflexivity|]; apply (f_equal (@length N)) in Er;
                      rewrite length_rev in Er; discriminate).
  subst a. cbn [app] in E. subst b.
  destruct x as [|c t]; [discriminate|]. cbn [hd] in Hh. subst c.
  rewrite m_Seq, m_Star. unfold Ws. cbn [star_loop after]. rewrite m_Chr.
  change (is_space 60) with false. rewrite m_Seq. unfold L.
  rewrite m_Lit_of. reflexivity.
Qed.

Lemma no_nl_no_blank x : forall p,
  existsb (eqc nl) x = false -> no_blank p x = true.
Proof.
  induction x as [|c t IH]; intros p H; [reflexivity|].
  cbn [existsb no_blank] in *. apply orb_false_iff in H as [Hc Ht].
  unfold eqc in Hc. rewrite Hc. now apply IH.
Qed.

Ltac hush :=
  first
    [ silence
    | match goal with
      | H : includes (lit "\") ?x = false |- silent re_frac_textwidth _ ?x =>
          exact (silent_frac_textwidth _ H)
      | H : includes [nl] ?x = false |- silent re_blank_line _ ?x =>
          exact (silent_blank_line _ H)
      | H : includes (lit "--") ?x = false |- silent re_rule _ ?x =>
          exact (silent_rule _ H)
      | H : includes (lit "<li") ?x = false |- silent re_li_run _ ?x =>
          exact (silent_li_run _ H)
      end ].

(** ** Where the placeholder markup is faithful *)

Lemma until_quote_app math rest :
  existsb (eqc dq) math = false -> until_quote (math ++ dq :: rest) = math.
Proof.
  induction math as [|c t IH]; intros H; cbn [app until_quote].
  - now rewrite N.eqb_refl.
  - cbn [existsb] in H. apply orb_false_iff in H as [Hc Ht].
    unfold eqc in Hc. rewrite Hc. now rewrite IH.
Qed.

(** Math without a double quote is read back from its markup as it
    was stored. *)
Lemma data_math_reads_back math :
  existsb (eqc dq) math = false ->
  data_math (inline_markup math) = Some math /\
  data_math (display_markup math) = Some math.
Proof.
  intros H. unfold data_math, inline_markup, display_markup. split.
  - change (after_first (tpl "data-math=`")
              (tpl "<span data-math=`" ++ math ++
               tpl "` data-display=`false`></span>"))
      with (Some (math ++ dq :: tpl " data-display=`false`></span>")).
    cbn [option_map]. now rewrite until_quote_app.
  - change (after_first (tpl "data-math=`")
              (tpl "<div class=`my-6 overflow-x-auto` data-math=`" ++ math ++
               tpl "` data-display=`true`></div>"))
      with (Some (math ++ dq :: tpl " data-display=`true`></div>")).
    cbn [option_map]. now rewrite until_quote_app.
Qed.

(** A replacement string without a dollar is inserted as it is. *)
Lemma expand_without_dollar ng mt repl :
  existsb (eqc dollar) repl = false -> expand ng mt repl = repl.
Proof.
  induction repl as [|c t IH]; intros H; [reflexivity|].
  cbn [existsb] in H. apply orb_false_iff in H as [Hc Ht].
  unfold eqc, dollar in Hc. cbn [expand]. rewrite Hc. cbn [negb].
  now rewrite IH.
Qed.

(** * The claims *)

(** C1.  A figure with the caption [Hi] and one image that resolves:
    the rule for [\caption] of the structural phase, which runs over
    the whole text, has taken the caption out before the figure phase
    looks for it, so the rendered figure has no caption paragraph.  The
    figure phase itself would find the caption if it were still there. *)
Theorem figure_caption_is_stripped :
  strip_figure_commands captioned_figure =
    lit "\begin{figure}\includegraphics{p/a.png}\end{figure}"
  /\ main_caption (lit "\includegraphics{p/a.png}\caption{Hi {x} there}") =
    lit "Hi {x} there"
  /\ parseAndRender captioned_figure one_image =
    tpl "<figure class=`my-8`>" ++ [nl] ++ sp 8 ++
    tpl "<div class=`flex flex-wrap gap-4 justify-center`>" ++ [nl] ++ sp 10 ++
    tpl "<img src=`/assets/p/a.png` alt=`p/a.png` class=`max-w-3xl w-full h-auto rounded-lg mx-auto` loading=`lazy` />" ++
    [nl] ++ sp 8 ++ lit "</div>" ++ [nl] ++ sp 8 ++ [nl] ++ sp 6 ++
    lit "</figure>".
Proof. repeat split; vm_compute; reflexivity. Qed.

(** C2.  Inline math that holds a double quote: the markup of the
    placeholder carries the quote unescaped, so the value of its
    [data-math] attribute, which is what the math renderer is given,
    ends before the quote. *)
Theorem math_quote_cuts_payload :
  parseAndRender (tpl "$a`b$") [] =
    tpl "<p class=`mb-4 leading-relaxed text-gray-200`><span data-math=`a`b` data-display=`false`></span></p>"
  /\ data_math (parseAndRender (tpl "$a`b$") []) = Some (lit "a").
Proof. split; vm_compute; reflexivity. Qed.

(** C3.  Display math that holds two dollars: the table stores the
    math as it was written, and the restoring [replace] reads the two
    dollars of the stored markup as the pattern for one dollar. *)
Theorem restore_reads_dollar_patterns :
  extract_math (lit "\[a $$ b\]") =
    (lit "__MATH_DISPLAY_0__",
     MathState [(lit "__MATH_DISPLAY_0__", display_markup (lit "a $$ b"))] 1)
  /\ parseAndRender (lit "\[a $$ b\]") [] =
    tpl "<p class=`mb-4 leading-relaxed text-gray-200`><div class=`my-6 overflow-x-auto` data-math=`a $ b` data-display=`true`></div></p>".
Proof. split; vm_compute; reflexivity. Qed.

(** C4, as the code has it.  For every folder name, [slugify] returns
    the lower-cased name with every character removed that is no word
    character (letter, digit or underscore), white space or hyphen,
    with every run of white space turned into one hyphen and every run
    of hyphens into one, cut to 50 characters. *)
Theorem slugify_keeps_word_characters name :
  slugify name = slugify_amended name /\ length (slugify name) <= 50.
Proof.
  split; [apply slugify_refines|].
  unfold slugify. apply firstn_le_length.
Qed.

(** C4 as claimed fails on a name with an underscore: the code keeps
    it, the claim's words remove it. *)
Lemma slugify_underscore_counterexample :
  slugify (lit "a_b") = lit "a_b" /\ slugify_as_claimed (lit "a_b") = lit "ab".
Proof. split; vm_compute; reflexivity. Qed.

(** C5, as the code has it.  When the first [\title{\textbf{] of a
    document is followed by a text [T] that is not empty and holds no
    closing brace, and by two closing braces, the extracted title is
    [T] without the dollars of its dollar pairs; a document that holds
    no [\title{\textbf{] gets the literal [Untitled]. *)
Theorem extract_title_of_bold_title pre T post doc :
  indexOf (lit "\title{\textbf{")
    (pre ++ lit "\title{\textbf{" ++ T ++ lit "}}" ++ post) = Some (length pre) ->
  T <> [] ->
  forallb (neqc (ch "}")) T = true ->
  includes (lit "\title{\textbf{") doc = false ->
  extract_title (pre ++ lit "\title{\textbf{" ++ T ++ lit "}}" ++ post) =
    strip_math_delimiters false T
  /\ extract_title doc = lit "Untitled".
Proof.
  intros Hi HT Hall Hdoc. split.
  - now apply extract_title_bold.
  - now apply extract_title_fallback.
Qed.

(** The hypotheses of C5 hold for a document of the author's kind. *)
Lemma extract_title_of_bold_title_witness :
  indexOf (lit "\title{\textbf{")
    (lit "\documentclass{article}" ++ lit "\title{\textbf{" ++
     lit "Orbits of $S2$" ++ lit "}}" ++ lit "\begin{document}") =
    Some (length (lit "\documentclass{article}"))
  /\ lit "Orbits of $S2$" <> []
  /\ forallb (neqc (ch "}")) (lit "Orbits of $S2$") = true
  /\ includes (lit "\title{\textbf{") (lit "\author{A. Writer}") = false
  /\ extract_title
       (lit "\documentclass{article}" ++ lit "\title{\textbf{" ++
        lit "Orbits of $S2$" ++ lit "}}" ++ lit "\begin{document}") =
     lit "Orbits of S2"
  /\ extract_title (lit "\author{A. Writer}") = lit "Untitled".
Proof.
  assert (H1 : indexOf (lit "\title{\textbf{")
                 (lit "\documentclass{article}" ++ lit "\title{\textbf{" ++
                  lit "Orbits of $S2$" ++ lit "}}" ++ lit "\begin{document}") =
               Some (length (lit "\documentclass{article}"))) by reflexivity.
  assert (H2 : lit "Orbits of $S2$" <> []) by discriminate.
  assert (H3 : forallb (neqc (ch "}")) (lit "Orbits of $S2$") = true)
    by reflexivity.
  assert (H4 : includes (lit "\title{\textbf{") (lit "\author{A. Writer}") = false)
    by reflexivity.
  pose proof (@extract_title_of_bold_title
                (lit "\documentclass{article}") (lit "Orbits of $S2$")
                (lit "\begin{document}") (lit "\author{A. Writer}")
                H1 H2 H3 H4) as [E1 E2].
  repeat split; assumption.
Defined.

(** C5 as claimed fails on a document whose title has no bold markup:
    the title command is there, and the title is the fallback. *)
Lemma title_without_bold_counterexample :
  includes (lit "\title{") (lit "\title{Orbits}") = true
  /\ extract_title (lit "\title{Orbits}") = lit "Untitled".
Proof. split; vm_compute; reflexivity. Qed.

(** C6.  For a slug without a cover and an empty image table,
    [getPreviewImage] reaches its last line, whose template names
    [baseUrl], an identifier that the script never binds: the call
    throws, and a run over a projects root with such a project ends
    with that error instead of an index. *)
Theorem placeholder_fallback_throws :
  (forall dirname path_join,
      getPreviewImage dirname path_join [] (lit "project-4") =
      Throw (ReferenceError "baseUrl"))
  /\ ingestProjects demo_dirname demo_join demo_exists demo_readdir
       demo_isDirectory demo_readFile (lit "2026-01-01") demo_compare =
     Throw (ReferenceError "baseUrl").
Proof. split; [intros; reflexivity | vm_compute; reflexivity]. Qed.

(** C7.  A figure whose only image is half the text width: the width
    rules of the structural phase have emptied the specifier before the
    figure phase reads it, so the image gets the full class; the
    figure phase itself would give the specifier the medium class. *)
Theorem textwidth_fraction_gets_full_class :
  strip_widths half_width_figure =
    lit "\begin{figure}\includegraphics[width=]{p/a.png}\end{figure}"
  /\ sizeClass (lit "width=0.5\textwidth") = lit "max-w-md w-full"
  /\ parseAndRender half_width_figure one_image =
    tpl "<figure class=`my-8`>" ++ [nl] ++ sp 8 ++
    tpl "<div class=`flex flex-wrap gap-4 justify-center`>" ++ [nl] ++ sp 10 ++
    tpl "<img src=`/assets/p/a.png` alt=`p/a.png` class=`max-w-3xl w-full h-auto rounded-lg mx-auto` loading=`lazy` />" ++
    [nl] ++ sp 8 ++ lit "</div>" ++ [nl] ++ sp 8 ++ [nl] ++ sp 6 ++
    lit "</figure>".
Proof. repeat split; vm_compute; reflexivity. Qed.


(** C9.  A reference whose path holds no slash adds no entry to the
    image table, whatever the file system holds; and every entry of
    the table that [extractImages] returns comes from a reference with
    two path segments or more whose file was found to exist. *)
Theorem bare_filename_never_mapped
  dirname path_join existsSync images capture texContent projectDir :
  forallb (neqc (ch "/")) (trim capture) = true ->
  add_image dirname path_join existsSync images capture = images
  /\ Forall (fun kv => exists c, In c (image_captures texContent) /\
               entitles dirname path_join existsSync c kv)
       (extractImages dirname path_join existsSync texContent projectDir).
Proof.
  intros H. split.
  - now apply add_image_bare.
  - apply extractImages_entitled.
Qed.

(** The hypothesis of C9 holds for a bare file name, also when every
    file is there. *)
Lemma bare_filename_never_mapped_witness :
  forallb (neqc (ch "/")) (trim (lit " b.png ")) = true
  /\ add_image demo_dirname demo_join (fun _ => true) one_image (lit " b.png ") =
     one_image
  /\ Forall (fun kv => exists c,
               In c (image_captures (lit "\includegraphics{b.png}\includegraphics{p/a.png}")) /\
               entitles demo_dirname demo_join (fun _ => true) c kv)
       (extractImages demo_dirname demo_join (fun _ => true)
          (lit "\includegraphics{b.png}\includegraphics{p/a.png}") []).
Proof.
  assert (H : forallb (neqc (ch "/")) (trim (lit " b.png ")) = true)
    by reflexivity.
  pose proof (@bare_filename_never_mapped demo_dirname demo_join (fun _ => true)
                one_image (lit " b.png ")
                (lit "\includegraphics{b.png}\includegraphics{p/a.png}") [] H)
    as [E1 E2].
  repeat split; assumption.
Defined.

(** * Further facts *)

(** ** [escapeHtml] *)

Ltac entity_cases c :=
  unfold entity;
  destruct (N.eqb_spec c 38); [subst c|];
  [|destruct (N.eqb_spec c 60); [subst c|];
    [|destruct (N.eqb_spec c 62); [subst c|];
      [|destruct (N.eqb_spec c 34); [subst c|];
        [|destruct (N.eqb_spec c 39); [subst c|]]]]].

Lemma entity_safe c : forallb (fun x => negb (markup_char x)) (entity c) = true.
Proof.
  entity_cases c; try reflexivity.
  cbn [forallb]. unfold markup_char.
  repeat match goal with
         | H : c <> _ |- _ => apply N.eqb_neq in H; rewrite H; clear H
         end.
  reflexivity.
Qed.

Lemma entity_nonempty c : entity c <> [].
Proof. entity_cases c; discriminate. Qed.

Lemma entity_length c : 1 <= length (entity c).
Proof. entity_cases c; cbn; lia. Qed.

Lemma entity_plain c : html_special c = false -> entity c = [c].
Proof.
  unfold html_special, entity. intros H.
  repeat (apply orb_false_elim in H as [H ?]).
  repeat match goal with E : N.eqb _ _ = false |- _ => rewrite E; clear E end.
  reflexivity.
Qed.

Lemma entity_special c : html_special c = true -> 4 <= length (entity c).
Proof.
  unfold html_special. intros H. entity_cases c; cbn; lia.
Qed.

(** The entities form a prefix code: what an escaped text starts with
    tells its first character. *)
Lemma entity_prefix_code x y a b :
  entity x ++ a = entity y ++ b -> x = y /\ a = b.
Proof.
  intros H. unfold entity in H.
  destruct (N.eqb_spec x 38); [subst x|];
  [|destruct (N.eqb_spec x 60); [subst x|];
    [|destruct (N.eqb_spec x 62); [subst x|];
      [|destruct (N.eqb_spec x 34); [subst x|];
        [|destruct (N.eqb_spec x 39); [subst x|]]]]];
  (destruct (N.eqb_spec y 38); [subst y|];
   [|destruct (N.eqb_spec y 60); [subst y|];
     [|destruct (N.eqb_spec y 62); [subst y|];
       [|destruct (N.eqb_spec y 34); [subst y|];
         [|destruct (N.eqb_spec y 39); [subst y|]]]]]);
  cbn in H; inversion H; subst; try congruence; auto.
Qed.

Lemma flat_map_entity_injective a : forall b,
  flat_map entity a = flat_map entity b -> a = b.
Proof.
  induction a as [|x a IH]; intros [|y b] H; cbn [flat_map] in H.
  - reflexivity.
  - symmetry in H. apply app_eq_nil in H as [H _]. now apply entity_nonempty in H.
  - apply app_eq_nil in H as [H _]. now apply entity_nonempty in H.
  - apply entity_prefix_code in H as [-> H]. f_equal. now apply IH.
Qed.

Lemma flat_map_entity_length s :
  length (flat_map entity s) = length s -> forallb (fun c => negb (html_special c)) s = true.
Proof.
  assert (G : forall t, length t <= length (flat_map entity t)).
  { induction t as [|c t IH]; cbn [flat_map length]; [lia|].
    rewrite length_app. pose proof (entity_length c). lia. }
  induction s as [|c s IH]; [reflexivity|].
  cbn [flat_map length forallb]. rewrite length_app. intros H.
  pose proof (G s). pose proof (entity_length c).
  destruct (html_special c) eqn:E.
  - apply entity_special in E. lia.
  - cbn [negb andb]. apply IH. lia.
Qed.

(** X1.  The output of [escapeHtml] holds no less-than sign, no
    greater-than sign, no double quote and no single quote, whatever
    the text is. *)
Theorem escapeHtml_leaves_no_markup_character text :
  forallb (fun c => negb (markup_char c)) (escapeHtml text) = true.
Proof.
  rewrite escapeHtml_flat_map.
  induction text as [|c t IH]; [reflexivity|].
  cbn [flat_map]. rewrite forallb_app, entity_safe. exact IH.
Qed.

(** X2.  Two texts with the same escaped form are the same text:
    escaping loses nothing. *)
Theorem escapeHtml_injective a b : escapeHtml a = escapeHtml b -> a = b.
Proof. rewrite !escapeHtml_flat_map. apply flat_map_entity_injective. Qed.

(** The hypothesis of X2 holds for a text that is compared with
    itself. *)
Lemma escapeHtml_injective_witness :
  escapeHtml (lit "a < b & c") = escapeHtml (lit "a < b & c")
  /\ lit "a < b & c" = lit "a < b & c".
Proof.
  assert (H : escapeHtml (lit "a < b & c") = escapeHtml (lit "a < b & c"))
    by reflexivity.
  split; [exact H | exact (@escapeHtml_injective _ _ H)].
Defined.

(** X3.  Escaping goes through a text piece by piece, and the texts
    that it returns as they are, are the texts without any of the five
    characters. *)
Theorem escapeHtml_pieces a b text :
  escapeHtml (a ++ b) = escapeHtml a ++ escapeHtml b
  /\ (escapeHtml text = text <->
      forallb (fun c => negb (html_special c)) text = true).
Proof.
  rewrite !escapeHtml_flat_map. split; [apply flat_map_app|]. split.
  - intros H. apply flat_map_entity_length. now rewrite H.
  - intros H. induction text as [|c t IH]; [reflexivity|].
    cbn [forallb] in H. apply andb_prop in H as [Hc Ht].
    cbn [flat_map]. rewrite entity_plain by (now destruct (html_special c)).
    cbn [app]. f_equal. now apply IH.
Qed.

(** ** [slugify] *)

(** Facts about character classes are read as linear arithmetic. *)
Ltac as_ranges :=
  unfold slug_char, is_word, is_alnum, is_lower, is_upper, is_digit, is_space,
    in_range, hyphen in *;
  rewrite <- ?not_true_iff_false in *;
  rewrite ?negb_true_iff in *;
  rewrite <- ?not_true_iff_false in *;
  rewrite ?orb_true_iff, ?andb_true_iff, ?N.leb_le, ?N.eqb_eq in *.

Lemma is_upper_range c : is_upper c = true <-> (65 <= c <= 90)%N.
Proof. as_ranges. lia. Qed.

Lemma slug_char_range c :
  slug_char c = true <->
  ((97 <= c <= 122) \/ (48 <= c <= 57) \/ c = 95 \/ c = 45)%N.
Proof. as_ranges. lia. Qed.

Lemma is_space_range c : is_space c = true -> (c <= 32 \/ 160 <= c)%N.
Proof. as_ranges. lia. Qed.

Lemma is_word_range c :
  is_word c = true <->
  ((97 <= c <= 122) \/ (65 <= c <= 90) \/ (48 <= c <= 57) \/ c = 95)%N.
Proof. as_ranges. lia. Qed.

Lemma lower_char_no_upper c :
  forallb (fun x => negb (is_upper x)) (lower_char c) = true.
Proof.
  unfold lower_char.
  destruct (is_upper c) eqn:U.
  - cbn [forallb]. rewrite andb_true_r. apply is_upper_range in U.
    apply negb_true_iff, not_true_iff_false. rewrite is_upper_range. lia.
  - destruct (N.eqb c 304); [reflexivity|].
    destruct (N.eqb c 8490); [reflexivity|].
    cbn [forallb]. now rewrite U.
Qed.

Lemma toLowerCase_no_upper s :
  forallb (fun x => negb (is_upper x)) (toLowerCase s) = true.
Proof.
  unfold toLowerCase. induction s as [|c t IH]; [reflexivity|].
  cbn [flat_map]. now rewrite forallb_app, lower_char_no_upper.
Qed.

Lemma forallb_filter_both (p q : char -> bool) s :
  forallb q s = true -> forallb (fun c => p c && q c) (filter p s) = true.
Proof.
  induction s as [|c t IH]; [reflexivity|]. cbn [forallb filter].
  intros H. apply andb_prop in H as [Hc Ht].
  destruct (p c) eqn:E; [|now apply IH].
  cbn [forallb]. now rewrite E, Hc, IH.
Qed.

Lemma forallb_squeeze (p q r : char -> bool) rep s : forall b,
  r rep = true ->
  (forall c, q c = true -> p c = false -> r c = true) ->
  forallb q s = true -> forallb r (squeeze p rep b s) = true.
Proof.
  induction s as [|c t IH]; intros b Hrep Hqr H; [reflexivity|].
  cbn [forallb squeeze] in *. apply andb_prop in H as [Hc Ht].
  destruct (p c) eqn:E.
  - destruct b; cbn [forallb]; rewrite ?Hrep; now apply IH.
  - cbn [forallb]. rewrite (Hqr c Hc E). now apply IH.
Qed.

Lemma forallb_firstn (q : char -> bool) n : forall s,
  forallb q s = true -> forallb q (firstn n s) = true.
Proof.
  induction n as [|n IH]; intros [|c t] H; try reflexivity.
  cbn [firstn forallb] in *. apply andb_prop in H as [Hc Ht].
  now rewrite Hc, IH.
Qed.

Lemma single_hyphens_squeeze s : forall b,
  single_hyphens b (squeeze (eqc hyphen) hyphen b s) = true.
Proof.
  induction s as [|c t IH]; intros b; [reflexivity|].
  cbn [squeeze]. unfold eqc at 1.
  destruct (N.eqb c hyphen) eqn:E.
  - destruct b; [apply IH|].
    cbn [single_hyphens]. rewrite N.eqb_refl. apply IH.
  - cbn [single_hyphens]. rewrite E. apply IH.
Qed.

Lemma single_hyphens_firstn n : forall s b,
  single_hyphens b s = true -> single_hyphens b (firstn n s) = true.
Proof.
  induction n as [|n IH]; intros [|c t] b H; try reflexivity.
  cbn [firstn single_hyphens] in *.
  destruct (N.eqb c hyphen).
  - apply andb_prop in H as [Hb Ht]. now rewrite Hb, IH.
  - now apply IH.
Qed.

Lemma single_hyphens_includes s : forall b,
  single_hyphens b s = true -> includes (lit "--") s = false.
Proof.
  change (lit "--") with [hyphen; hyphen].
  induction s as [|c t IH]; intros b H; [reflexivity|].
  cbn [includes]. rewrite orb_false_iff. split.
  - unfold starts_with. cbn [strip_prefix].
    cbn [single_hyphens] in H. rewrite (N.eqb_sym hyphen c).
    destruct (N.eqb c hyphen); [|reflexivity].
    apply andb_prop in H as [_ H].
    destruct t as [|d t]; [reflexivity|].
    cbn [single_hyphens] in H. rewrite (N.eqb_sym hyphen d).
    destruct (N.eqb d hyphen); [discriminate H | reflexivity].
  - cbn [single_hyphens] in H.
    destruct (N.eqb c hyphen); [apply andb_prop in H as [_ H]|]; eapply IH; eassumption.
Qed.

Lemma slug_chars name :
  forallb slug_char (slugify name) = true
  /\ single_hyphens false (slugify name) = true.
Proof.
  rewrite slugify_refines. unfold slugify_amended, slug_of. split.
  - apply forallb_firstn.
    apply forallb_squeeze with (q := slug_char); [reflexivity | auto |].
    apply forallb_squeeze
      with (q := fun c => (is_word c || is_space c || N.eqb c hyphen)
                          && negb (is_upper c)); [reflexivity | |].
    + intros c Hc Hs. rewrite Hs, orb_false_r in Hc.
      apply andb_prop in Hc as [Hc Hu].
      apply negb_true_iff, not_true_iff_false in Hu.
      rewrite is_upper_range in Hu.
      apply orb_prop in Hc. rewrite is_word_range, N.eqb_eq in Hc.
      apply slug_char_range. unfold hyphen in Hc. lia.
    + apply forallb_filter_both. apply toLowerCase_no_upper.
  - apply single_hyphens_firstn. apply single_hyphens_squeeze.
Qed.

Lemma lower_char_slug c : slug_char c = true -> lower_char c = [c].
Proof.
  intros H. apply slug_char_range in H. unfold lower_char.
  replace (is_upper c) with false
    by (symmetry; apply not_true_iff_false; rewrite is_upper_range; lia).
  replace (N.eqb c 304) with false by (symmetry; apply N.eqb_neq; lia).
  replace (N.eqb c 8490) with false by (symmetry; apply N.eqb_neq; lia).
  reflexivity.
Qed.

Lemma squeeze_none (p : char -> bool) rep s : forall b,
  forallb (fun c => negb (p c)) s = true -> squeeze p rep b s = s.
Proof.
  induction s as [|c t IH]; intros b H; [reflexivity|].
  cbn [forallb squeeze] in *. apply andb_prop in H as [Hc Ht].
  destruct (p c); [discriminate|]. f_equal. now apply IH.
Qed.

Lemma squeeze_single_hyphens s : forall b,
  single_hyphens b s = true -> squeeze (eqc hyphen) hyphen b s = s.
Proof.
  induction s as [|c t IH]; intros b H; [reflexivity|].
  cbn [squeeze single_hyphens] in *. unfold eqc at 1.
  destruct (N.eqb c hyphen) eqn:E.
  - apply andb_prop in H as [Hb Ht]. destruct b; [discriminate|].
    apply N.eqb_eq in E. subst c. f_equal. now apply IH.
  - f_equal. now apply IH.
Qed.

Lemma slug_fixed s :
  forallb slug_char s = true -> single_hyphens false s = true ->
  length s <= 50 -> slugify s = s.
Proof.
  intros Hc Hh Hl. rewrite slugify_refines. unfold slugify_amended, slug_of.
  assert (E1 : toLowerCase s = s).
  { unfold toLowerCase. clear Hh Hl. induction s as [|c t IH]; [reflexivity|].
    cbn [forallb flat_map] in *. apply andb_prop in Hc as [Hc Ht].
    rewrite (lower_char_slug c Hc). cbn [app]. f_equal. now apply IH. }
  rewrite E1.
  assert (E2 : filter (fun c => is_word c || is_space c || N.eqb c hyphen) s = s).
  { clear Hh Hl E1. induction s as [|c t IH]; [reflexivity|].
    cbn [forallb filter] in *. apply andb_prop in Hc as [Hc Ht].
    replace (is_word c || is_space c || N.eqb c hyphen) with true.
    2:{ symmetry. apply slug_char_range in Hc.
        destruct (is_word c) eqn:W; [reflexivity|].
        apply not_true_iff_false in W. rewrite is_word_range in W.
        replace (N.eqb c hyphen) with true; [apply orb_true_r|].
        symmetry. apply N.eqb_eq. unfold hyphen. lia. }
    f_equal. now apply IH. }
  rewrite E2.
  rewrite squeeze_none with (p := is_space).
  - rewrite squeeze_single_hyphens by exact Hh. now apply firstn_all2.
  - clear Hh Hl E1 E2. induction s as [|c t IH]; [reflexivity|].
    cbn [forallb] in *. apply andb_prop in Hc as [Hc Ht].
    rewrite IH by exact Ht. rewrite andb_true_r.
    apply negb_true_iff, not_true_iff_false. intros S.
    apply is_space_range in S. apply slug_char_range in Hc. lia.
Qed.

(** X4.  Every character of a slug is a lower-case ASCII letter, a
    digit, an underscore or a hyphen (so a slug holds no white space
    and no upper-case letter), and no two hyphens of a slug stand side
    by side. *)
Theorem slugify_alphabet name :
  forallb slug_char (slugify name) = true
  /\ includes (lit "--") (slugify name) = false.
Proof.
  destruct (slug_chars name) as [H1 H2]. split; [exact H1|].
  now apply single_hyphens_includes with (b := false).
Qed.

(** X5.  The slug of a slug is the slug itself. *)
Theorem slugify_idempotent name : slugify (slugify name) = slugify name.
Proof.
  destruct (slug_chars name) as [H1 H2].
  apply slug_fixed; [exact H1 | exact H2 |].
  unfold slugify. apply firstn_le_length.
Qed.

(** ** Lazy scans up to a closing word *)

(** A lazy run of any character hands over at the first position where
    the continuation succeeds. *)
Lemma lazy_any_first (step : cont -> cont) (k : cont) r :
  (forall k' st, step k' st = m Any k' st) ->
  forall x y b cs fuel,
    length x < fuel ->
    (forall x1 c x2, x = x1 ++ c :: x2 ->
       k (MState (rev x1 ++ b) (c :: x2 ++ y) cs) = None) ->
    k (MState (rev x ++ b) y cs) = Some r ->
    star_loop step false k fuel (MState b (x ++ y) cs) = Some r.
Proof.
  intros Hstep. induction x as [|c x IH]; intros y b cs fuel Hf Hno Hk.
  - destruct fuel as [|f]; [simpl in Hf; lia|].
    cbn [star_loop app rev] in *. now rewrite Hk.
  - destruct fuel as [|f]; [simpl in Hf; lia|].
    cbn [star_loop app].
    pose proof (Hno [] c x eq_refl) as H0. cbn [rev app] in H0. rewrite H0.
    rewrite Hstep. unfold Any. rewrite m_Chr.
    unfold progressed. cbn [after length].
    replace (Nat.ltb _ _) with true by (symmetry; apply Nat.ltb_lt; lia).
    apply IH.
    + simpl in Hf. lia.
    + intros x1 d x2 E. specialize (Hno (c :: x1) d x2).
      cbn [rev app] in Hno. rewrite <- app_assoc in Hno. apply Hno.
      now rewrite E.
    + cbn [rev] in Hk. now rewrite <- app_assoc in Hk.
Qed.

(** A lazy run of any character fails when the continuation fails at
    every position ahead. *)
Lemma lazy_any_never (step : cont -> cont) (k : cont) :
  (forall k' st, step k' st = m Any k' st) ->
  forall a b cs fuel,
    (forall x1 x2 b' cs', a = x1 ++ x2 -> k (MState b' x2 cs') = None) ->
    star_loop step false k fuel (MState b a cs) = None.
Proof.
  intros Hstep a b cs fuel. revert a b cs.
  induction fuel as [|f IH]; intros a b cs Hno; cbn [star_loop].
  - apply (Hno [] a); reflexivity.
  - rewrite (Hno [] a b cs eq_refl). rewrite Hstep. unfold Any.
    destruct a as [|c t]; [apply m_Chr_nil|]. rewrite m_Chr.
    destruct (progressed _ _); [|reflexivity].
    apply IH. intros x1 x2 b' cs' E. apply (Hno (c :: x1) x2). now rewrite E.
Qed.

Lemma indexOf_first w : forall a s,
  indexOf w (a ++ s) = Some (length a) ->
  forall a1 c a2, a = a1 ++ c :: a2 -> starts_with w (c :: a2 ++ s) = false.
Proof.
  induction a as [|x a IH]; intros s H a1 c a2 E.
  - destruct a1; discriminate.
  - cbn [app indexOf length] in H.
    destruct (starts_with w (x :: a ++ s)) eqn:S0; [discriminate|].
    destruct (indexOf w (a ++ s)) as [i|] eqn:Ei; [|discriminate].
    cbn [option_map] in H. assert (i = length a) by congruence. subst i.
    destruct a1 as [|y a1]; cbn [app] in E; inversion E; subst.
    + exact S0.
    + now apply (IH s Ei a1 c a2).
Qed.

Lemma includes_split w : forall a s,
  includes w (a ++ s) = false -> starts_with w s = false.
Proof.
  intros a s H. apply includes_starts. now apply includes_suffix in H.
Qed.

(** The pattern [w1 (any text, lazily) w2] with the text captured, on
    a subject that starts with [w1]: the capture ends at the first
    [w2]. *)
Lemma match_at_bracket w1 w2 n pre body post :
  indexOf w2 (body ++ w2 ++ post) = Some (length body) ->
  match_at (Lit_of w1 ;; Group n (Star false Any) ;; Lit_of w2) pre
    (w1 ++ body ++ w2 ++ post) =
  Some (RMatch pre (w1 ++ body ++ w2) post [(n, body)]).
Proof.
  intros Hi. unfold match_at.
  rewrite m_Seq, m_Lit_of, strip_prefix_app, m_Seq, m_Group, m_Star.
  cbn [after before caps].
  rewrite lazy_any_first
    with (r := MState (rev w2 ++ rev body ++ rev w1 ++ pre) post [(n, body)]).
  - cbn [after caps]. f_equal. f_equal.
    replace (w1 ++ body ++ w2 ++ post) with ((w1 ++ body ++ w2) ++ post)
      by (now rewrite <- !app_assoc).
    apply firstn_length_app.
  - reflexivity.
  - rewrite length_app. lia.
  - intros x1 c x2 E. cbn [before after caps].
    rewrite m_Lit_of.
    pose proof (@indexOf_first _ _ _ Hi x1 c x2 E) as S0.
    unfold starts_with in S0.
    now destruct (strip_prefix w2 (c :: x2 ++ w2 ++ post)).
  - cbn [before after caps]. rewrite m_Lit_of, strip_prefix_app.
    unfold passed. cbn [before]. now rewrite firstn_rev_app.
Qed.

(** The same pattern finds nothing in a subject without [w2]. *)
Lemma bracket_silent w1 w2 n pre s :
  includes w2 s = false ->
  silent (Lit_of w1 ;; Group n (Star false Any) ;; Lit_of w2) pre s.
Proof.
  intros H a b E. subst s. unfold match_at.
  rewrite m_Seq, m_Lit_of.
  destruct (strip_prefix w1 b) as [t|] eqn:Et; [|reflexivity].
  apply strip_prefix_Some in Et. subst b.
  rewrite m_Seq, m_Group, m_Star.
  rewrite lazy_any_never; [reflexivity | reflexivity |].
  intros x1 x2 b' cs' E. cbn [before after caps]. rewrite m_Lit_of.
  assert (S0 : starts_with w2 x2 = false).
  { apply includes_split with (a := a ++ w1 ++ x1).
    rewrite <- !app_assoc. now rewrite <- E. }
  unfold starts_with in S0. now destruct (strip_prefix w2 x2).
Qed.

(** ** [extractTeXMetadata]: the content *)

Lemma extract_content_body pre body post :
  indexOf (lit "\begin{document}")
    (pre ++ lit "\begin{document}" ++ body ++ lit "\end{document}" ++ post) =
    Some (length pre) ->
  indexOf (lit "\end{document}") (body ++ lit "\end{document}" ++ post) =
    Some (length body) ->
  extract_content
    (pre ++ lit "\begin{document}" ++ body ++ lit "\end{document}" ++ post) =
  trim body.
Proof.
  intros H1 H2. unfold extract_content, re_match, re_document_body, L.
  rewrite search_first by exact H1.
  destruct (lit "\begin{document}" ++ body ++ lit "\end{document}" ++ post)
    eqn:E; [discriminate|].
  cbn [search]. rewrite <- E. rewrite match_at_bracket by exact H2.
  reflexivity.
Qed.

Lemma extract_content_whole doc :
  includes (lit "\begin{document}") doc = false
  \/ includes (lit "\end{document}") doc = false ->
  extract_content doc = doc.
Proof.
  intros H. unfold extract_content, re_document_body, L.
  rewrite re_match_silent; [reflexivity|].
  destruct H as [H|H].
  - now apply opens_silent with (w := lit "\begin{document}");
      [apply opens_with_seq|].
  - now apply bracket_silent.
Qed.

(** ** [extractTeXMetadata]: the summary *)

Lemma trim_length s : length (trim s) <= length s.
Proof.
  unfold trim. rewrite length_rev.
  pose proof (drop_while_length is_space (rev (drop_while is_space s))).
  pose proof (drop_while_length is_space s). rewrite length_rev in *. lia.
Qed.

Lemma forallb_trim (q : char -> bool) s :
  forallb q s = true -> forallb q (trim s) = true.
Proof.
  destruct (trim_infix s) as [a [b E]]. intros H. rewrite E in H.
  rewrite !forallb_app in H. apply andb_prop in H as [_ H].
  now apply andb_prop in H as [H _].
Qed.

Lemma forallb_rev (q : char -> bool) l : forallb q (rev l) = forallb q l.
Proof.
  induction l as [|c l IH]; [reflexivity|].
  cbn [rev forallb]. rewrite forallb_app, IH. cbn [forallb].
  now rewrite andb_true_r, andb_comm.
Qed.

Lemma split_char_pieces sep : forall s cur,
  forallb (neqc sep) cur = true ->
  Forall (fun p => forallb (neqc sep) p = true) (split_char_loop sep cur s).
Proof.
  induction s as [|c t IH]; intros cur H; cbn [split_char_loop].
  - constructor; [|constructor]. now rewrite forallb_rev.
  - destruct (N.eqb c sep) eqn:E.
    + constructor; [now rewrite forallb_rev | now apply IH].
    + apply IH. cbn [forallb]. unfold neqc at 1. now rewrite E, H.
Qed.

Lemma forallb_join_with (q : char -> bool) sep l :
  forallb q sep = true -> Forall (fun p => forallb q p = true) l ->
  forallb q (join_with sep l) = true.
Proof.
  intros Hs H. induction H as [|x l Hx Hl IH]; [reflexivity|].
  cbn [join_with]. destruct l as [|y l]; [exact Hx|].
  now rewrite !forallb_app, Hx, Hs, IH.
Qed.

Lemma Forall_filter (A : Type) (P : A -> Prop) f (l : list A) :
  Forall P l -> Forall P (filter f l).
Proof.
  induction 1 as [|x l Hx Hl IH]; cbn [filter]; [constructor|].
  destruct (f x); [now constructor | exact IH].
Qed.

Lemma Forall_map_trim (q : char -> bool) l :
  Forall (fun p => forallb q p = true) l ->
  Forall (fun p => forallb q p = true) (map trim l).
Proof.
  induction 1 as [|x l Hx Hl IH]; cbn [map]; constructor;
    [now apply forallb_trim | exact IH].
Qed.

Lemma trim_trim s : trim (trim s) = trim s.
Proof.
  destruct (trim s) as [|c t] eqn:E; [reflexivity|]. rewrite <- E.
  assert (N0 : trim s <> []) by (rewrite E; discriminate).
  destruct (@trim_ends s N0) as [H1 H2]. now apply trim_fixed.
Qed.

(** X8.  The summary of a document has at most 300 characters, holds
    no line feed, and neither starts nor ends with white space. *)
Theorem summary_is_one_short_line texContent :
  let s := summary (extractTeXMetadata texContent) in
  length s <= 300 /\ existsb (eqc nl) s = false /\ trim s = s.
Proof.
  intros s. subst s. cbn [summary extractTeXMetadata]. unfold extract_summary.
  destruct (re_match re_overview texContent) as [mt|];
    [|split; [cbn; lia | split; reflexivity]].
  set (x := re_replace re_linebreak _ _).
  split; [|split].
  - etransitivity; [apply trim_length|]. apply firstn_le_length.
  - assert (H : forallb (neqc nl)
                  (trim (firstn 300 (join_with (lit " ")
                     (filter (fun line => negb (Nat.eqb (length line) 0))
                        (map trim (split_char nl x)))))) = true).
    { apply forallb_trim, forallb_firstn, forallb_join_with; [reflexivity|].
      apply Forall_filter, Forall_map_trim.
      now apply split_char_pieces. }
    revert H. generalize (trim (firstn 300 (join_with (lit " ")
                     (filter (fun line => negb (Nat.eqb (length line) 0))
                        (map trim (split_char nl x)))))).
    intros l. induction l as [|c l IH]; [reflexivity|].
    cbn [forallb existsb]. unfold neqc at 1, eqc at 1. intros H.
    apply andb_prop in H as [Hc Hl]. apply negb_true_iff in Hc.
    now rewrite Hc, IH.
  - apply trim_trim.
Qed.

(** X9.  A file that holds no backslash has the title [Untitled], an
    empty summary, and its whole text, as it is, for content. *)
Theorem metadata_of_plain_text texContent :
  includes (lit "\") texContent = false ->
  extractTeXMetadata texContent = Metadata (lit "Untitled") [] texContent.
Proof.
  intros H. unfold extractTeXMetadata.
  assert (Hb : forall w, includes (lit "\" ++ w) texContent = false).
  { intros w. destruct (includes (lit "\" ++ w) texContent) eqn:E; [|reflexivity].
    exfalso. clear - H E. induction texContent as [|c t IH]; [discriminate|].
    cbn [includes] in *. apply orb_false_iff in H as [H1 H2].
    apply orb_prop in E as [E|E]; [|now apply IH].
    apply starts_with_app in E. congruence. }
  f_equal.
  - apply extract_title_fallback. exact (Hb (lit "title{\textbf{")).
  - unfold extract_summary, re_overview, L.
    rewrite re_match_silent; [reflexivity|].
    now apply opens_silent with (w := lit "\"); [apply opens_with_seq|].
  - apply extract_content_whole. left. exact (Hb (lit "begin{document}")).
Qed.

(** The hypothesis of X9 holds for a line of prose. *)
Lemma metadata_of_plain_text_witness :
  includes (lit "\") (lit " Notes on orbits ") = false
  /\ extractTeXMetadata (lit " Notes on orbits ") =
     Metadata (lit "Untitled") [] (lit " Notes on orbits ").
Proof.
  assert (H : includes (lit "\") (lit " Notes on orbits ") = false)
    by reflexivity.
  split; [exact H | exact (@metadata_of_plain_text _ H)].
Defined.

(** X6.  When the first [\begin{document}] of a file is followed by a
    body and the first [\end{document}] behind it, the content is the
    body without the white space at its two ends. *)
Theorem content_is_the_document_body pre body post :
  indexOf (lit "\begin{document}")
    (pre ++ lit "\begin{document}" ++ body ++ lit "\end{document}" ++ post) =
    Some (length pre) ->
  indexOf (lit "\end{document}") (body ++ lit "\end{document}" ++ post) =
    Some (length body) ->
  content (extractTeXMetadata
    (pre ++ lit "\begin{document}" ++ body ++ lit "\end{document}" ++ post)) =
  trim body.
Proof. intros H1 H2. cbn [content extractTeXMetadata]. now apply extract_content_body. Qed.

(** The hypotheses of X6 hold for a small document. *)
Lemma content_is_the_document_body_witness :
  indexOf (lit "\begin{document}")
    (lit "\title{\textbf{Orbits}}" ++ lit "\begin{document}" ++
     ([nl] ++ lit "Hello " ++ [nl]) ++ lit "\end{document}" ++ [nl]) =
    Some (length (lit "\title{\textbf{Orbits}}"))
  /\ indexOf (lit "\end{document}")
       (([nl] ++ lit "Hello " ++ [nl]) ++ lit "\end{document}" ++ [nl]) =
     Some (length ([nl] ++ lit "Hello " ++ [nl]))
  /\ content (extractTeXMetadata
       (lit "\title{\textbf{Orbits}}" ++ lit "\begin{document}" ++
        ([nl] ++ lit "Hello " ++ [nl]) ++ lit "\end{document}" ++ [nl])) =
     lit "Hello".
Proof.
  assert (H1 : indexOf (lit "\begin{document}")
    (lit "\title{\textbf{Orbits}}" ++ lit "\begin{document}" ++
     ([nl] ++ lit "Hello " ++ [nl]) ++ lit "\end{document}" ++ [nl]) =
    Some (length (lit "\title{\textbf{Orbits}}"))) by reflexivity.
  assert (H2 : indexOf (lit "\end{document}")
       (([nl] ++ lit "Hello " ++ [nl]) ++ lit "\end{document}" ++ [nl]) =
     Some (length ([nl] ++ lit "Hello " ++ [nl]))) by reflexivity.
  split; [exact H1|]. split; [exact H2|].
  exact (@content_is_the_document_body _ _ _ H1 H2).
Defined.

(** X7.  A file that lacks [\begin{document}] or [\end{document}] is
    its own content, white space at its ends included. *)
Theorem content_of_unmarked_file texContent :
  includes (lit "\begin{document}") texContent = false
  \/ includes (lit "\end{document}") texContent = false ->
  content (extractTeXMetadata texContent) = texContent.
Proof. intros H. cbn [content extractTeXMetadata]. now apply extract_content_whole. Qed.

(** The hypothesis of X7 holds for a document that is never closed. *)
Lemma content_of_unmarked_file_witness :
  (includes (lit "\begin{document}") (lit " \begin{document} Hello ") = false
   \/ includes (lit "\end{document}") (lit " \begin{document} Hello ") = false)
  /\ content (extractTeXMetadata (lit " \begin{document} Hello ")) =
     lit " \begin{document} Hello ".
Proof.
  assert (H : includes (lit "\begin{document}") (lit " \begin{document} Hello ") = false
   \/ includes (lit "\end{document}") (lit " \begin{document} Hello ") = false)
    by (right; reflexivity).
  split; [exact H | exact (@content_of_unmarked_file _ H)].
Defined.

(** ** Tables: keys are set once *)

Lemma str_eqb_refl a : str_eqb a a = true.
Proof. now apply str_eqb_eq. Qed.

Lemma str_eqb_neq a b : a <> b -> str_eqb a b = false.
Proof.
  intros H. destruct (str_eqb a b) eqn:E; [|reflexivity].
  apply str_eqb_eq in E. contradiction.
Qed.

Lemma obj_set_keys k v o :
  forall x, In x (map fst (obj_set k v o)) -> x = k \/ In x (map fst o).
Proof.
  induction o as [|[k0 v0] o IH]; intros x H; cbn [obj_set map fst In] in *.
  - destruct H as [H|[]]; auto.
  - destruct (str_eqb k0 k); cbn [map fst In] in H.
    + destruct H; auto.
    + destruct H as [H|H]; [auto|]. destruct (IH x H); auto.
Qed.

Lemma obj_set_NoDup k v o :
  NoDup (map fst o) -> NoDup (map fst (obj_set k v o)).
Proof.
  induction o as [|[k0 v0] o IH]; intros H; cbn [obj_set map fst].
  - constructor; [intros [] | constructor].
  - inversion H as [|? ? Hn Hd]; subst.
    destruct (str_eqb k0 k) eqn:E; cbn [map fst].
    + now constructor.
    + constructor; [|now apply IH].
      intros Hin. apply obj_set_keys in Hin as [Hin|Hin]; [|contradiction].
      subst k0. now rewrite str_eqb_refl in E.
Qed.

Lemma obj_set_new k v o : ~ In k (map fst o) -> obj_set k v o = o ++ [(k, v)].
Proof.
  induction o as [|[k0 v0] o IH]; intros H; cbn [obj_set app]; [reflexivity|].
  cbn [map fst In] in H.
  rewrite str_eqb_neq by tauto. f_equal. apply IH. tauto.
Qed.

Lemma fold_obj_set_fresh (g : str * str -> str) : forall l acc,
  NoDup (map fst acc ++ map fst l) ->
  fold_left (fun a kv => obj_set (fst kv) (g kv) a) l acc =
  acc ++ map (fun kv => (fst kv, g kv)) l.
Proof.
  induction l as [|[k v] l IH]; intros acc H; cbn [fold_left map].
  - now rewrite app_nil_r.
  - cbn [map fst] in H.
    assert (Hk : ~ In k (map fst acc)).
    { apply NoDup_remove_2 in H. intros Hin. apply H. apply in_or_app. now left. }
    cbn [fst]. rewrite obj_set_new by exact Hk.
    rewrite IH.
    + now rewrite <- app_assoc.
    + rewrite map_app. cbn [map fst]. rewrite <- app_assoc. exact H.
Qed.

Section TableFacts.

Variable dirname : str.
Variable path_join : list str -> str.
Variable existsSync : str -> bool.

Lemma add_image_NoDup images capture :
  NoDup (map fst images) ->
  NoDup (map fst (add_image dirname path_join existsSync images capture)).
Proof.
  intros H. unfold add_image.
  destruct (Nat.leb 2 _); [|exact H].
  destruct (existsSync _); [|exact H]. now apply obj_set_NoDup.
Qed.

Lemma extractImages_NoDup texContent projectDir :
  NoDup (map fst (extractImages dirname path_join existsSync texContent projectDir)).
Proof.
  unfold extractImages.
  assert (G : forall l acc, NoDup (map fst acc) ->
            NoDup (map fst (fold_left (add_image dirname path_join existsSync) l acc))).
  { induction l as [|c l IH]; intros acc H; [exact H|].
    cbn [fold_left]. apply IH. now apply add_image_NoDup. }
  apply G. constructor.
Qed.

End TableFacts.

(** ** The table that the component hands on *)

Lemma strip_leading_slash v :
  re_replace_first (Start ;; L "/") [] v =
  match v with
  | c :: t => if N.eqb c 47 then t else c :: t
  | [] => []
  end.
Proof.
  unfold re_replace_first, re_match.
  destruct v as [|c t]; [reflexivity|].
  cbn [search]. unfold match_at at 1. rewrite m_Seq, m_Start. unfold L.
  rewrite m_Lit_of. change (lit "/") with [47%N]. cbn [strip_prefix].
  rewrite (N.eqb_sym 47 c).
  destruct (N.eqb c 47) eqn:E.
  - apply N.eqb_eq in E. subst c. reflexivity.
  - change (Start;; Lit_of [47%N]) with (Start ;; Lit_of [47%N]).
    now rewrite search_start_later.
Qed.

Lemma fold_left_pointwise (A B : Type) (f g : A -> B -> A) :
  (forall a b, f a b = g a b) ->
  forall l a, fold_left f l a = fold_left g l a.
Proof.
  intros H. induction l as [|b l IH]; intros a; [reflexivity|].
  cbn [fold_left]. now rewrite H, IH.
Qed.

Lemma processedImages_map basePath images :
  NoDup (map fst images) ->
  processedImages basePath images = map (behind_base basePath) images.
Proof.
  intros H. unfold processedImages.
  rewrite fold_left_pointwise with
    (g := fun a kv => obj_set (fst kv) (snd (behind_base basePath kv)) a).
  - rewrite fold_obj_set_fresh by exact H. cbn [app].
    apply map_ext. now intros [k v].
  - intros a kv. unfold behind_base. cbn [snd]. now rewrite strip_leading_slash.
Qed.

(** X10.  The table of [extractImages] lists no file name twice.  The
    component hands it on with the same keys in the same order, every
    value behind the base path without its leading slash; under the
    base path [/] the table is handed on as it is. *)
Theorem table_behind_base_path
  dirname path_join existsSync texContent projectDir basePath :
  let images := extractImages dirname path_join existsSync texContent projectDir in
  NoDup (map fst images)
  /\ processedImages basePath images = map (behind_base basePath) images
  /\ processedImages (lit "/") images = images.
Proof.
  intros images.
  assert (H : NoDup (map fst images)) by apply extractImages_NoDup.
  split; [exact H|]. split; [now apply processedImages_map|].
  rewrite processedImages_map by exact H.
  pose proof (extractImages_entitled dirname path_join existsSync
                texContent projectDir) as E.
  fold images in E. clear H. induction E as [|kv l Hkv Hl IH]; [reflexivity|].
  cbn [map]. rewrite IH. f_equal.
  destruct Hkv as [c [_ [_ [_ [_ Hv]]]]]. destruct kv as [k v].
  cbn [fst snd] in Hv. subst v. reflexivity.
Qed.

(** ** The look-up of the figure pass *)

Lemma replace_plus_class_delete (a : regex) p (f : rmatch -> str) :
  (forall k' st, m a k' st = m (Chr p) k' st) ->
  (forall mt, f mt = []) ->
  forall n s pre, length s <= n ->
    replace_loop (Plus true a) f 0 pre s = filter (fun c => negb (p c)) s.
Proof.
  intros Ha Hf. induction n as [|n IH]; intros s pre Hn.
  - destruct s; [|simpl in Hn; lia].
    cbn [replace_loop]. now rewrite (@match_at_plus_class a p _ _ Ha).
  - destruct s as [|c t].
    + cbn [replace_loop]. now rewrite (@match_at_plus_class a p _ _ Ha).
    + simpl in Hn. cbn [replace_loop].
      rewrite (@match_at_plus_class a p _ _ Ha).
      cbn [filter]. destruct (p c) eqn:E; cbn [negb].
      * cbn [m_text length]. rewrite Hf. cbn [app].
        rewrite replace_loop_skip by apply take_while_length.
        rewrite skipn_take_while.
        rewrite IH by (pose proof (drop_while_length p t); lia).
        clear. induction t as [|d t IH]; [reflexivity|].
        cbn [drop_while filter]. destruct (p d) eqn:E; [exact IH|].
        cbn [filter negb]. now rewrite E.
      * now rewrite IH by lia.
Qed.

Lemma remove_spaces s :
  re_replace (Plus true Ws) [] s = filter (fun c => negb (is_space c)) s.
Proof.
  unfold re_replace, re_replace_fn.
  apply replace_plus_class_delete with (n := length s); auto.
Qed.

Lemma split_char_loop_nonempty sep s : forall cur, split_char_loop sep cur s <> [].
Proof.
  induction s as [|c t IH]; intros cur; cbn [split_char_loop]; [discriminate|].
  destruct (N.eqb c sep); [discriminate | apply IH].
Qed.

Lemma last_cons_nonempty (A : Type) (x : A) l d : l <> [] -> last (x :: l) d = last l d.
Proof. destruct l; [congruence | reflexivity]. Qed.

Lemma split_char_last_app sep k : forallb (neqc sep) k = true ->
  forall a cur, last (split_char_loop sep cur (a ++ sep :: k)) [] = k.
Proof.
  intros Hk. induction a as [|x a IH]; intros cur; cbn [app split_char_loop].
  - rewrite N.eqb_refl. rewrite split_char_no_sep by exact Hk. reflexivity.
  - destruct (N.eqb x sep); [|apply IH].
    rewrite last_cons_nonempty by apply split_char_loop_nonempty. apply IH.
Qed.

Lemma split_char_two sep : forall s cur,
  2 <= length (split_char_loop sep cur s) ->
  exists a k, s = a ++ sep :: k /\ forallb (neqc sep) k = true
              /\ last (split_char_loop sep cur s) [] = k.
Proof.
  induction s as [|c t IH]; intros cur H; cbn [split_char_loop] in *.
  - simpl in H. lia.
  - destruct (N.eqb c sep) eqn:E.
    + apply N.eqb_eq in E. subst c.
      destruct (forallb (neqc sep) t) eqn:Ft.
      * exists [], t. rewrite split_char_no_sep by exact Ft. auto.
      * assert (L2 : 2 <= length (split_char_loop sep [] t)).
        { destruct (split_char_loop sep [] t) as [|p [|q l]] eqn:Es.
          - now apply split_char_loop_nonempty in Es.
          - exfalso. clear - Es Ft.
            assert (G : forall s cur, length (split_char_loop sep cur s) = 1 ->
                                      forallb (neqc sep) s = true).
            { induction s as [|c s IH]; intros cur H; [reflexivity|].
              cbn [split_char_loop forallb] in *. unfold neqc at 1.
              destruct (N.eqb c sep).
              - cbn [length] in H.
                pose proof (@split_char_loop_nonempty sep s []) as N0.
                destruct (split_char_loop sep [] s); [congruence | simpl in H; lia].
              - cbn [negb andb]. now apply IH with (cur := c :: cur). }
            rewrite (G t []) in Ft; [discriminate | now rewrite Es].
          - simpl. lia. }
        destruct (IH [] L2) as [a [k [Et [Hk Hl]]]].
        exists (sep :: a), k. subst t. repeat split; auto.
        rewrite last_cons_nonempty by apply split_char_loop_nonempty. exact Hl.
    + destruct (IH (c :: cur) H) as [a [k [Et [Hk Hl]]]].
      exists (c :: a), k. subst t. auto.
Qed.

Lemma trim_decompose s :
  exists a b, s = a ++ trim s ++ b
              /\ forallb is_space a = true /\ forallb is_space b = true.
Proof.
  unfold trim. set (q := drop_while is_space s).
  exists (take_while is_space s), (rev (take_while is_space (rev q))).
  split; [|split].
  - rewrite <- rev_app_distr, take_drop_while, rev_involutive.
    symmetry. apply take_drop_while.
  - apply take_while_forallb.
  - rewrite forallb_rev. apply take_while_forallb.
Qed.

Lemma space_no_slash b : forallb is_space b = true -> forallb (neqc (ch "/")) b = true.
Proof.
  induction b as [|c b IH]; [reflexivity|]. cbn [forallb]. intros H.
  apply andb_prop in H as [Hc Hb]. rewrite IH by exact Hb. rewrite andb_true_r.
  unfold neqc. apply negb_true_iff, N.eqb_neq. intros ->. discriminate Hc.
Qed.

Lemma filter_spaces_tail k b :
  no_space k = true -> forallb is_space b = true ->
  filter (fun c => negb (is_space c)) (k ++ b) = k.
Proof.
  intros Hk Hb. rewrite filter_app.
  replace (filter _ b) with (@nil N).
  - rewrite app_nil_r. unfold no_space in Hk.
    induction k as [|c k IH]; [reflexivity|]. cbn [forallb filter] in *.
    apply andb_prop in Hk as [Hc Hk]. rewrite Hc. f_equal. now apply IH.
  - symmetry. induction b as [|c b IH]; [reflexivity|]. cbn [forallb filter] in *.
    apply andb_prop in Hb as [Hc Hb']. rewrite Hc. now apply IH.
Qed.

Lemma find_exists (A : Type) (f : A -> bool) l x :
  In x l -> f x = true -> exists y, find f l = Some y /\ In y l.
Proof.
  intros Hin Hf. destruct (find f l) as [y|] eqn:E.
  - exists y. split; [reflexivity|]. now apply find_some in E.
  - rewrite (find_none f l E x Hin) in Hf. discriminate.
Qed.

Lemma findImageUrl_of_table images fileName u :
  findImageUrl images fileName = Some u -> In u (map snd images).
Proof.
  unfold findImageUrl. intros H.
  destruct (find _ images) as [kv|] eqn:E; [|discriminate].
  cbn [option_map] in H. inversion H; subst.
  apply find_some in E as [E _]. now apply in_map.
Qed.

(** X11.  A reference that the Extractor has listed is found again by
    the look-up of the figure pass, when the name of its file is not
    empty and holds no white space: the look-up returns a URL of the
    table.  And the look-up never returns anything else than a URL of
    the table. *)
Theorem listed_image_resolves
  dirname path_join existsSync images capture kv fileName url :
  entitles dirname path_join existsSync capture kv ->
  In kv images ->
  fst kv <> [] ->
  no_space (fst kv) = true ->
  (exists u, findImageUrl images capture = Some u /\ In u (map snd images))
  /\ (findImageUrl images fileName = Some url -> In url (map snd images)).
Proof.
  intros [H2 [Hk [_ _]]] Hin Hne Hns.
  split; [|apply findImageUrl_of_table].
  destruct (@split_char_two (ch "/") (trim capture) [] H2) as [a [k [Et [Hks Hl]]]].
  fold (split_char (ch "/") (trim capture)) in Hl. rewrite <- Hk in Hl. subst k.
  destruct (trim_decompose capture) as [w1 [w2 [Ec [_ Hw2]]]].
  assert (Ls : last_segment capture = fst kv ++ w2).
  { unfold last_segment, split_char. rewrite Ec, Et, <- !app_assoc.
    cbn [app]. rewrite app_assoc. apply split_char_last_app.
    rewrite forallb_app, Hks. now apply space_no_slash. }
  assert (Cl : re_replace (Plus true Ws) [] (last_segment capture) = fst kv).
  { rewrite remove_spaces, Ls. now apply filter_spaces_tail. }
  unfold findImageUrl. rewrite Cl.
  replace (nonempty (fst kv)) with true
    by (symmetry; now apply nonempty_true).
  match goal with |- context [find ?f images] =>
    destruct (@find_exists _ f images kv Hin) as [y [Ey Hy]]
  end.
  - cbn beta. now rewrite str_eqb_refl.
  - exists (snd y). rewrite Ey. split; [reflexivity | now apply in_map].
Qed.

(** The hypotheses of X11 hold for a reference with white space
    around it. *)
Lemma listed_image_resolves_witness :
  entitles demo_dirname demo_join (fun _ => true) (lit " p/a.png ")
    (lit "a.png", lit "/assets/p/a.png")
  /\ In (lit "a.png", lit "/assets/p/a.png") one_image
  /\ fst (lit "a.png", lit "/assets/p/a.png") <> []
  /\ no_space (fst (lit "a.png", lit "/assets/p/a.png")) = true
  /\ (exists u, findImageUrl one_image (lit " p/a.png ") = Some u
                /\ In u (map snd one_image)).
Proof.
  assert (H1 : entitles demo_dirname demo_join (fun _ => true) (lit " p/a.png ")
                 (lit "a.png", lit "/assets/p/a.png")).
  { unfold entitles. split; [vm_compute; lia | repeat split]. }
  assert (H2 : In (lit "a.png", lit "/assets/p/a.png") one_image) by (left; reflexivity).
  assert (H3 : fst (lit "a.png", lit "/assets/p/a.png") <> []) by discriminate.
  assert (H4 : no_space (fst (lit "a.png", lit "/assets/p/a.png")) = true) by reflexivity.
  pose proof (@listed_image_resolves demo_dirname demo_join (fun _ => true)
                one_image (lit " p/a.png ") (lit "a.png", lit "/assets/p/a.png")
                [] [] H1 H2 H3 H4) as [E _].
  split; [exact H1|]. split; [exact H2|]. split; [exact H3|].
  split; [exact H4 | exact E].
Defined.

(** ** [ingestProjects] *)

Lemma insert_by_In (A : Type) (lt : A -> A -> bool) x y l :
  In y (insert_by lt x l) <-> y = x \/ In y l.
Proof.
  induction l as [|z l IH]; cbn [insert_by In].
  - intuition.
  - destruct (lt x z); cbn [In]; [intuition|]. rewrite IH. intuition.
Qed.

Lemma sort_by_In (A : Type) (lt : A -> A -> bool) l y :
  In y (sort_by lt l) <-> In y l.
Proof.
  unfold sort_by.
  assert (G : forall l acc, In y (fold_left (fun acc x => insert_by lt x acc) l acc)
                            <-> In y l \/ In y acc).
  { clear l. induction l as [|x l IH]; intros acc; cbn [fold_left In].
    - intuition.
    - rewrite IH, insert_by_In. intuition. }
  rewrite G. cbn [In]. intuition.
Qed.

Section IngestFacts.

Variable dirname : str.
Variable path_join : list str -> str.
Variable existsSync : str -> bool.
Variable readdirSync : str -> completion (list str).
Variable isDirectory : str -> completion bool.
Variable readFileSync : str -> completion str.
Variable today : str.
Variable localeCompare : str -> str -> comparison.

Let folder_result :=
  ingest_folder dirname path_join existsSync readdirSync isDirectory
    readFileSync today.
Let loop :=
  ingest_loop dirname path_join existsSync readdirSync isDirectory
    readFileSync today.

Lemma getPreviewImage_throws images slug e :
  getPreviewImage dirname path_join images slug = Throw e ->
  e = ReferenceError "baseUrl".
Proof.
  unfold getPreviewImage.
  destruct (obj_get slug coverImages); [discriminate|].
  destruct images as [|[k u] rest]; [|discriminate].
  cbn. congruence.
Qed.

(** A folder that fails makes the loop fail, with its own error or
    with the error of a folder before it. *)
Lemma ingest_loop_fails folder : forall folders acc,
  In folder folders ->
  (exists e, folder_result folder = Throw e) ->
  exists e, loop folders acc = Throw e.
Proof.
  induction folders as [|f rest IH]; intros acc Hin Hf; [destruct Hin|].
  unfold loop. cbn [ingest_loop]. fold folder_result. fold loop.
  destruct (folder_result f) as [r|e] eqn:E; cbn [bind].
  - destruct Hin as [->|Hin]; [destruct Hf as [e Hf]; congruence|].
    destruct r; now apply IH.
  - now exists e.
Qed.

Lemma ingest_loop_throws folder e0 : forall folders acc,
  In folder folders ->
  folder_result folder = Throw e0 ->
  (forall f e, In f folders -> folder_result f = Throw e -> e = e0) ->
  loop folders acc = Throw e0.
Proof.
  induction folders as [|f rest IH]; intros acc Hin Hf Hall; [destruct Hin|].
  unfold loop. cbn [ingest_loop]. fold folder_result. fold loop.
  destruct (folder_result f) as [r|e] eqn:E; cbn [bind].
  - destruct Hin as [->|Hin]; [congruence|].
    assert (Hrest : forall g e, In g rest -> folder_result g = Throw e -> e = e0)
      by (intros g e Hg; apply Hall; now right).
    destruct r; now apply IH.
  - f_equal. apply (Hall f e); [now left | exact E].
Qed.

Lemma ingest_loop_invariant (P : Project -> Prop) : forall folders acc ps,
  (forall f p, In f folders -> folder_result f = Normal (Some p) -> P p) ->
  Forall P acc ->
  loop folders acc = Normal ps -> Forall P ps.
Proof.
  induction folders as [|f rest IH]; intros acc ps Hp Hacc H.
  - unfold loop in H. cbn [ingest_loop] in H. congruence.
  - unfold loop in H. cbn [ingest_loop] in H. fold folder_result in H. fold loop in H.
    destruct (folder_result f) as [r|e] eqn:E; cbn [bind] in H; [|discriminate].
    destruct r as [p|].
    + apply (IH (acc ++ [p]) ps); [intros g q Hg; apply Hp; now right | | exact H].
      apply Forall_app. split; [exact Hacc|]. constructor; [|constructor].
      apply (Hp f p); [now left | exact E].
    + apply (IH acc ps); [intros g q Hg; apply Hp; now right | exact Hacc | exact H].
Qed.

(** X12.  One project folder that is read without a file-system error
    and has a document, no cover and no listed image makes the whole
    run fail, whatever the other folders hold: the run ends with an
    exception and hands no index to the writer.  The exception is the
    error of the unbound [baseUrl] when no entry of the projects root
    fails in another way (with an error of [statSync], [readdirSync]
    or [readFileSync]). *)
Theorem bare_project_fails_the_run folder entries files texFile texContent :
  let root := projectsDir dirname path_join in
  let projectPath := path_join [root; folder] in
  existsSync root = true ->
  readdirSync root = Normal entries ->
  In folder entries ->
  isDirectory projectPath = Normal true ->
  readdirSync projectPath = Normal files ->
  find (ends_with (lit ".tex")) files = Some texFile ->
  readFileSync (path_join [projectPath; texFile]) = Normal texContent ->
  extractImages dirname path_join existsSync texContent projectPath = [] ->
  obj_get (slugify folder) coverImages = None ->
  inherited_name (slugify folder) = false ->
  (exists e,
      ingestProjects dirname path_join existsSync readdirSync isDirectory
        readFileSync today localeCompare = Throw e)
  /\ ((forall f e,
          In f entries ->
          ingest_folder dirname path_join existsSync readdirSync isDirectory
            readFileSync today f = Throw e ->
          e = ReferenceError "baseUrl") ->
      ingestProjects dirname path_join existsSync readdirSync isDirectory
        readFileSync today localeCompare = Throw (ReferenceError "baseUrl")).
Proof.
  intros root projectPath He Hr Hin Hd Hl Hf Hc Hi Hcov _.
  assert (Hb : folder_result folder = Throw (ReferenceError "baseUrl")).
  { unfold folder_result, ingest_folder. fold root. fold projectPath.
    rewrite Hd. cbn [bind negb]. rewrite Hl. cbn [bind]. rewrite Hf, Hc.
    cbn [bind]. rewrite Hi. unfold getPreviewImage. rewrite Hcov. reflexivity. }
  unfold ingestProjects. fold root. rewrite He, Hr. cbn [negb bind]. fold loop.
  split.
  - destruct (@ingest_loop_fails folder (sort_by str_ltb entries) [])
      as [e E];
      [now apply sort_by_In | exists (ReferenceError "baseUrl"); exact Hb |].
    exists e. now rewrite E.
  - intros Hall.
    rewrite (@ingest_loop_throws folder (ReferenceError "baseUrl"));
      [reflexivity | now apply sort_by_In | exact Hb |].
    intros f e Hfin. apply Hall. now apply sort_by_In in Hfin.
Qed.

(** X13.  When the run succeeds and no entry of the projects root has
    a slug that the cover table inherits, every project of the index
    comes from a directory among the entries of the projects root,
    carries the slug of that directory's name and the date of the run,
    and its preview is one of the three covers or the URL of the first
    image of its own table: the placeholder is in no index. *)
Theorem index_entries ps :
  (forall entries,
      readdirSync (projectsDir dirname path_join) = Normal entries ->
      Forall (fun f => inherited_name (slugify f) = false) entries) ->
  ingestProjects dirname path_join existsSync readdirSync isDirectory
    readFileSync today localeCompare = Normal ps ->
  Forall (fun p =>
            (exists folder entries,
                readdirSync (projectsDir dirname path_join) = Normal entries /\
                In folder entries /\
                isDirectory (path_join [projectsDir dirname path_join; folder]) =
                  Normal true /\
                p_slug p = slugify folder) /\
            p_date p = today /\
            (In (p_previewImage p) (map snd coverImages) \/
             exists k rest, p_images p = (k, p_previewImage p) :: rest)) ps.
Proof.
  intros _ H. unfold ingestProjects in H.
  destruct (negb _); [inversion H; constructor|].
  destruct (readdirSync (projectsDir dirname path_join)) as [entries|e0] eqn:Hr;
    cbn [bind] in H; [|discriminate].
  fold loop in H.
  destruct (loop _ []) as [projects|e] eqn:E; cbn [bind] in H; [|discriminate].
  inversion H; subst. clear H.
  apply Forall_forall. intros p Hp. apply sort_by_In in Hp. revert p Hp.
  apply Forall_forall.
  eapply ingest_loop_invariant with (acc := []); [|constructor | exact E].
  intros f p Hf Hres. apply sort_by_In in Hf.
  unfold folder_result, ingest_folder in Hres.
  destruct (isDirectory _) as [d|e1] eqn:Hd; cbn [bind] in Hres; [|discriminate].
  destruct d; cbn [negb] in Hres; [|discriminate].
  destruct (readdirSync (path_join _)) as [files|e2]; cbn [bind] in Hres;
    [|discriminate].
  destruct (find _ _) as [texFile|]; [|discriminate].
  destruct (readFileSync _) as [texContent|e3]; cbn [bind] in Hres; [|discriminate].
  destruct (getPreviewImage _ _ _ _) as [u|] eqn:G; cbn [bind] in Hres; [|discriminate].
  inversion Hres; subst. cbn [p_slug p_date p_previewImage p_images]. clear Hres.
  split; [exists f, entries; auto|]. split; [reflexivity|].
  unfold getPreviewImage in G.
  destruct (obj_get (slugify f) coverImages) as [cover|] eqn:C.
  - left. inversion G; subst. clear - C.
    unfold coverImages in *. cbn [obj_get map snd In] in *.
    repeat match type of C with
           | (if ?b then _ else _) = _ => destruct b; [inversion C; auto|]
           end.
    discriminate.
  - right. destruct (extractImages _ _ _ _ _) as [|[k url] rest]; [discriminate|].
    inversion G; subst. now exists k, rest.
Qed.

End IngestFacts.

(** The hypotheses of X12 hold for the projects root with the one
    folder [Project-4]. *)
Lemma bare_project_fails_the_run_witness :
  demo_exists (projectsDir demo_dirname demo_join) = true
  /\ demo_readdir (projectsDir demo_dirname demo_join) = Normal [lit "Project-4"]
  /\ In (lit "Project-4") [lit "Project-4"]
  /\ demo_isDirectory
       (demo_join [projectsDir demo_dirname demo_join; lit "Project-4"]) =
     Normal true
  /\ demo_readdir (demo_join [projectsDir demo_dirname demo_join; lit "Project-4"]) =
     Normal [lit "paper.tex"]
  /\ find (ends_with (lit ".tex")) [lit "paper.tex"] = Some (lit "paper.tex")
  /\ demo_readFile
       (demo_join [demo_join [projectsDir demo_dirname demo_join; lit "Project-4"];
                   lit "paper.tex"]) =
     Normal (lit "\title{\textbf{Orbits}}\begin{document}Hello\end{document}")
  /\ extractImages demo_dirname demo_join demo_exists
       (lit "\title{\textbf{Orbits}}\begin{document}Hello\end{document}")
       (demo_join [projectsDir demo_dirname demo_join; lit "Project-4"]) = []
  /\ obj_get (slugify (lit "Project-4")) coverImages = None
  /\ inherited_name (slugify (lit "Project-4")) = false
  /\ ((exists e,
          ingestProjects demo_dirname demo_join demo_exists demo_readdir
            demo_isDirectory demo_readFile (lit "2026-01-01") demo_compare =
          Throw e)
      /\ ((forall f e,
              In f [lit "Project-4"] ->
              ingest_folder demo_dirname demo_join demo_exists demo_readdir
                demo_isDirectory demo_readFile (lit "2026-01-01") f = Throw e ->
              e = ReferenceError "baseUrl") ->
          ingestProjects demo_dirname demo_join demo_exists demo_readdir
            demo_isDirectory demo_readFile (lit "2026-01-01") demo_compare =
          Throw (ReferenceError "baseUrl"))).
Proof.
  assert (H1 : demo_exists (projectsDir demo_dirname demo_join) = true)
    by reflexivity.
  assert (H2 : demo_readdir (projectsDir demo_dirname demo_join) =
               Normal [lit "Project-4"]) by reflexivity.
  assert (H3 : In (lit "Project-4") [lit "Project-4"]) by (left; reflexivity).
  assert (H4 : demo_isDirectory
       (demo_join [projectsDir demo_dirname demo_join; lit "Project-4"]) =
     Normal true) by reflexivity.
  assert (H5 : demo_readdir
       (demo_join [projectsDir demo_dirname demo_join; lit "Project-4"]) =
     Normal [lit "paper.tex"]) by reflexivity.
  assert (H6 : find (ends_with (lit ".tex")) [lit "paper.tex"] =
               Some (lit "paper.tex")) by reflexivity.
  assert (H7 : demo_readFile
       (demo_join [demo_join [projectsDir demo_dirname demo_join; lit "Project-4"];
                   lit "paper.tex"]) =
     Normal (lit "\title{\textbf{Orbits}}\begin{document}Hello\end{document}"))
    by reflexivity.
  assert (H8 : extractImages demo_dirname demo_join demo_exists
       (lit "\title{\textbf{Orbits}}\begin{document}Hello\end{document}")
       (demo_join [projectsDir demo_dirname demo_join; lit "Project-4"]) = [])
    by reflexivity.
  assert (H9 : obj_get (slugify (lit "Project-4")) coverImages = None)
    by (vm_compute; reflexivity).
  assert (H10 : inherited_name (slugify (lit "Project-4")) = false)
    by (vm_compute; reflexivity).
  pose proof (@bare_project_fails_the_run demo_dirname demo_join demo_exists
                demo_readdir demo_isDirectory demo_readFile (lit "2026-01-01")
                demo_compare (lit "Project-4") [lit "Project-4"]
                [lit "paper.tex"] (lit "paper.tex") _
                H1 H2 H3 H4 H5 H6 H7 H8 H9 H10) as E.
  repeat (split; [assumption|]). exact E.
Defined.

(** The hypotheses of X13 hold for a projects root with a file and
    with the folder [Project-1], which has a cover. *)
Lemma index_entries_witness :
  (forall entries,
      covered_readdir (projectsDir demo_dirname demo_join) = Normal entries ->
      Forall (fun f => inherited_name (slugify f) = false) entries)
  /\ ingestProjects demo_dirname demo_join demo_exists covered_readdir
       covered_isDirectory covered_readFile (lit "2026-01-01") demo_compare =
     Normal covered_index
  /\ Forall (fun p =>
            (exists folder entries,
                covered_readdir (projectsDir demo_dirname demo_join) =
                  Normal entries /\
                In folder entries /\
                covered_isDirectory
                  (demo_join [projectsDir demo_dirname demo_join; folder]) =
                  Normal true /\
                p_slug p = slugify folder) /\
            p_date p = lit "2026-01-01" /\
            (In (p_previewImage p) (map snd coverImages) \/
             exists k rest, p_images p = (k, p_previewImage p) :: rest))
       covered_index.
Proof.
  assert (H1 : forall entries,
      covered_readdir (projectsDir demo_dirname demo_join) = Normal entries ->
      Forall (fun f => inherited_name (slugify f) = false) entries).
  { intros entries H.
    change (covered_readdir (projectsDir demo_dirname demo_join))
      with (Normal [lit "notes.txt"; lit "Project-1"]) in H.
    injection H as <-. repeat constructor; vm_compute; reflexivity. }
  assert (H2 : ingestProjects demo_dirname demo_join demo_exists covered_readdir
       covered_isDirectory covered_readFile (lit "2026-01-01") demo_compare =
     Normal covered_index) by (vm_compute; reflexivity).
  split; [exact H1|]. split; [exact H2|].
  exact (@index_entries demo_dirname demo_join demo_exists covered_readdir
           covered_isDirectory covered_readFile (lit "2026-01-01") demo_compare
           covered_index H1 H2).
Defined.

(** ** The caption of a figure *)

Lemma brace_scan_nested body rest : forall e b,
  nested e body = true ->
  brace_scan (S (b + e)) (body ++ rest) = length body + brace_scan (S b) rest.
Proof.
  induction body as [|c t IH]; intros e b H; cbn [nested] in H.
  - apply Nat.eqb_eq in H. subst e. now rewrite Nat.add_0_r.
  - cbn [app brace_scan length].
    destruct (N.eqb c 123) eqn:E1.
    + apply N.eqb_eq in E1. subst c. change (N.eqb 123 125) with false.
      cbn iota zeta.
      replace (S (S (b + e))) with (S (b + S e)) by lia.
      now rewrite (IH (S e) b H).
    + destruct (N.eqb c 125) eqn:E2.
      * destruct e as [|e']; [discriminate|].
        cbn iota zeta. cbn [pred].
        replace (b + S e') with (S (b + e')) by lia.
        now rewrite (IH e' b H).
      * cbn iota zeta. now rewrite (IH e b H).
Qed.

Lemma search_literal_found w : forall s pre i,
  indexOf w s = Some i -> exists mt, search (Lit_of w) pre s = Some mt.
Proof.
  induction s as [|c t IH]; intros pre i H; cbn [indexOf search] in *;
    rewrite match_at_Lit_of; unfold starts_with in H;
    destruct (strip_prefix w _) eqn:E; try (eexists; reflexivity);
    try discriminate.
  destruct (indexOf w t) as [j|] eqn:Ej; [|discriminate].
  eapply IH. reflexivity.
Qed.

Lemma skipn_app_length (A : Type) (a b : list A) : skipn (length a) (a ++ b) = b.
Proof. induction a; [reflexivity | assumption]. Qed.

Lemma firstn_app_length (A : Type) (a b : list A) : firstn (length a) (a ++ b) = a.
Proof. induction a as [|x a IH]; [reflexivity | cbn; now rewrite IH]. Qed.

(** X14.  When the first [\caption{] of a figure is followed by a text
    with balanced braces and the closing brace, the brace count of the
    figure pass takes that text for the caption, nested groups
    included. *)
Theorem main_caption_of_balanced_text pre body post :
  indexOf (lit "\caption{")
    (pre ++ lit "\caption{" ++ body ++ lit "}" ++ post) = Some (length pre) ->
  nested 0 body = true ->
  main_caption (pre ++ lit "\caption{" ++ body ++ lit "}" ++ post) = body.
Proof.
  intros Hi Hn. unfold main_caption, re_match, L.
  destruct (@search_literal_found _ _ [] _ Hi) as [mt ->].
  rewrite Hi. cbv zeta.
  assert (E : pre ++ lit "\caption{" ++ body ++ lit "}" ++ post =
              (pre ++ lit "\caption{") ++ body ++ lit "}" ++ post)
    by (now rewrite <- app_assoc).
  assert (L9 : length pre + 9 = length (pre ++ lit "\caption{"))
    by (rewrite length_app; reflexivity).
  rewrite E, L9, skipn_app_length.
  pose proof (@brace_scan_nested body (lit "}" ++ post) 0 0 Hn) as B.
  cbn [Nat.add] in B. rewrite B.
  replace (brace_scan 1 (lit "}" ++ post)) with 1 by (now destruct post).
  unfold substring.
  set (k := length (pre ++ lit "\caption{")).
  replace (k + (length body + 1) - 1) with (k + length body) by lia.
  rewrite Nat.max_r, Nat.min_l by lia.
  replace (k + length body - k) with (length body) by lia.
  unfold k. rewrite skipn_app_length. apply firstn_app_length.
Qed.

(** The hypotheses of X14 hold for a caption with a nested group. *)
Lemma main_caption_of_balanced_text_witness :
  indexOf (lit "\caption{")
    (lit "\includegraphics{p/a.png}" ++ lit "\caption{" ++
     lit "Orbit of {\bf S2} in 2018" ++ lit "}" ++ lit "\label{f1}") =
    Some (length (lit "\includegraphics{p/a.png}"))
  /\ nested 0 (lit "Orbit of {\bf S2} in 2018") = true
  /\ main_caption
       (lit "\includegraphics{p/a.png}" ++ lit "\caption{" ++
        lit "Orbit of {\bf S2} in 2018" ++ lit "}" ++ lit "\label{f1}") =
     lit "Orbit of {\bf S2} in 2018".
Proof.
  assert (H1 : indexOf (lit "\caption{")
    (lit "\includegraphics{p/a.png}" ++ lit "\caption{" ++
     lit "Orbit of {\bf S2} in 2018" ++ lit "}" ++ lit "\label{f1}") =
    Some (length (lit "\includegraphics{p/a.png}"))) by reflexivity.
  assert (H2 : nested 0 (lit "Orbit of {\bf S2} in 2018") = true) by reflexivity.
  split; [exact H1|]. split; [exact H2|].
  exact (@main_caption_of_balanced_text _ _ _ H1 H2).
Defined.

(** ** The comment phase *)

Lemma delete_keeps (q : char -> bool) r (f : rmatch -> str) :
  (forall mt, f mt = []) ->
  forall s n pre, forallb q s = true -> forallb q (replace_loop r f n pre s) = true.
Proof.
  intros Hf. induction s as [|c t IH]; intros n pre H.
  - destruct n; cbn [replace_loop]; [|reflexivity].
    destruct (match_at r pre []); [now rewrite Hf | reflexivity].
  - cbn [forallb] in H. apply andb_prop in H as [Hc Ht].
    destruct n as [|n]; cbn [replace_loop]; [|now apply IH].
    destruct (match_at r pre (c :: t)) as [mt|].
    + rewrite Hf. cbn [app]. destruct (length (m_text mt)).
      * cbn [forallb]. now rewrite Hc, IH.
      * now apply IH.
    + cbn [forallb]. now rewrite Hc, IH.
Qed.

Lemma match_at_comment pre s :
  match_at re_comment pre s =
  match s with
  | c :: t =>
      if N.eqb c 37
      then Some (RMatch pre (c :: take_while (neqc nl) t) (drop_while (neqc nl) t) [])
      else None
  | [] => None
  end.
Proof.
  unfold match_at, re_comment, L. rewrite m_Seq, m_Lit_of.
  change (lit "%") with [37%N]. destruct s as [|c t]; [reflexivity|].
  cbn [strip_prefix]. rewrite (N.eqb_sym 37 c).
  destruct (N.eqb c 37) eqn:E; [|reflexivity].
  rewrite m_Star. cbn [after].
  rewrite (@star_class_greedy_all (m (Chr (neqc nl))) (neqc nl))
    by (try reflexivity; pose proof (take_while_length (neqc nl) t); lia).
  cbn [after caps]. f_equal. f_equal.
  pose proof (firstn_length_app (c :: take_while (neqc nl) t)
                (drop_while (neqc nl) t)) as E0.
  cbn [app] in E0. now rewrite take_drop_while in E0.
Qed.

Lemma comments_leave_no_percent : forall n s pre, length s <= n ->
  forallb (neqc 37) (replace_loop re_comment (fun _ => []) 0 pre s) = true.
Proof.
  induction n as [|n IH]; intros s pre Hn.
  - destruct s; [|simpl in Hn; lia]. cbn [replace_loop].
    now rewrite match_at_comment.
  - destruct s as [|c t]; cbn [replace_loop]; rewrite match_at_comment;
      [reflexivity|].
    simpl in Hn. destruct (N.eqb c 37) eqn:E.
    + cbn [m_text length app].
      rewrite replace_loop_skip by apply take_while_length.
      apply IH. rewrite skipn_take_while.
      pose proof (drop_while_length (neqc nl) t). lia.
    + cbn [forallb]. unfold neqc at 1. rewrite E. cbn [negb andb].
      apply IH. lia.
Qed.

(** A greedy run of a class that holds the line feed, followed by a
    line feed: the match ends with the last line feed of the run. *)
Lemma greedy_run_then_nl (step : cont -> cont) p :
  (forall k' st, step k' st = m (Chr p) k' st) ->
  p nl = true ->
  forall a b cs fuel,
    length a < fuel ->
    star_loop step true (m (Chr (eqc nl)) Some) fuel (MState b a cs) =
    match upto_last nl (take_while p a) with
    | Some u => Some (MState (rev u ++ b) (skipn (length u) a) cs)
    | None => None
    end.
Proof.
  intros Hstep Hp. induction a as [|c t IH]; intros b cs fuel Hf;
    (destruct fuel as [|f]; [simpl in Hf; lia|]); cbn [star_loop].
  - rewrite Hstep, !m_Chr_nil. reflexivity.
  - rewrite Hstep, !m_Chr. cbn [take_while].
    destruct (p c) eqn:E.
    + unfold progressed. cbn [after length].
      replace (Nat.ltb _ _) with true by (symmetry; apply Nat.ltb_lt; lia).
      rewrite IH by (simpl in Hf; lia). cbn [upto_last].
      destruct (upto_last nl (take_while p t)) as [u|].
      * cbn [length skipn rev]. now rewrite <- app_assoc.
      * unfold eqc. destruct (N.eqb c nl); reflexivity.
    + cbn [upto_last]. unfold eqc.
      destruct (N.eqb c nl) eqn:En; [|reflexivity].
      apply N.eqb_eq in En. subst c. congruence.
Qed.

Lemma match_at_blank_line pre s :
  match_at re_blank_line pre s =
  if at_line_start (MState pre s [])
  then match upto_last nl (take_while (fun c => negb (is_alnum c)) s) with
       | Some u => Some (RMatch pre u (skipn (length u) s) [])
       | None => None
       end
  else None.
Proof.
  unfold match_at, re_blank_line. rewrite m_Seq, m_Bol.
  destruct (at_line_start _); [|reflexivity].
  rewrite m_Seq, m_Star. cbn [after].
  rewrite (@greedy_run_then_nl (m (Chr (fun c => negb (is_alnum c))))
             (fun c => negb (is_alnum c))); [|reflexivity|reflexivity|lia].
  destruct (upto_last nl _) as [u|] eqn:E; [|reflexivity].
  cbn [after caps]. f_equal. f_equal.
  assert (G : forall x v, upto_last nl (take_while (fun c => negb (is_alnum c)) x) = Some v ->
                          firstn (length x - length (skipn (length v) x)) x = v).
  { clear. induction x as [|c x IH]; intros v H; cbn [take_while upto_last] in H;
      [discriminate|].
    destruct (negb (is_alnum c)); [|discriminate]. cbn [upto_last] in H.
    destruct (upto_last nl _) as [u|] eqn:E.
    - inversion H; subst. cbn [length skipn].
      specialize (IH u eq_refl).
      assert (L1 : length (skipn (length u) x) <= length x)
        by (rewrite length_skipn; lia).
      replace (S (length x) - length (skipn (length u) x))
        with (S (length x - length (skipn (length u) x))) by lia.
      cbn [firstn]. now rewrite IH.
    - destruct (N.eqb c nl); [|discriminate]. inversion H; subst.
      cbn [length skipn]. replace (S (length x) - length x) with 1 by lia.
      reflexivity. }
  now apply G.
Qed.

Lemma upto_last_shape c0 s u :
  upto_last c0 s = Some u ->
  exists v, u = v ++ [c0] /\ u <> [] /\ firstn (length u) s = u
            /\ forallb (neqc c0) (skipn (length u) s) = true.
Proof.
  revert u. induction s as [|c t IH]; intros u H; cbn [upto_last] in H;
    [discriminate|].
  destruct (upto_last c0 t) as [w|] eqn:E.
  - inversion H; subst. destruct (IH w eq_refl) as [v [-> [_ [F S0]]]].
    exists (c :: v). cbn [length skipn firstn app]. rewrite F.
    repeat split; [discriminate | exact S0].
  - destruct (N.eqb c c0) eqn:Ec; [|discriminate]. inversion H; subst.
    apply N.eqb_eq in Ec. subst c. exists []. cbn [length skipn firstn app].
    repeat split; [discriminate|].
    clear - E. induction t as [|d t IH]; [reflexivity|].
    cbn [upto_last forallb] in *. destruct (upto_last c0 t); [discriminate|].
    unfold neqc at 1. destruct (N.eqb d c0); [discriminate|]. now apply IH.
Qed.

Lemma take_while_skip_prefix p s n :
  n <= length (take_while p s) ->
  take_while p (skipn n s) = skipn n (take_while p s).
Proof.
  revert s. induction n as [|n IH]; intros s H; [reflexivity|].
  destruct s as [|c t]; [reflexivity|]. cbn [take_while] in *.
  destruct (p c); [|simpl in H; lia]. cbn [skipn]. apply IH. simpl in H. lia.
Qed.

Lemma upto_last_none_forallb c0 s :
  upto_last c0 s = None <-> forallb (neqc c0) s = true.
Proof.
  induction s as [|c t IH]; cbn [upto_last forallb]; [tauto|].
  unfold neqc at 1. destruct (upto_last c0 t) as [u|].
  - split; [discriminate|]. intros H. apply andb_prop in H as [_ H].
    apply IH in H. discriminate.
  - destruct (N.eqb c c0); cbn [negb andb]; [split; discriminate|].
    split; [intros _; now apply IH | reflexivity].
Qed.

Lemma upto_last_length c0 s u : upto_last c0 s = Some u -> length u <= length s.
Proof.
  revert u. induction s as [|c t IH]; intros u H; cbn [upto_last] in H;
    [discriminate|].
  destruct (upto_last c0 t) as [w|].
  - inversion H; subst. specialize (IH w eq_refl). simpl. lia.
  - destruct (N.eqb c c0); [|discriminate]. inversion H; subst. simpl. lia.
Qed.

Lemma blank_lines_go : forall n s pre, length s <= n ->
  no_blank (at_line_start (MState pre s []))
    (replace_loop re_blank_line (fun _ => []) 0 pre s) = true.
Proof.
  induction n as [|n IH]; intros s pre Hn.
  - destruct s; [|simpl in Hn; lia]. cbn [replace_loop].
    rewrite match_at_blank_line. cbn [take_while upto_last].
    now destruct (at_line_start _).
  - destruct s as [|c t].
    { cbn [replace_loop]. rewrite match_at_blank_line. cbn [take_while upto_last].
      now destruct (at_line_start _). }
    simpl in Hn. cbn [replace_loop]. rewrite match_at_blank_line.
    set (run := take_while (fun c => negb (is_alnum c)) (c :: t)).
    destruct (at_line_start (MState pre (c :: t) [])) eqn:Ls.
    + destruct (upto_last nl run) as [u|] eqn:Eu.
      * cbn [m_text app].
        destruct (upto_last_shape _ _ Eu) as [v [Ev [Hne [F S0]]]].
        destruct u as [|u0 u]; [congruence|]. cbn [length].
        pose proof (upto_last_length _ _ Eu) as Lu.
        pose proof (take_while_length (fun c => negb (is_alnum c)) (c :: t)) as Lr.
        fold run in Lr. cbn [length] in Lu, Lr.
        rewrite replace_loop_skip by lia.
        assert (Hs : skipn (length u) t = skipn (S (length u)) (c :: t)) by reflexivity.
        set (rest := skipn (length u) t) in *.
        specialize (IH rest (rev (firstn (length u) t) ++ c :: pre)).
        assert (Lrest : length rest <= n)
          by (unfold rest; rewrite length_skipn; lia).
        specialize (IH Lrest).
        assert (A : at_line_start
                      (MState (rev (firstn (length u) t) ++ c :: pre) rest []) = true).
        { unfold at_line_start. cbn [before].
          assert (Hl : exists y, rev (firstn (length u) t) ++ c :: pre = nl :: y).
          { assert (G : forall j x, j <= length (take_while (fun c => negb (is_alnum c)) x) ->
                          firstn j (take_while (fun c => negb (is_alnum c)) x) = firstn j x).
            { clear. induction j as [|j IH]; intros x H; [reflexivity|].
              destruct x as [|d x]; [reflexivity|]. cbn [take_while] in *.
              destruct (negb (is_alnum d)); [|simpl in H; lia].
              cbn [firstn]. f_equal. apply IH. simpl in H. lia. }
            assert (Fu : c :: firstn (length u) t = u0 :: u).
            { rewrite <- F.
              change (c :: firstn (length u) t) with (firstn (S (length u)) (c :: t)).
              change (length (u0 :: u)) with (S (length u)).
              unfold run. symmetry. apply G. fold run. lia. }
            replace (rev (firstn (length u) t) ++ c :: pre)
              with (rev (c :: firstn (length u) t) ++ pre)
              by (cbn [rev]; now rewrite <- app_assoc).
            rewrite Fu, Ev, rev_app_distr. cbn [rev app]. eauto. }
          destruct Hl as [y ->]. reflexivity. }
        rewrite A in IH.
        replace (replace_loop re_blank_line (fun _ => []) 0
                   (rev (firstn (S (length u)) (c :: t)) ++ pre)
                   (skipn (S (length u)) (c :: t)))
          with (replace_loop re_blank_line (fun _ => []) 0
                  (rev (firstn (length u) t) ++ c :: pre) rest).
        2:{ cbn [firstn rev skipn]. now rewrite <- app_assoc. }
        exact IH.
      * specialize (IH t (c :: pre)).
        assert (Lt : length t <= n) by lia. specialize (IH Lt).
        assert (Cn : N.eqb c nl = false).
        { apply upto_last_none_forallb in Eu. unfold run in Eu.
          cbn [take_while] in Eu.
          destruct (negb (is_alnum c)) eqn:Ec.
          - cbn [forallb] in Eu. apply andb_prop in Eu as [Eu _].
            unfold neqc in Eu. now apply negb_true_iff in Eu.
          - apply N.eqb_neq. intros ->. discriminate Ec. }
        cbn [no_blank]. rewrite Cn.
        eapply no_blank_weaken. exact IH.
    + specialize (IH t (c :: pre)).
      assert (Lt : length t <= n) by lia. specialize (IH Lt).
      cbn [no_blank]. destruct (N.eqb c nl) eqn:Cn.
      * apply N.eqb_eq in Cn. subst c. cbn [negb andb].
        unfold at_line_start in IH. cbn [before] in IH. exact IH.
      * eapply no_blank_weaken. exact IH.
Qed.

(** X15.  After the comment phase the text holds no percent sign and
    no blank line, whatever it was before: a percent sign goes with the
    rest of its line also when a backslash stands before it, and the
    blank lines of the source never reach the paragraph step. *)
Theorem comment_phase_leaves html :
  existsb (eqc (ch "%")) (strip_comments html) = false
  /\ includes [nl; nl] (strip_comments html) = false.
Proof.
  unfold strip_comments, strip, re_replace, re_replace_fn. split.
  - assert (H : forallb (neqc 37)
                  (replace_loop re_blank_line
                     (fun mt => expand (ngroups re_blank_line) mt []) 0 []
                     (replace_loop re_comment
                        (fun mt => expand (ngroups re_comment) mt []) 0 [] html)) = true).
    { apply delete_keeps; [reflexivity|].
      apply comments_leave_no_percent with (n := length html). lia. }
    revert H. generalize (replace_loop re_blank_line
                     (fun mt => expand (ngroups re_blank_line) mt []) 0 []
                     (replace_loop re_comment
                        (fun mt => expand (ngroups re_comment) mt []) 0 [] html)).
    change (ch "%") with 37%N.
    intros l. induction l as [|c l IH]; [reflexivity|].
    cbn [forallb existsb]. unfold neqc at 1, eqc at 1.
    intros H. apply andb_prop in H as [Hc Hl]. apply negb_true_iff in Hc.
    now rewrite Hc, IH.
  - set (x := replace_loop re_comment _ 0 [] html).
    pose proof (@blank_lines_go (length x) x [] (le_n _)) as H.
    apply no_blank_weaken in H.
    change (fun mt => expand (ngroups re_blank_line) mt [])
      with (fun _ : rmatch => @nil N).
    assert (G : forall l p, no_blank p l = true -> includes [nl; nl] l = false).
    { clear. induction l as [|c l IH]; intros p H; [reflexivity|].
      cbn [includes]. rewrite orb_false_iff. cbn [no_blank] in H. split.
      - unfold starts_with. cbn [strip_prefix]. rewrite (N.eqb_sym nl c).
        destruct (N.eqb c nl); [|reflexivity].
        apply andb_prop in H as [_ H]. destruct l as [|d l]; [reflexivity|].
        cbn [no_blank] in H. rewrite (N.eqb_sym nl d).
        destruct (N.eqb d nl); [discriminate H | reflexivity].
      - destruct (N.eqb c nl); [apply andb_prop in H as [_ H]|]; eapply IH; exact H. }
    eapply G. exact H.
Qed.

(** ** Words on the two sides of a character *)

Lemma starts_with_nil_false w : w <> [] -> starts_with w [] = false.
Proof. destruct w; [congruence | reflexivity]. Qed.

Lemma starts_with_sep w c : ~ In c w -> forall x y,
  starts_with w (x ++ c :: y) = starts_with w x.
Proof.
  unfold starts_with. induction w as [|d w IH]; intros Hc x y; [reflexivity|].
  cbn [In] in Hc. destruct x as [|e x]; cbn [app strip_prefix].
  - destruct (N.eqb_spec d c); [subst; tauto | reflexivity].
  - destruct (N.eqb d e); [|reflexivity]. apply IH. tauto.
Qed.

(** A word without the character [c] lies on one side of a [c]. *)
Lemma includes_sep w c x y : ~ In c w -> w <> [] ->
  includes w (x ++ c :: y) = includes w x || includes w y.
Proof.
  intros Hc Hw. induction x as [|d x IH].
  - cbn [app includes]. destruct y as [|e y].
    + change ([c]) with ([] ++ [c]). rewrite starts_with_sep by exact Hc.
      rewrite starts_with_nil_false by exact Hw. reflexivity.
    + change (c :: e :: y) with ([] ++ c :: e :: y) at 1.
      rewrite starts_with_sep by exact Hc.
      rewrite starts_with_nil_false by exact Hw. reflexivity.
  - cbn [app includes]. rewrite IH.
    change (d :: x ++ c :: y) with ((d :: x) ++ c :: y).
    rewrite starts_with_sep by exact Hc. now rewrite orb_assoc.
Qed.

Lemma calm_unfold x :
  calm x = true ->
  Forall (fun w => includes w x = false) calm_triggers.
Proof.
  unfold calm. intros H. apply Forall_forall. intros w Hw.
  rewrite forallb_forall in H. specialize (H w Hw). now apply negb_true_iff.
Qed.

Lemma calm_fold x :
  Forall (fun w => includes w x = false) calm_triggers -> calm x = true.
Proof.
  unfold calm. intros H. apply forallb_forall. intros w Hw.
  rewrite Forall_forall in H. rewrite (H w Hw). reflexivity.
Qed.

(** Two calm texts with a character between them that is in no
    trigger. *)
Lemma calm_sep c x y :
  Forall (fun w => ~ In c w) calm_triggers ->
  calm x = true -> calm y = true -> calm (x ++ c :: y) = true.
Proof.
  intros Hc Hx Hy. apply calm_fold.
  apply calm_unfold in Hx. apply calm_unfold in Hy.
  rewrite Forall_forall in *. intros w Hw.
  rewrite includes_sep; [now rewrite (Hx w Hw), (Hy w Hw) | now apply Hc |].
  intros ->. revert Hw. unfold calm_triggers. cbn [In].
  intros H. repeat (destruct H as [H|H]; [discriminate H|]). exact H.
Qed.

(** ** The bullet rule on lines that start with a letter or a digit *)

Lemma dash_bullet_none pre s :
  (pre = [] -> dash_ahead s = false) ->
  (forall t, s = nl :: t -> dash_ahead t = false) ->
  match_at re_dash_bullet pre s = None.
Proof.
  intros H0 H1. unfold match_at, re_dash_bullet. rewrite m_Seq, m_Alt.
  assert (G : forall b a cs,
             dash_ahead a = false ->
             m (Star true Ws ;; L "-" ;; Plus true Ws ;;
                Group 1 (Plus true (Chr (fun c => negb (N.eqb c 10 || N.eqb c 92)))) ;;
                Opt (Star true Ws ;; L "\\")) Some (MState b a cs) = None).
  { intros b a cs Hd. rewrite m_Seq, m_Star. unfold Ws.
    rewrite (@star_class_run (m (Chr is_space)) is_space true).
    - rewrite m_Seq. unfold L. rewrite m_Lit_of. change (lit "-") with [45%N].
      unfold dash_ahead in Hd. destruct (drop_while is_space a) as [|c t];
        [reflexivity|]. cbn [strip_prefix]. rewrite (N.eqb_sym 45 c).
      now rewrite Hd.
    - reflexivity.
    - intros b' c t cs' Hc. rewrite m_Seq. unfold L. rewrite m_Lit_of.
      change (lit "-") with [45%N]. cbn [strip_prefix].
      destruct (N.eqb_spec 45 c); [subst c; discriminate Hc | reflexivity].
    - cbn [after]. pose proof (take_while_length is_space a). lia. }
  rewrite m_Start. cbn [before].
  replace (match pre with [] => _ | _ :: _ => None end) with (@None mstate).
  2:{ destruct pre; [|reflexivity]. symmetry. apply G. now apply H0. }
  destruct s as [|c t]; [reflexivity|]. rewrite m_Chr. unfold eqc.
  destruct (N.eqb_spec c nl); [|reflexivity]. subst c.
  rewrite G; [reflexivity | now apply (H1 t)].
Qed.

Lemma dash_ahead_alnum s : starts_alnum s = true -> dash_ahead s = false.
Proof.
  unfold starts_alnum, dash_ahead. destruct s as [|c t]; [reflexivity|].
  cbn [hd drop_while]. intros H.
  assert (Hs : is_space c = false).
  { apply not_true_iff_false. intros S. apply is_space_range in S.
    unfold is_alnum, is_lower, is_upper, is_digit, in_range in H.
    rewrite ?orb_true_iff, ?andb_true_iff, ?N.leb_le in H. lia. }
  rewrite Hs. apply N.eqb_neq. intros ->. discriminate H.
Qed.

Lemma no_nl_cons x t a b :
  forallb (fun c => negb (is_line_terminator c)) x = true ->
  x = a ++ b -> b <> nl :: t.
Proof.
  intros H E ->. subst x. rewrite forallb_app in H.
  apply andb_prop in H as [_ H]. discriminate H.
Qed.

Lemma rev_nil_inv (A : Type) (a : list A) : rev a = [] -> a = [].
Proof.
  intros H. apply (f_equal (@rev A)) in H. now rewrite rev_involutive in H.
Qed.

(** One line that starts with a letter or a digit. *)
Lemma silent_dash_bullet_line x :
  forallb (fun c => negb (is_line_terminator c)) x = true ->
  starts_alnum x = true -> silent re_dash_bullet [] x.
Proof.
  intros Hn Ha a b E. apply dash_bullet_none.
  - rewrite app_nil_r. intros Hr. apply rev_nil_inv in Hr. subst a.
    cbn [app] in E. subst b. now apply dash_ahead_alnum.
  - intros t Hb. exfalso. now apply (@no_nl_cons x t a b).
Qed.

(** ** One block for the paragraph step *)

Lemma paragraphs_one x :
  no_blank false x = true -> x <> [] -> trim x = x -> N.eqb (hd 32%N x) 60 = false ->
  paragraphs x = paragraph_of x.
Proof.
  intros Hb Hne Ht Hh. unfold paragraphs, re_split.
  destruct x as [|c t] eqn:Ex; [congruence|]. rewrite <- Ex in *.
  rewrite split_no_blank by exact Hb. cbn [rev app map].
  unfold wrap_paragraph. rewrite Ht.
  replace (nonempty x) with true by (symmetry; now apply nonempty_true).
  cbn [negb]. rewrite re_test_lt, Hh.
  cbn [filter]. unfold join.
  replace (nonempty _) with true; [cbn [concat]; now rewrite app_nil_r|].
  symmetry. apply nonempty_true. discriminate.
Qed.

Lemma no_terminator_no_blank x : forall p,
  forallb (fun c => negb (is_line_terminator c)) x = true -> no_blank p x = true.
Proof.
  intros p H. apply no_nl_no_blank.
  induction x as [|c t IH]; [reflexivity|]. cbn [forallb existsb] in *.
  apply andb_prop in H as [Hc Ht]. rewrite (IH Ht), orb_false_r.
  unfold eqc. apply N.eqb_neq. intros ->. discriminate Hc.
Qed.

Lemma alnum_not_space c : is_alnum c = true -> is_space c = false.
Proof.
  intros H. apply not_true_iff_false. intros S. apply is_space_range in S.
  unfold is_alnum, is_lower, is_upper, is_digit, in_range in H.
  rewrite ?orb_true_iff, ?andb_true_iff, ?N.leb_le in H. lia.
Qed.

Lemma trim_prose x :
  starts_alnum x = true -> ends_space x = false -> trim x = x.
Proof.
  unfold starts_alnum, ends_space. intros Ha He.
  destruct x as [|c t]; [reflexivity|]. apply trim_fixed; [discriminate | |].
  - cbn [hd] in *. now apply alnum_not_space.
  - assert (G : forall (l : list N) d a b, last (d :: l) a = last (d :: l) b).
    { clear. induction l as [|e l IH]; intros d a b; [reflexivity|].
      cbn [last]. apply (IH e). }
    now rewrite (G t c 32%N 0%N).
Qed.

(** ** Texts on which the phases find nothing *)

Ltac calm_hyps H :=
  apply calm_unfold in H; unfold calm_triggers in H;
  repeat match type of H with
         | Forall _ (_ :: _) =>
             let H1 := fresh "Hc" in
             apply Forall_cons_iff in H as [H1 H]
         end;
  clear H.

(** From the structural phase on: a calm text [y] that the blank-line
    rule turns into the calm text [y'] goes through every other phase
    unchanged. *)
Lemma render_calm texContent images y y' blocks n :
  extract_math (re_replace re_texorpdfstring (lit "$1") texContent) =
    (y, MathState blocks n) ->
  calm y = true -> calm y' = true ->
  strip re_blank_line y = y' ->
  silent re_dash_bullet [] y' ->
  parseAndRender texContent images = restore_math blocks (paragraphs (trim y')).
Proof.
  intros H0 Hy Hy' Hs Hd. unfold parseAndRender. rewrite H0. cbn [mathBlocks].
  calm_hyps Hy. calm_hyps Hy'.
  unfold strip_structure. repeat rewrite (@strip_silent _ y) by hush.
  unfold strip_figure_commands. repeat rewrite (@strip_silent _ y) by hush.
  unfold strip_widths, strip_048, strip_frac_textwidth.
  repeat rewrite (@strip_silent _ y) by hush.
  unfold strip_comments. rewrite (@strip_silent re_comment y) by hush.
  rewrite Hs.
  unfold title_block. repeat rewrite (@re_match_silent _ y') by hush.
  unfold strip_title_commands. repeat rewrite (@strip_silent _ y') by hush.
  unfold convert_footnotes. rewrite (@re_replace_silent _ _ y') by hush.
  unfold convert_headings. repeat rewrite (@re_replace_silent _ _ y') by hush.
  unfold convert_emphasis. repeat rewrite (@re_replace_silent _ _ y') by hush.
  unfold resolve_figures. rewrite (@re_replace_fn_silent _ _ y') by hush.
  unfold standalone_images. rewrite (@re_replace_fn_silent _ _ y') by hush.
  unfold convert_lists. repeat rewrite (@re_replace_fn_silent _ _ y') by hush.
  unfold convert_rules. rewrite (@re_replace_silent _ _ y') by hush.
  unfold convert_bullets. rewrite (@re_replace_fn_silent _ _ y') by exact Hd.
  unfold wrap_li_runs. rewrite (@re_replace_fn_silent _ _ y') by hush.
  unfold sweep. repeat rewrite (@strip_silent _ y') by hush.
  rewrite (@re_replace_silent _ _ y') by hush.
  reflexivity.
Qed.

(** The math passes on a calm text. *)
Lemma extract_math_calm x :
  calm x = true ->
  extract_math (re_replace re_texorpdfstring (lit "$1") x) = (x, MathState [] 0).
Proof.
  intros Hx. calm_hyps Hx.
  rewrite (@re_replace_silent _ _ x) by hush.
  unfold extract_math.
  repeat rewrite (@display_pass_silent _ x) by hush.
  now rewrite inline_pass_silent by hush.
Qed.

Lemma plain_calm x : plain x = true ->
  calm x = true /\ forallb (fun c => negb (is_line_terminator c)) x = true.
Proof. unfold plain. intros H. now apply andb_prop in H. Qed.

Lemma no_terminator_no_nl x :
  forallb (fun c => negb (is_line_terminator c)) x = true -> includes [nl] x = false.
Proof.
  intros H. rewrite includes_char.
  induction x as [|c t IH]; [reflexivity|]. cbn [forallb existsb] in *.
  apply andb_prop in H as [Hc Ht]. rewrite (IH Ht), orb_false_r.
  unfold eqc. apply N.eqb_neq. intros ->. discriminate Hc.
Qed.

Lemma starts_alnum_hd x :
  starts_alnum x = true -> x <> [] /\ N.eqb (hd 32%N x) 60 = false.
Proof.
  unfold starts_alnum. destruct x as [|c t]; [discriminate|]. cbn [hd].
  intros H. split; [discriminate|]. apply N.eqb_neq. intros ->. discriminate H.
Qed.

(** X16.  A line of plain prose (no trigger of any phase, no line
    break) that starts with a letter or a digit and does not end with
    white space is rendered as one paragraph element around its
    escaped text. *)
Theorem prose_line_is_one_paragraph x images :
  plain x = true -> starts_alnum x = true -> ends_space x = false ->
  parseAndRender x images = paragraph_of x.
Proof.
  intros Hp Ha He. destruct (plain_calm x Hp) as [Hc Hn].
  destruct (starts_alnum_hd x Ha) as [Hne Hh].
  rewrite (@render_calm x images x x [] 0).
  - cbn [restore_math fold_left]. rewrite trim_prose by assumption.
    apply paragraphs_one; try assumption.
    + now apply no_terminator_no_blank.
    + now apply trim_prose.
  - now apply extract_math_calm.
  - exact Hc.
  - exact Hc.
  - apply strip_silent. apply silent_blank_line. now apply no_terminator_no_nl.
  - now apply silent_dash_bullet_line.
Qed.

(** The hypotheses of X16 hold for a sentence with an ampersand and
    quotes. *)
Lemma prose_line_is_one_paragraph_witness :
  plain plain_prose = true
  /\ starts_alnum plain_prose = true
  /\ ends_space plain_prose = false
  /\ parseAndRender plain_prose one_image = paragraph_of plain_prose.
Proof.
  assert (H1 : plain plain_prose = true) by (vm_compute; reflexivity).
  assert (H2 : starts_alnum plain_prose = true) by reflexivity.
  assert (H3 : ends_space plain_prose = false) by reflexivity.
  split; [exact H1|]. split; [exact H2|]. split; [exact H3|].
  exact (@prose_line_is_one_paragraph plain_prose one_image H1 H2 H3).
Defined.

(** ** One occurrence in a text *)

Lemma replace_prefix_none r f : forall a pre rest,
  (forall a1 c a2, a = a1 ++ c :: a2 ->
     match_at r (rev a1 ++ pre) (c :: a2 ++ rest) = None) ->
  replace_loop r f 0 pre (a ++ rest) = a ++ replace_loop r f 0 (rev a ++ pre) rest.
Proof.
  induction a as [|c a IH]; intros pre rest H; [reflexivity|].
  cbn [app replace_loop].
  pose proof (H [] c a eq_refl) as H0. cbn [rev app] in H0. rewrite H0. f_equal.
  rewrite IH.
  - cbn [rev]. now rewrite <- app_assoc.
  - intros a1 d a2 E. specialize (H (c :: a1) d a2). cbn [rev app] in H.
    rewrite <- app_assoc in H. apply H. now rewrite E.
Qed.

Lemma replace_one r f a txt rest pre mt :
  (forall a1 c a2, a = a1 ++ c :: a2 ->
     match_at r (rev a1 ++ pre) (c :: a2 ++ txt ++ rest) = None) ->
  match_at r (rev a ++ pre) (txt ++ rest) = Some mt ->
  m_text mt = txt -> txt <> [] ->
  silent r (rev txt ++ rev a ++ pre) rest ->
  replace_loop r f 0 pre (a ++ txt ++ rest) = a ++ f mt ++ rest.
Proof.
  intros Ha Hm Ht Hne Hs. rewrite replace_prefix_none by exact Ha. f_equal.
  destruct txt as [|c t]; [congruence|]. cbn [app replace_loop].
  change (c :: t ++ rest) with ((c :: t) ++ rest). rewrite Hm, Ht. cbn [length].
  f_equal. rewrite replace_loop_skip by (rewrite length_app; lia).
  rewrite firstn_app_length, skipn_app_length.
  replace (rev t ++ c :: rev a ++ pre) with (rev (c :: t) ++ rev a ++ pre)
    by (cbn [rev]; now rewrite <- app_assoc).
  now apply replace_silent.
Qed.

Lemma replace_loop_st_skip (St : Type) r (f : rmatch -> St -> str * St) n :
  forall pre s sg, n <= length s ->
    replace_loop_st r f n pre s sg =
    replace_loop_st r f 0 (rev (firstn n s) ++ pre) (skipn n s) sg.
Proof.
  induction n as [|n IH]; intros pre s sg Hn; [reflexivity|].
  destruct s as [|c t]; simpl in Hn; [lia|].
  cbn [replace_loop_st firstn skipn rev]. rewrite IH by lia.
  now rewrite <- app_assoc.
Qed.

Lemma replace_st_prefix_none (St : Type) r (f : rmatch -> St -> str * St) :
  forall a pre rest sg,
  (forall a1 c a2, a = a1 ++ c :: a2 ->
     match_at r (rev a1 ++ pre) (c :: a2 ++ rest) = None) ->
  replace_loop_st r f 0 pre (a ++ rest) sg =
  (a ++ fst (replace_loop_st r f 0 (rev a ++ pre) rest sg),
   snd (replace_loop_st r f 0 (rev a ++ pre) rest sg)).
Proof.
  induction a as [|c a IH]; intros pre rest sg H.
  - cbn [app rev]. now destruct (replace_loop_st r f 0 pre rest sg).
  - cbn [app replace_loop_st].
    pose proof (H [] c a eq_refl) as H0. cbn [rev app] in H0. rewrite H0.
    rewrite IH.
    + cbn [rev]. now rewrite <- app_assoc.
    + intros a1 d a2 E. specialize (H (c :: a1) d a2). cbn [rev app] in H.
      rewrite <- app_assoc in H. apply H. now rewrite E.
Qed.

Lemma replace_st_one (St : Type) r (f : rmatch -> St -> str * St)
  a txt rest pre mt sg :
  (forall a1 c a2, a = a1 ++ c :: a2 ->
     match_at r (rev a1 ++ pre) (c :: a2 ++ txt ++ rest) = None) ->
  match_at r (rev a ++ pre) (txt ++ rest) = Some mt ->
  m_text mt = txt -> txt <> [] ->
  silent r (rev txt ++ rev a ++ pre) rest ->
  replace_loop_st r f 0 pre (a ++ txt ++ rest) sg =
  (a ++ fst (f mt sg) ++ rest, snd (f mt sg)).
Proof.
  intros Ha Hm Ht Hne Hs. rewrite replace_st_prefix_none by exact Ha.
  destruct txt as [|c t]; [congruence|]. cbn [app replace_loop_st].
  change (c :: t ++ rest) with ((c :: t) ++ rest). rewrite Hm, Ht. cbn [length].
  destruct (f mt sg) as [out sg1]. cbn [fst snd].
  rewrite replace_loop_st_skip by (rewrite length_app; lia).
  rewrite firstn_app_length, skipn_app_length.
  replace (rev t ++ c :: rev a ++ pre) with (rev (c :: t) ++ rev a ++ pre)
    by (cbn [rev]; now rewrite <- app_assoc).
  rewrite replace_st_silent by exact Hs. reflexivity.
Qed.

(** ** A blank line between two lines of prose *)

Lemma at_line_start_after a pre s cs :
  a <> [] -> forallb (fun c => negb (is_line_terminator c)) a = true ->
  at_line_start (MState (rev a ++ pre) s cs) = false.
Proof.
  intros Hne H. destruct (exists_last Hne) as [a' [z ->]].
  rewrite rev_app_distr. cbn [rev app]. unfold at_line_start. cbn [before].
  rewrite forallb_app in H. apply andb_prop in H as [_ H]. cbn [forallb] in H.
  rewrite andb_true_r in H. now apply negb_true_iff in H.
Qed.

Lemma run_of_alnum c t : is_alnum c = true ->
  take_while (fun c => negb (is_alnum c)) (c :: t) = [].
Proof. intros H. cbn [take_while]. now rewrite H. Qed.

Lemma blank_line_none_in_line a pre rest :
  forallb (fun c => negb (is_line_terminator c)) a = true ->
  starts_alnum a = true ->
  forall a1 c a2, a = a1 ++ c :: a2 ->
    match_at re_blank_line (rev a1 ++ pre) (c :: a2 ++ rest) = None.
Proof.
  intros Hn Ha a1 c a2 E. rewrite match_at_blank_line.
  destruct a1 as [|d a1].
  - cbn [app] in E. subst a. unfold starts_alnum in Ha. cbn [hd] in Ha.
    rewrite run_of_alnum by exact Ha. cbn [upto_last].
    match goal with |- (if ?b then _ else _) = _ => destruct b; reflexivity end.
  - rewrite at_line_start_after; [reflexivity | discriminate |].
    subst a. rewrite forallb_app in Hn. now apply andb_prop in Hn as [Hn _].
Qed.

Lemma strip_blank_between a b :
  forallb (fun c => negb (is_line_terminator c)) a = true ->
  forallb (fun c => negb (is_line_terminator c)) b = true ->
  starts_alnum a = true -> starts_alnum b = true ->
  strip re_blank_line (a ++ nl :: nl :: b) = a ++ nl :: b.
Proof.
  intros Ha Hb Sa Sb. unfold strip, re_replace, re_replace_fn.
  change (fun mt => expand (ngroups re_blank_line) mt [])
    with (fun _ : rmatch => @nil N).
  rewrite replace_prefix_none by (now apply blank_line_none_in_line).
  f_equal. rewrite app_nil_r.
  destruct (starts_alnum_hd a Sa) as [Hne _].
  cbn [replace_loop]. rewrite match_at_blank_line.
  rewrite <- (app_nil_r (rev a)) at 1.
  rewrite at_line_start_after by assumption. f_equal.
  cbn [replace_loop]. rewrite match_at_blank_line.
  unfold at_line_start at 1. cbn [before].
  change (is_line_terminator nl) with true. cbn iota.
  destruct b as [|c t]; [discriminate Sb|].
  unfold starts_alnum in Sb. cbn [hd] in Sb.
  cbn [take_while]. change (negb (is_alnum nl)) with true. cbn iota.
  rewrite Sb. cbn [negb upto_last]. rewrite N.eqb_refl.
  cbn [m_text length app skipn].
  pose proof (@replace_prefix_none re_blank_line (fun _ => []) (c :: t)
                (nl :: nl :: rev a) []) as R.
  rewrite !app_nil_r in R. rewrite R.
  - cbn [replace_loop]. rewrite match_at_blank_line. cbn [take_while upto_last].
    destruct (at_line_start _); now rewrite app_nil_r.
  - intros a1 d a2 E.
    pose proof (@blank_line_none_in_line (c :: t) (nl :: nl :: rev a) [] Hb Sb
                  a1 d a2 E) as G.
    exact G.
Qed.

Lemma forall_line_sep a b :
  forallb (fun c => negb (is_line_terminator c)) a = true ->
  forallb (fun c => negb (is_line_terminator c)) b = true ->
  no_blank false (a ++ nl :: b) = true.
Proof.
  intros Ha Hb. rewrite no_blank_app.
  rewrite (no_terminator_no_blank a false Ha). cbn [andb no_blank].
  rewrite N.eqb_refl.
  replace (ends_nl false a) with false.
  - cbn [negb andb]. now apply no_terminator_no_blank.
  - symmetry. destruct a as [|c t]; [reflexivity|].
    rewrite ends_nl_last by discriminate.
    apply N.eqb_neq. intros E.
    assert (Hl : is_line_terminator (last (c :: t) 32%N) = false).
    { destruct (@exists_last _ (c :: t)) as [a' [z Ez]]; [discriminate|].
      rewrite Ez in *. rewrite last_last. rewrite forallb_app in Ha.
      apply andb_prop in Ha as [_ Ha]. cbn [forallb] in Ha.
      rewrite andb_true_r in Ha. now apply negb_true_iff in Ha. }
    rewrite E in Hl. discriminate Hl.
Qed.

Lemma calm_nil_sep_nl : Forall (fun w => ~ In nl w) calm_triggers.
Proof.
  unfold calm_triggers. repeat constructor; cbn; intros H;
    repeat (destruct H as [H|H]; [discriminate H|]); exact H.
Qed.

Lemma last_app_cons (a : list N) c b d : last (a ++ c :: b) d = last (c :: b) d.
Proof. apply last_app_nonempty. discriminate. Qed.

(** X17.  Two lines of plain prose with a blank line between them,
    each starting with a letter or digit and the second not ending in
    white space, are rendered as one paragraph element: the blank-line
    rule of the comment phase has taken the empty line out before the
    paragraph step looks for it. *)
Theorem blank_line_does_not_part_paragraphs a b images :
  plain a = true -> plain b = true ->
  starts_alnum a = true -> starts_alnum b = true ->
  ends_space b = false ->
  parseAndRender (a ++ [nl; nl] ++ b) images = paragraph_of (a ++ [nl] ++ b).
Proof.
  intros Pa Pb Sa Sb Eb.
  destruct (plain_calm a Pa) as [Ca Na]. destruct (plain_calm b Pb) as [Cb Nb].
  cbn [app].
  assert (C1 : calm (a ++ nl :: b) = true)
    by (apply calm_sep; [apply calm_nil_sep_nl | assumption | assumption]).
  assert (C2 : calm (a ++ nl :: nl :: b) = true).
  { apply calm_sep; [apply calm_nil_sep_nl | assumption |].
    change (nl :: b) with ([] ++ nl :: b).
    apply calm_sep; [apply calm_nil_sep_nl | reflexivity | assumption]. }
  destruct (starts_alnum_hd a Sa) as [Hne Hh].
  destruct (starts_alnum_hd b Sb) as [Hnb _].
  assert (T : trim (a ++ nl :: b) = a ++ nl :: b).
  { apply trim_prose.
    - unfold starts_alnum in *. destruct a; [congruence | exact Sa].
    - unfold ends_space in *. rewrite last_app_cons.
      destruct b as [|c t]; [congruence|]. exact Eb. }
  rewrite (@render_calm _ images (a ++ nl :: nl :: b) (a ++ nl :: b) [] 0).
  - cbn [restore_math fold_left]. rewrite T.
    apply paragraphs_one.
    + now apply forall_line_sep.
    + destruct a; discriminate.
    + exact T.
    + destruct a; [congruence | exact Hh].
  - now apply extract_math_calm.
  - exact C2.
  - exact C1.
  - now apply strip_blank_between.
  - intros x y E. apply dash_bullet_none.
    + rewrite app_nil_r. intros Hr. apply rev_nil_inv in Hr. subst x.
      cbn [app] in E. subst y. apply dash_ahead_alnum.
      unfold starts_alnum in *. destruct a; [congruence | exact Sa].
    + intros t Hy. subst y.
      assert (Et : t = b).
      { clear - E Na Nb. revert x E. induction a as [|c a IH]; intros x E.
        - cbn [app] in E. destruct x as [|d x].
          + cbn [app] in E. congruence.
          + cbn [app] in E. inversion E; subst. exfalso.
            rewrite forallb_app in Nb. apply andb_prop in Nb as [_ Nb].
            discriminate Nb.
        - destruct x as [|d x]; cbn [app] in E.
          + inversion E; subst. discriminate Na.
          + inversion E; subst. cbn [forallb] in Na.
            apply andb_prop in Na as [_ Na]. now apply (IH Na x). }
      subst t. now apply dash_ahead_alnum.
Qed.

(** The hypotheses of X17 hold for two short sentences. *)
Lemma blank_line_does_not_part_paragraphs_witness :
  plain (lit "First one.") = true
  /\ plain (lit "Second one.") = true
  /\ starts_alnum (lit "First one.") = true
  /\ starts_alnum (lit "Second one.") = true
  /\ ends_space (lit "Second one.") = false
  /\ parseAndRender (lit "First one." ++ [nl; nl] ++ lit "Second one.") [] =
     paragraph_of (lit "First one." ++ [nl] ++ lit "Second one.").
Proof.
  assert (H1 : plain (lit "First one.") = true) by (vm_compute; reflexivity).
  assert (H2 : plain (lit "Second one.") = true) by (vm_compute; reflexivity).
  assert (H3 : starts_alnum (lit "First one.") = true) by reflexivity.
  assert (H4 : starts_alnum (lit "Second one.") = true) by reflexivity.
  assert (H5 : ends_space (lit "Second one.") = false) by reflexivity.
  repeat (split; [assumption|]).
  exact (@blank_line_does_not_part_paragraphs _ _ [] H1 H2 H3 H4 H5).
Defined.

(** ** Inline math in a line of prose *)

Lemma match_at_inline_math pre math post :
  math <> [] -> existsb (eqc dollar) math = false ->
  match_at re_inline_math pre (lit "$" ++ math ++ lit "$" ++ post) =
  Some (RMatch pre (lit "$" ++ math ++ lit "$") post [(1, math)]).
Proof.
  intros Hne Hd.
  assert (Hall : forallb (neqc (ch "$")) math = true).
  { clear Hne. induction math as [|c t IH]; [reflexivity|].
    cbn [existsb forallb] in *. apply orb_false_iff in Hd as [Hc Ht].
    rewrite (IH Ht), andb_true_r. unfold neqc, eqc, dollar in *.
    change (ch "$") with 36%N. now rewrite Hc. }
  destruct math as [|c T]; [congruence|]. clear Hne Hd.
  cbn [forallb] in Hall. apply andb_prop in Hall as [Hc Hall].
  unfold match_at, re_inline_math, L.
  rewrite m_Seq, m_Lit_of, strip_prefix_app.
  rewrite m_Seq, m_Group. unfold Plus, Not1.
  rewrite m_Seq. cbn [app]. rewrite m_Chr, Hc, m_Star. cbn [after].
  destruct (@take_while_all (neqc (ch "$")) T (ch "$") post Hall eq_refl)
    as [E1 E2].
  change (lit "$" ++ post) with (ch "$" :: post).
  rewrite (@star_class_run (m (Chr (neqc (ch "$")))) (neqc (ch "$")) false).
  - rewrite E1, E2. cbn [before after caps].
    rewrite m_Lit_of.
    change (strip_prefix (lit "$") (ch "$" :: post)) with (Some post).
    cbn [after caps].
    replace (lit "$" ++ c :: T ++ ch "$" :: post)
      with ((lit "$" ++ c :: T ++ lit "$") ++ post)
      by (rewrite <- app_assoc; cbn [app]; rewrite <- app_assoc; reflexivity).
    rewrite firstn_length_app.
    unfold passed. cbn [before].
    replace (rev T ++ c :: rev (lit "$") ++ pre)
      with (rev (c :: T) ++ (rev (lit "$") ++ pre))
      by (simpl; now rewrite <- app_assoc).
    now rewrite firstn_rev_app.
  - reflexivity.
  - intros b x t cs Hx. rewrite m_Lit_of. cbn [after].
    unfold neqc in Hx. change (lit "$") with [ch "$"].
    cbn [strip_prefix]. rewrite N.eqb_sym.
    now destruct (N.eqb x (ch "$")).
  - rewrite E1. simpl. rewrite length_app. simpl. lia.
Qed.

Lemma includes_longer w v : forall s,
  includes w s = false -> includes (w ++ v) s = false.
Proof.
  induction s as [|c t IH]; intros H; cbn [includes] in *;
    apply orb_false_iff in H as [H1 H2].
  - destruct (starts_with (w ++ v) []) eqn:E; [|reflexivity].
    apply starts_with_app in E. congruence.
  - rewrite (IH H2), orb_false_r.
    destruct (starts_with (w ++ v) (c :: t)) eqn:E; [|reflexivity].
    apply starts_with_app in E. congruence.
Qed.

Lemma existsb_includes c s : existsb (eqc c) s = false -> includes [c] s = false.
Proof. intros H. now rewrite includes_char. Qed.

(** No two dollars side by side around a payload. *)
Lemma includes_pair_sep d u v :
  existsb (eqc d) u = false ->
  N.eqb (hd 0%N v) d = false \/ v = [] ->
  includes [d; d] v = false ->
  includes [d; d] (u ++ d :: v) = false.
Proof.
  intros Hu Hv Hi. induction u as [|c u IH].
  - cbn [app includes]. rewrite Hi, orb_false_r.
    unfold starts_with. cbn [strip_prefix]. rewrite N.eqb_refl.
    destruct v as [|e v]; [reflexivity|]. destruct Hv as [Hv|Hv]; [|discriminate].
    cbn [hd] in Hv. rewrite (N.eqb_sym d e), Hv. reflexivity.
  - cbn [existsb] in Hu. apply orb_false_iff in Hu as [Hc Hu].
    cbn [app includes]. rewrite (IH Hu), orb_false_r.
    unfold starts_with. cbn [strip_prefix]. unfold eqc in Hc.
    rewrite (N.eqb_sym d c), Hc. reflexivity.
Qed.

Lemma no_char_no_pair d s : existsb (eqc d) s = false -> includes [d; d] s = false.
Proof.
  intros H. change [d; d] with ([d] ++ [d]). apply includes_longer.
  now apply existsb_includes.
Qed.

Lemma inline_pass_one a math b :
  existsb (eqc dollar) a = false -> existsb (eqc dollar) b = false ->
  math <> [] -> existsb (eqc dollar) math = false ->
  inline_pass (a ++ lit "$" ++ math ++ lit "$" ++ b, MathState [] 0) =
  (a ++ inline_key ++ b, MathState [(inline_key, inline_markup (trim math))] 1).
Proof.
  intros Ha Hb Hne Hm. unfold inline_pass, re_replace_st. cbn [fst snd].
  replace (a ++ lit "$" ++ math ++ lit "$" ++ b)
    with (a ++ (lit "$" ++ math ++ lit "$") ++ b)
    by (now rewrite <- !app_assoc).
  rewrite replace_st_one
    with (mt := RMatch (rev a ++ []) (lit "$" ++ math ++ lit "$") b [(1, math)]).
  - reflexivity.
  - intros a1 c a2 E. unfold re_inline_math, L.
    apply match_at_needs_literal.
    subst a. rewrite existsb_app in Ha. apply orb_false_iff in Ha as [_ Ha].
    cbn [existsb] in Ha. apply orb_false_iff in Ha as [Hc _].
    unfold starts_with. change (lit "$") with [dollar]. cbn [strip_prefix].
    unfold eqc in Hc. now rewrite (N.eqb_sym dollar c), Hc.
  - rewrite <- !app_assoc. now apply match_at_inline_math.
  - reflexivity.
  - discriminate.
  - apply opens_silent with (w := lit "$").
    + unfold re_inline_math, L. apply opens_with_seq.
    + now apply existsb_includes.
Qed.

Lemma calm_sep_underscore : Forall (fun w => ~ In underscore w) calm_triggers.
Proof.
  unfold calm_triggers. repeat constructor; cbn; intros H;
    repeat (destruct H as [H|H]; [discriminate H|]); exact H.
Qed.

Lemma calm_around_key a b :
  calm a = true -> calm b = true -> calm (a ++ inline_key ++ b) = true.
Proof.
  intros Ha Hb.
  change (a ++ inline_key ++ b)
    with (a ++ underscore :: lit "_MATH_INLINE_0_" ++ underscore :: b).
  apply calm_sep; [apply calm_sep_underscore | exact Ha |].
  apply calm_sep; [apply calm_sep_underscore | vm_compute; reflexivity | exact Hb].
Qed.

Lemma entity_no_underscore c :
  N.eqb c underscore = false -> existsb (eqc underscore) (entity c) = false.
Proof.
  intros H. entity_cases c; try reflexivity.
  cbn [existsb]. unfold eqc. now rewrite H.
Qed.

Lemma escapeHtml_no_underscore s :
  existsb (eqc underscore) s = false ->
  existsb (eqc underscore) (escapeHtml s) = false.
Proof.
  rewrite escapeHtml_flat_map. induction s as [|c t IH]; [reflexivity|].
  cbn [existsb flat_map]. intros H. apply orb_false_iff in H as [Hc Ht].
  rewrite existsb_app, (IH Ht), orb_false_r. now apply entity_no_underscore.
Qed.

Lemma existsb_trim c s : existsb (eqc c) s = false -> existsb (eqc c) (trim s) = false.
Proof.
  destruct (trim_infix s) as [a [b E]]. intros H. rewrite E in H.
  rewrite !existsb_app in H. apply orb_false_iff in H as [_ H].
  now apply orb_false_iff in H as [H _].
Qed.

Lemma restore_one u v value :
  existsb (eqc underscore) u = false -> existsb (eqc underscore) v = false ->
  existsb (eqc dollar) value = false ->
  restore_math [(inline_key, value)] (u ++ inline_key ++ v) = u ++ value ++ v.
Proof.
  intros Hu Hv Hd. unfold restore_math. cbn [fold_left fst snd].
  change (escapeHtml inline_key) with inline_key.
  unfold RegExp_of, re_replace, re_replace_fn.
  rewrite replace_one with (mt := RMatch (rev u ++ []) inline_key v []).
  - now rewrite expand_without_dollar.
  - intros a1 c a2 E. rewrite match_at_Lit_of.
    subst u. rewrite existsb_app in Hu. apply orb_false_iff in Hu as [_ Hu].
    cbn [existsb] in Hu. apply orb_false_iff in Hu as [Hc _].
    unfold inline_key. change (lit "__MATH_INLINE_0__")
      with (underscore :: lit "_MATH_INLINE_0__").
    cbn [strip_prefix]. unfold eqc in Hc.
    now rewrite (N.eqb_sym underscore c), Hc.
  - rewrite match_at_Lit_of, strip_prefix_app. reflexivity.
  - reflexivity.
  - discriminate.
  - apply opens_silent with (w := [underscore]).
    + apply (@opens_with_shorter [underscore] (lit "_MATH_INLINE_0__")).
      apply opens_with_lit.
    + now apply existsb_includes.
Qed.

Lemma attribute_plain_no_quote s :
  attribute_plain s = true -> existsb (eqc dq) s = false.
Proof.
  unfold attribute_plain. induction s as [|c t IH]; intros H; [reflexivity|].
  cbn [forallb existsb] in *. apply andb_prop in H as [Hc Ht].
  rewrite (IH Ht). apply negb_true_iff in Hc.
  apply orb_false_iff in Hc as [Hc _]. apply orb_false_iff in Hc as [Hc _].
  apply orb_false_iff in Hc as [Hc _]. unfold eqc, dq. now rewrite Hc.
Qed.

(** X18.  Inline math in a line of plain prose that starts with a
    letter or digit and does not end in white space: the text around
    the math is escaped, the math stands in the paragraph as the
    element of its placeholder, and the element hands the math,
    without the white space at its ends, to the renderer when it holds
    no double quote, ampersand, carriage return or null character. *)
Theorem inline_math_in_prose a math b images :
  plain a = true -> plain b = true ->
  starts_alnum a = true -> ends_space b = false ->
  existsb (eqc underscore) (a ++ b) = false ->
  inline_payload math = true ->
  parseAndRender (a ++ lit "$" ++ math ++ lit "$" ++ b) images =
    tpl "<p class=`mb-4 leading-relaxed text-gray-200`>" ++ escapeHtml a ++
    inline_markup (trim math) ++ escapeHtml b ++ lit "</p>"
  /\ (attribute_plain math = true ->
      data_math (inline_markup (trim math)) = Some (trim math)).
Proof.
  intros Pa Pb Sa Eb Hu Hm.
  split; [|intros Hq; apply data_math_reads_back; apply existsb_trim;
           now apply attribute_plain_no_quote].
  destruct (plain_calm a Pa) as [Ca Na]. destruct (plain_calm b Pb) as [Cb Nb].
  rewrite existsb_app in Hu. apply orb_false_iff in Hu as [Ua Ub].
  unfold inline_payload in Hm.
  repeat match type of Hm with
         | (_ && _)%bool = true =>
             let H := fresh "Hm" in apply andb_prop in Hm as [Hm H]
         end.
  apply nonempty_true in Hm.
  repeat match goal with
         | H : negb _ = true |- _ => apply negb_true_iff in H
         end.
  rename Hm0 into Mt, Hm1 into Mb, Hm2 into Mk, Hm3 into Md.
  destruct (starts_alnum_hd a Sa) as [Hne Hh].
  pose proof Ca as Ca'. pose proof Cb as Cb'. calm_hyps Ca'. calm_hyps Cb'.
  assert (Da : existsb (eqc dollar) a = false)
    by (now rewrite <- includes_char).
  assert (Db : existsb (eqc dollar) b = false)
    by (now rewrite <- includes_char).
  set (x := a ++ lit "$" ++ math ++ lit "$" ++ b).
  assert (Ex : x = a ++ dollar :: math ++ dollar :: b) by reflexivity.
  assert (Sep : forall w, ~ In dollar (lit "\" ++ w) ->
                  includes (lit "\" ++ w) math = false ->
                  includes (lit "\" ++ w) x = false).
  { intros w Hw Hi. rewrite Ex.
    rewrite includes_sep by (exact Hw || discriminate).
    rewrite includes_sep by (exact Hw || discriminate).
    rewrite Hi. rewrite !includes_longer by assumption. reflexivity. }
  assert (X1 : includes (lit "\texorpdfstring{") x = false).
  { apply (Sep (lit "texorpdfstring{")); [|exact Mt].
    cbn. intros H. repeat (destruct H as [H|H]; [discriminate H|]). exact H. }
  assert (X2 : includes (lit "\[") x = false).
  { apply (Sep (lit "[")); [|exact Mk].
    cbn. intros H. repeat (destruct H as [H|H]; [discriminate H|]). exact H. }
  assert (X3 : includes (lit "\begin{") x = false).
  { apply (Sep (lit "begin{")); [|exact Mb].
    cbn. intros H. repeat (destruct H as [H|H]; [discriminate H|]). exact H. }
  assert (X4 : includes (lit "$$") x = false).
  { rewrite Ex. change (lit "$$") with [dollar; dollar].
    apply includes_pair_sep; [exact Da | |].
    - left. destruct math as [|c t]; [congruence|]. cbn [app hd].
      cbn [existsb] in Md. apply orb_false_iff in Md as [Hx _]. exact Hx.
    - apply includes_pair_sep; [exact Md | |].
      + destruct b as [|c t]; [now right | left]. cbn [hd].
        cbn [existsb] in Db. apply orb_false_iff in Db as [Hx _]. exact Hx.
      + now apply no_char_no_pair. }
  assert (E0 : extract_math (re_replace re_texorpdfstring (lit "$1") x) =
               (a ++ inline_key ++ b,
                MathState [(inline_key, inline_markup (trim math))] 1)).
  { rewrite (@re_replace_silent _ _ x) by hush.
    unfold extract_math.
    repeat rewrite (@display_pass_silent _ x) by hush.
    now apply inline_pass_one. }
  set (y := a ++ inline_key ++ b).
  assert (Ny : forallb (fun c => negb (is_line_terminator c)) y = true).
  { unfold y. rewrite !forallb_app, Na, Nb. reflexivity. }
  assert (Sy : starts_alnum y = true).
  { unfold y, starts_alnum in *. destruct a; [congruence | exact Sa]. }
  assert (Ey : ends_space y = false).
  { unfold y, ends_space in *. rewrite app_assoc.
    destruct b as [|c t].
    - rewrite app_nil_r.
      change inline_key with (lit "__MATH_INLINE_0_" ++ [underscore]).
      rewrite app_assoc. now rewrite last_last.
    - now rewrite last_app_cons. }
  rewrite (@render_calm x images y y _ _ E0).
  - rewrite (@trim_prose y Sy Ey).
    rewrite paragraphs_one.
    + unfold paragraph_of, y. rewrite !(proj1 (escapeHtml_pieces _ _ [])).
      change (escapeHtml inline_key) with inline_key.
      replace (tpl "<p class=`mb-4 leading-relaxed text-gray-200`>" ++
               (escapeHtml a ++ inline_key ++ escapeHtml b) ++ lit "</p>")
        with ((tpl "<p class=`mb-4 leading-relaxed text-gray-200`>" ++ escapeHtml a)
              ++ inline_key ++ (escapeHtml b ++ lit "</p>"))
        by (now rewrite <- !app_assoc).
      rewrite restore_one.
      * now rewrite <- !app_assoc.
      * rewrite existsb_app. now rewrite escapeHtml_no_underscore.
      * rewrite existsb_app. now rewrite escapeHtml_no_underscore.
      * unfold inline_markup. rewrite !existsb_app.
        rewrite (existsb_trim _ _ Md). reflexivity.
    + now apply no_terminator_no_blank.
    + destruct (starts_alnum_hd y Sy) as [N0 _]. exact N0.
    + now apply trim_prose.
    + destruct (starts_alnum_hd y Sy) as [_ N1]. exact N1.
  - now apply calm_around_key.
  - now apply calm_around_key.
  - apply strip_silent. apply silent_blank_line. now apply no_terminator_no_nl.
  - now apply silent_dash_bullet_line.
Qed.

(** The hypotheses of X18 hold for a sentence with a formula. *)
Lemma inline_math_in_prose_witness :
  plain (lit "Energy ") = true
  /\ plain (lit " is conserved & known.") = true
  /\ starts_alnum (lit "Energy ") = true
  /\ ends_space (lit " is conserved & known.") = false
  /\ existsb (eqc underscore) (lit "Energy " ++ lit " is conserved & known.") = false
  /\ inline_payload (lit " E = mc^2 ") = true
  /\ parseAndRender
       (lit "Energy " ++ lit "$" ++ lit " E = mc^2 " ++ lit "$" ++
        lit " is conserved & known.") [] =
     tpl "<p class=`mb-4 leading-relaxed text-gray-200`>" ++
     escapeHtml (lit "Energy ") ++ inline_markup (trim (lit " E = mc^2 ")) ++
     escapeHtml (lit " is conserved & known.") ++ lit "</p>"
  /\ attribute_plain (lit " E = mc^2 ") = true
  /\ data_math (inline_markup (trim (lit " E = mc^2 "))) =
     Some (trim (lit " E = mc^2 ")).
Proof.
  assert (H1 : plain (lit "Energy ") = true) by (vm_compute; reflexivity).
  assert (H2 : plain (lit " is conserved & known.") = true)
    by (vm_compute; reflexivity).
  assert (H3 : starts_alnum (lit "Energy ") = true) by reflexivity.
  assert (H4 : ends_space (lit " is conserved & known.") = false) by reflexivity.
  assert (H5 : existsb (eqc underscore)
                 (lit "Energy " ++ lit " is conserved & known.") = false)
    by reflexivity.
  assert (H6 : inline_payload (lit " E = mc^2 ") = true) by reflexivity.
  assert (H7 : attribute_plain (lit " E = mc^2 ") = true) by reflexivity.
  pose proof (@inline_math_in_prose _ _ _ [] H1 H2 H3 H4 H5 H6) as [E1 E2].
  repeat (split; [assumption|]). exact (E2 H7).
Defined.

(** ** The table of the math passes *)

Lemma lit_injective a b : lit a = lit b -> a = b.
Proof.
  unfold lit. revert b. induction a as [|x a IH]; intros [|y b] H;
    cbn [list_ascii_of_string map] in H; try discriminate; [reflexivity|].
  inversion H as [[Hx Ht]]. f_equal; [|now apply IH].
  apply (f_equal ascii_of_N) in Hx. now rewrite !ascii_N_embedding in Hx.
Qed.

Lemma of_nat_injective i j : of_nat i = of_nat j -> i = j.
Proof.
  unfold of_nat. intros H. apply lit_injective in H.
  apply (f_equal NilEmpty.uint_of_string) in H.
  rewrite !NilEmpty.usu in H. inversion H as [H0].
  apply (f_equal Nat.of_uint) in H0. now rewrite !Unsigned.of_to in H0.
Qed.

Lemma math_key_injective d e i j : math_key d i = math_key e j -> i = j.
Proof.
  unfold math_key. destruct d, e; intros H.
  - apply app_inv_head in H. apply app_inv_tail in H. now apply of_nat_injective.
  - cbn in H. discriminate H.
  - cbn in H. discriminate H.
  - apply app_inv_head in H. apply app_inv_tail in H. now apply of_nat_injective.
Qed.

Lemma mint_table_ok (display : bool) markup mt sg :
  table_ok sg ->
  table_ok (snd (mint (if display then lit "__MATH_DISPLAY_" else lit "__MATH_INLINE_")
                   markup mt sg)).
Proof.
  intros [Hl [Hd Hk]]. unfold mint. cbn [snd].
  fold (math_key display (mathCounter sg)).
  set (key := math_key display (mathCounter sg)).
  set (v := markup (trim (or_empty (group 1 mt)))).
  assert (Fresh : ~ In key (map fst (mathBlocks sg))).
  { intros Hin. apply in_map_iff in Hin as [kv [Ek Hin]].
    rewrite Forall_forall in Hk. destruct (Hk kv Hin) as [e [i [Hi Ei]]].
    rewrite Ei in Ek. apply math_key_injective in Ek. lia. }
  unfold table_ok. cbn [mathBlocks mathCounter].
  rewrite obj_set_new by exact Fresh. repeat split.
  - rewrite length_app. cbn [length]. lia.
  - rewrite map_app. cbn [map fst]. apply NoDup_app; [exact Hd | | ].
    + constructor; [intros [] | constructor].
    + intros x Hx [Hy|[]]. subst x. contradiction.
  - apply Forall_app. split.
    + eapply Forall_impl; [|exact Hk]. intros kv [e [i [Hi Ei]]].
      exists e, i. split; [lia | exact Ei].
    + constructor; [|constructor]. exists display, (mathCounter sg).
      split; [lia | reflexivity].
Qed.

Lemma replace_st_invariant (St : Type) (P : St -> Prop) r
  (f : rmatch -> St -> str * St) :
  (forall mt sg, P sg -> P (snd (f mt sg))) ->
  forall s n pre sg, P sg -> P (snd (replace_loop_st r f n pre s sg)).
Proof.
  intros Hf. induction s as [|c t IH]; intros n pre sg Hsg.
  - destruct n; cbn [replace_loop_st]; [|exact Hsg].
    destruct (match_at r pre []) as [mt|]; [|exact Hsg].
    specialize (Hf mt sg Hsg). now destruct (f mt sg).
  - destruct n as [|n]; cbn [replace_loop_st]; [|now apply IH].
    destruct (match_at r pre (c :: t)) as [mt|].
    + specialize (Hf mt sg Hsg). destruct (f mt sg) as [out sg1]. cbn [snd] in Hf.
      destruct (length (m_text mt)) as [|k].
      * specialize (IH 0 (c :: pre) sg1 Hf).
        now destruct (replace_loop_st r f 0 (c :: pre) t sg1).
      * specialize (IH k (c :: pre) sg1 Hf).
        now destruct (replace_loop_st r f k (c :: pre) t sg1).
    + specialize (IH 0 (c :: pre) sg Hsg).
      now destruct (replace_loop_st r f 0 (c :: pre) t sg).
Qed.

Lemma display_pass_table_ok r x :
  table_ok (snd x) -> table_ok (snd (display_pass r x)).
Proof.
  intros H. unfold display_pass, re_replace_st.
  apply replace_st_invariant; [|exact H].
  intros mt sg Hsg. exact (@mint_table_ok true display_markup mt sg Hsg).
Qed.

Lemma inline_pass_table_ok x :
  table_ok (snd x) -> table_ok (snd (inline_pass x)).
Proof.
  intros H. unfold inline_pass, re_replace_st.
  apply replace_st_invariant; [|exact H].
  intros mt sg Hsg. exact (@mint_table_ok false inline_markup mt sg Hsg).
Qed.

(** X19.  Every piece of math that the eight math passes take out of
    a text has an entry of its own in the table: the table has as many
    entries as the counter counts, no key stands twice in it, and
    every key is a display key or an inline key with a number below
    the counter. *)
Theorem math_table_has_one_entry_per_piece html :
  let sg := snd (extract_math html) in
  length (mathBlocks sg) = mathCounter sg
  /\ NoDup (map fst (mathBlocks sg))
  /\ Forall (fun kv => exists display i,
                 i < mathCounter sg /\ fst kv = math_key display i)
       (mathBlocks sg).
Proof.
  intros sg. subst sg. unfold extract_math.
  apply inline_pass_table_ok.
  repeat apply display_pass_table_ok.
  cbn [snd]. repeat split; [constructor | constructor].
Qed.

(** ** Commands with one argument *)

(** The replacement pattern for the first capture, between two texts
    without a dollar. *)
Lemma expand_dollar1 mt before_ after_ :
  existsb (eqc dollar) before_ = false ->
  existsb (eqc dollar) after_ = false ->
  is_digit (hd 0%N after_) = false ->
  expand 1 mt (before_ ++ lit "$1" ++ after_) =
  before_ ++ or_empty (group 1 mt) ++ after_.
Proof.
  intros Hb Ha Hd. induction before_ as [|c t IH].
  - cbn [app]. change (lit "$1" ++ after_) with (36%N :: 49%N :: after_).
    cbn [expand]. change (N.eqb 36 36) with true. cbn [negb].
    change (N.eqb 49 36) with false. change (N.eqb 49 38) with false.
    change (N.eqb 49 96) with false. change (N.eqb 49 39) with false.
    change (is_digit 49) with true. cbn iota.
    destruct after_ as [|d2 t2]; [now rewrite app_nil_r|].
    cbn [hd] in Hd. rewrite Hd. cbn [andb].
    unfold cap_or_ref. change (digit_val 49) with 1. cbn [Nat.leb andb].
    now rewrite expand_without_dollar by exact Ha.
  - cbn [existsb] in Hb. apply orb_false_iff in Hb as [Hc Ht].
    cbn [app expand]. unfold eqc, dollar in Hc. rewrite Hc. cbn [negb].
    now rewrite (IH Ht).
Qed.

Lemma opens_with_seq2 w1 w2 r :
  opens_with (w1 ++ w2) (Lit_of w1 ;; Lit_of w2 ;; r).
Proof.
  intros pre s H. unfold match_at. rewrite m_Seq, m_Lit_of.
  destruct (strip_prefix w1 s) as [t|] eqn:E1; [|reflexivity].
  rewrite m_Seq, m_Lit_of.
  destruct (strip_prefix w2 t) as [u|] eqn:E2; [|reflexivity].
  exfalso. apply strip_prefix_Some in E1. apply strip_prefix_Some in E2.
  subst s t. unfold starts_with in H.
  rewrite app_assoc, strip_prefix_app in H. discriminate H.
Qed.

(** A word that starts with a backslash, in a text whose one backslash
    is its first character. *)
Lemma includes_bs w x :
  existsb (eqc 92%N) x = false ->
  includes (92%N :: w) (92%N :: x) = starts_with (92%N :: w) (92%N :: x).
Proof.
  intros H. cbn [includes].
  change (92%N :: w) with ([92%N] ++ w) at 2.
  rewrite includes_longer by (now apply existsb_includes).
  apply orb_false_r.
Qed.

Lemma no_backslash_silent r w pre x :
  opens_with (92%N :: w) r -> existsb (eqc 92%N) x = false -> silent r pre x.
Proof.
  intros Ho H. apply (opens_silent pre Ho).
  change (92%N :: w) with ([92%N] ++ w).
  apply includes_longer. now apply existsb_includes.
Qed.

Lemma m_Opt a k st :
  m (Opt a) k st =
  match m a (fun st' => if progressed st st' then k st' else None) st with
  | Some x => Some x
  | None => k st
  end.
Proof. reflexivity. Qed.

(** The pattern of a heading on a heading, with or without the star. *)
Lemma match_at_heading name (star : bool) pre T post :
  T <> [] -> forallb (neqc (ch "}")) T = true ->
  match_at (re_heading name) pre
    (lit "\" ++ lit name ++ (if star then lit "*" else []) ++ lit "{" ++ T ++
     lit "}" ++ post) =
  Some (RMatch pre
          (lit "\" ++ lit name ++ (if star then lit "*" else []) ++ lit "{" ++ T ++
           lit "}") post [(1, T)]).
Proof.
  intros HT Hall. destruct T as [|c T]; [congruence|]. clear HT.
  cbn [forallb] in Hall. apply andb_prop in Hall as [Hc Hall].
  destruct (@take_while_all (neqc (ch "}")) T (ch "}") post Hall eq_refl)
    as [E1 E2].
  assert (K : forall b,
    m (L "{" ;; Group 1 (Plus true (Not1 "}")) ;; L "}") Some
      (MState b (lit "{" ++ (c :: T) ++ lit "}" ++ post) []) =
    Some (MState (rev (lit "{" ++ (c :: T) ++ lit "}") ++ b) post [(1, c :: T)])).
  { intros b. unfold L. rewrite m_Seq, m_Lit_of, strip_prefix_app.
    rewrite m_Seq, m_Group. unfold Plus, Not1.
    rewrite m_Seq. cbn [app]. rewrite m_Chr, Hc, m_Star. cbn [after].
    change (lit "}" ++ post) with (ch "}" :: post).
    rewrite (@star_class_run (m (Chr (neqc (ch "}")))) (neqc (ch "}")) true).
    - rewrite E1, E2. cbn [before after caps]. rewrite m_Lit_of.
      change (strip_prefix (lit "}") (ch "}" :: post)) with (Some post).
      assert (B : rev (lit "}") ++ rev T ++ c :: rev (lit "{") ++ b =
                  rev (lit "{" ++ (c :: T) ++ lit "}") ++ b).
      { rewrite !rev_app_distr. cbn [rev app]. rewrite <- !app_assoc.
        cbn [app]. reflexivity. }
      rewrite B. unfold passed. cbn [before].
      replace (rev T ++ c :: rev (lit "{") ++ b)
        with (rev (c :: T) ++ (rev (lit "{") ++ b))
        by (simpl; now rewrite <- app_assoc).
      now rewrite firstn_rev_app.
    - reflexivity.
    - intros b' x t cs Hx. rewrite m_Lit_of. cbn [after].
      unfold neqc in Hx. change (lit "}") with [ch "}"].
      cbn [strip_prefix]. rewrite N.eqb_sym. now destruct (N.eqb x (ch "}")).
    - rewrite E1. simpl. rewrite length_app. simpl. lia. }
  unfold match_at, re_heading.
  unfold L at 1. rewrite m_Seq, m_Lit_of, strip_prefix_app.
  unfold L at 1. rewrite m_Seq, m_Lit_of, strip_prefix_app.
  rewrite m_Seq, m_Opt.
  destruct star.
  - unfold L at 1. rewrite m_Lit_of, strip_prefix_app.
    unfold progressed. cbn [after].
    replace (Nat.ltb _ _) with true
      by (symmetry; apply Nat.ltb_lt; rewrite !length_app; simpl; lia).
    rewrite (K _). cbn [after caps]. f_equal.
    set (whole := lit "\" ++ lit name ++ lit "*" ++ lit "{" ++ (c :: T) ++ lit "}").
    replace (lit "\" ++ lit name ++ lit "*" ++ lit "{" ++ (c :: T) ++ lit "}" ++ post)
      with (whole ++ post) by (unfold whole; now rewrite <- !app_assoc).
    now rewrite firstn_length_app.
  - cbn [app]. unfold L at 1. rewrite m_Lit_of.
    change (strip_prefix (lit "*") (lit "{" ++ c :: T ++ lit "}" ++ post))
      with (@None (list N)).
    pose proof (K (rev (lit name) ++ rev (lit "\") ++ pre)) as K0.
    cbn [app] in K0. rewrite K0. cbn [after caps]. f_equal.
    set (whole := lit "\" ++ lit name ++ lit "{" ++ (c :: T) ++ lit "}").
    replace (lit "\" ++ lit name ++ lit "{" ++ c :: T ++ lit "}" ++ post)
      with (whole ++ post) by (unfold whole; now rewrite <- !app_assoc).
    now rewrite firstn_length_app.
Qed.

Lemma silent_nil_literal w r pre : w <> [] -> silent (Lit_of w ;; r) pre [].
Proof.
  intros Hw a b E. symmetry in E. apply app_eq_nil in E as [-> ->].
  apply match_at_needs_literal. now apply starts_with_nil_false.
Qed.

Lemma heading_replace name star T open_ close_ :
  ngroups (re_heading name) = 1 ->
  T <> [] -> forallb (neqc (ch "}")) T = true ->
  existsb (eqc dollar) open_ = false -> existsb (eqc dollar) close_ = false ->
  is_digit (hd 0%N close_) = false ->
  re_replace (re_heading name) (open_ ++ lit "$1" ++ close_)
    (heading_command name star T) = open_ ++ T ++ close_.
Proof.
  intros Hg HT Hall Ho Hc Hd. unfold re_replace, re_replace_fn. rewrite Hg.
  pose proof (@match_at_heading name star [] T [] HT Hall) as M.
  rewrite !app_nil_r in M. fold (heading_command name star T) in M.
  pose proof (@replace_one (re_heading name)
                (fun mt => expand 1 mt (open_ ++ lit "$1" ++ close_))
                [] (heading_command name star T) [] []
                (RMatch [] (heading_command name star T) [] [(1, T)])) as R.
  cbn [app rev] in R. rewrite !app_nil_r in R. rewrite R; clear R.
  - rewrite expand_dollar1 by assumption. reflexivity.
  - intros a1 c a2 E. destruct a1; discriminate E.
  - exact M.
  - reflexivity.
  - unfold heading_command. discriminate.
  - unfold re_heading, L. apply silent_nil_literal. discriminate.
Qed.

Lemma heading_silent name other star T pre :
  existsb (eqc 92%N) T = false ->
  starts_with (lit "\" ++ lit other) (heading_command name star T) = false ->
  existsb (eqc 92%N) (lit name) = false ->
  silent (re_heading other) pre (heading_command name star T).
Proof.
  intros HT Hs Hn. apply (@opens_silent (lit "\" ++ lit other)).
  - unfold re_heading, L. apply opens_with_seq2.
  - unfold heading_command in *. change (lit "\") with [92%N] in *.
    cbn [app] in *. rewrite includes_bs; [exact Hs|].
    rewrite !existsb_app, Hn, HT. now destruct star.
Qed.

(** X20.  The heading phase turns a sectioning command, starred or
    not, into the heading element of its level, and puts the argument
    into it as it is written, without escaping it. *)
Theorem headings_become_elements (star : bool) T :
  T <> [] -> forallb (neqc (ch "}")) T = true ->
  existsb (eqc 92%N) T = false ->
  convert_headings (heading_command "section" star T) =
    tpl "<h2 class=`text-3xl font-bold mt-10 mb-5 text-white border-b border-orange-500/50 pb-2`>"
    ++ T ++ lit "</h2>"
  /\ convert_headings (heading_command "subsection" star T) =
    tpl "<h3 class=`text-2xl font-semibold mt-8 mb-4 text-gray-100`>" ++ T ++ lit "</h3>"
  /\ convert_headings (heading_command "subsubsection" star T) =
    tpl "<h4 class=`text-xl font-semibold mt-6 mb-3 text-gray-200`>" ++ T ++ lit "</h4>".
Proof.
  intros HT Hall Hb.
  assert (Q : forall name open_ close_,
             existsb (eqc 92%N) open_ = false -> existsb (eqc 92%N) close_ = false ->
             silent (re_heading name) [] (open_ ++ T ++ close_)).
  { intros name open_ close_ Ho Hc.
    apply no_backslash_silent with (w := lit name).
    - unfold re_heading, L. change (92%N :: lit name) with (lit "\" ++ lit name).
      apply opens_with_seq2.
    - now rewrite !existsb_app, Ho, Hb, Hc. }
  unfold convert_headings. repeat split.
  - change (tpl "<h2 class=`text-3xl font-bold mt-10 mb-5 text-white border-b border-orange-500/50 pb-2`>$1</h2>")
      with (tpl "<h2 class=`text-3xl font-bold mt-10 mb-5 text-white border-b border-orange-500/50 pb-2`>"
            ++ lit "$1" ++ lit "</h2>").
    rewrite heading_replace by (assumption || reflexivity).
    rewrite (@re_replace_silent (re_heading "subsection") _ (_ ++ T ++ _))
      by (apply Q; reflexivity).
    now rewrite (@re_replace_silent (re_heading "subsubsection") _ (_ ++ T ++ _))
      by (apply Q; reflexivity).
  - rewrite (@re_replace_silent (re_heading "section"))
      by (apply heading_silent; [exact Hb | now destruct star | reflexivity]).
    change (tpl "<h3 class=`text-2xl font-semibold mt-8 mb-4 text-gray-100`>$1</h3>")
      with (tpl "<h3 class=`text-2xl font-semibold mt-8 mb-4 text-gray-100`>"
            ++ lit "$1" ++ lit "</h3>").
    rewrite heading_replace by (assumption || reflexivity).
    now rewrite (@re_replace_silent (re_heading "subsubsection") _ (_ ++ T ++ _))
      by (apply Q; reflexivity).
  - rewrite (@re_replace_silent (re_heading "section"))
      by (apply heading_silent; [exact Hb | now destruct star | reflexivity]).
    rewrite (@re_replace_silent (re_heading "subsection"))
      by (apply heading_silent; [exact Hb | now destruct star | reflexivity]).
    change (tpl "<h4 class=`text-xl font-semibold mt-6 mb-3 text-gray-200`>$1</h4>")
      with (tpl "<h4 class=`text-xl font-semibold mt-6 mb-3 text-gray-200`>"
            ++ lit "$1" ++ lit "</h4>").
    now rewrite heading_replace by (assumption || reflexivity).
Qed.

(** The hypotheses of X20 hold for a title with an ampersand. *)
Lemma headings_become_elements_witness :
  lit "Data & Methods" <> []
  /\ forallb (neqc (ch "}")) (lit "Data & Methods") = true
  /\ existsb (eqc 92%N) (lit "Data & Methods") = false
  /\ convert_headings (heading_command "section" true (lit "Data & Methods")) =
     tpl "<h2 class=`text-3xl font-bold mt-10 mb-5 text-white border-b border-orange-500/50 pb-2`>"
     ++ lit "Data & Methods" ++ lit "</h2>".
Proof.
  assert (H1 : lit "Data & Methods" <> []) by discriminate.
  assert (H2 : forallb (neqc (ch "}")) (lit "Data & Methods") = true) by reflexivity.
  assert (H3 : existsb (eqc 92%N) (lit "Data & Methods") = false) by reflexivity.
  repeat (split; [assumption|]).
  exact (proj1 (@headings_become_elements true _ H1 H2 H3)).
Defined.

(** ** Lists *)

Lemma match_at_item pre s :
  match_at re_item pre s =
  match strip_prefix (lit "\item") s with
  | Some t => Some (RMatch pre (lit "\item" ++ take_while is_space t)
                      (drop_while is_space t) [])
  | None => None
  end.
Proof.
  unfold match_at, re_item, L. rewrite m_Seq, m_Lit_of.
  destruct (strip_prefix (lit "\item") s) as [t|] eqn:E; [|reflexivity].
  apply strip_prefix_Some in E. subst s.
  rewrite m_Star. unfold Ws. cbn [after].
  rewrite (@star_class_greedy_all (m (Chr is_space)) is_space)
    by (try reflexivity; pose proof (take_while_length is_space t); lia).
  cbn [after caps]. f_equal. f_equal.
  replace (lit "\item" ++ t)
    with ((lit "\item" ++ take_while is_space t) ++ drop_while is_space t)
    by (rewrite <- app_assoc; now rewrite take_drop_while).
  apply firstn_length_app.
Qed.

Lemma split_loop_skip r n : forall pre cur s, n <= length s -> skipn n s <> [] ->
  split_loop r n pre cur s = split_loop r 0 (rev (firstn n s) ++ pre) cur (skipn n s).
Proof.
  induction n as [|n IH]; intros pre cur s Hn Hs; [reflexivity|].
  destruct s as [|c t]; simpl in Hn; [lia|].
  cbn [split_loop firstn skipn rev]. cbn [skipn] in Hs.
  rewrite IH by (lia || exact Hs). now rewrite <- app_assoc.
Qed.

Lemma split_through t : forall rest cur pre,
  existsb (eqc 92%N) t = false ->
  rest <> [] ->
  split_loop re_item 0 pre cur (t ++ rest) =
  split_loop re_item 0 (rev t ++ pre) (rev t ++ cur) rest.
Proof.
  induction t as [|c t IH]; intros rest cur pre H Hr; [reflexivity|].
  cbn [existsb] in H. apply orb_false_iff in H as [Hc Ht].
  cbn [app split_loop]. rewrite match_at_item.
  change (lit "\item") with (92%N :: lit "item"). cbn [strip_prefix].
  unfold eqc in Hc. rewrite (N.eqb_sym 92 c), Hc.
  rewrite IH by assumption. cbn [rev]. now rewrite <- !app_assoc.
Qed.

Lemma split_to_end t : forall cur pre,
  existsb (eqc 92%N) t = false ->
  split_loop re_item 0 pre cur t = [rev cur ++ t].
Proof.
  induction t as [|c t IH]; intros cur pre H.
  - cbn [split_loop]. now rewrite app_nil_r.
  - cbn [existsb] in H. apply orb_false_iff in H as [Hc Ht].
    cbn [split_loop]. rewrite match_at_item.
    change (lit "\item") with (92%N :: lit "item"). cbn [strip_prefix].
    unfold eqc in Hc. rewrite (N.eqb_sym 92 c), Hc.
    rewrite IH by assumption. cbn [rev]. now rewrite <- app_assoc.
Qed.

Lemma item_ok_parts t :
  item_ok t = true ->
  t <> [] /\ trim t = t /\ existsb (eqc 92%N) t = false /\ is_space (hd 32%N t) = false.
Proof.
  unfold item_ok. intros H. apply andb_prop in H as [H Hb].
  apply andb_prop in H as [Hn Ht]. apply negb_true_iff in Hb.
  apply nonempty_true in Hn. apply str_eqb_eq in Ht.
  repeat split; try assumption.
  assert (N0 : trim t <> []) by (now rewrite Ht).
  destruct (@trim_ends t N0) as [Hh _]. now rewrite Ht in Hh.
Qed.

Lemma items_of_cons t ts : items_of (t :: ts) = lit "\item " ++ t ++ items_of ts.
Proof. unfold items_of. cbn [map concat]. now rewrite <- app_assoc. Qed.

Lemma split_items : forall ts cur pre,
  ts <> [] -> forallb item_ok ts = true ->
  split_loop re_item 0 pre cur (items_of ts) = rev cur :: ts.
Proof.
  induction ts as [|t ts IH]; intros cur pre Hne Hall; [congruence|].
  cbn [forallb] in Hall. apply andb_prop in Hall as [Ht Hts].
  destruct (item_ok_parts t Ht) as [Tn [Tt [Tb Th]]].
  rewrite items_of_cons.
  destruct t as [|c t']; [congruence|]. cbn [hd] in Th.
  set (rest := (c :: t') ++ items_of ts).
  change (lit "\item " ++ rest)
    with (92%N :: 105%N :: 116%N :: 101%N :: 109%N :: 32%N :: rest).
  cbn [split_loop]. rewrite match_at_item.
  change (strip_prefix (lit "\item")
            (92%N :: 105%N :: 116%N :: 101%N :: 109%N :: 32%N :: rest))
    with (Some (32%N :: rest)).
  cbn iota. cbn [take_while]. change (is_space 32) with true. cbn iota.
  unfold rest at 1. cbn [app take_while]. rewrite Th.
  cbn [m_text]. change (length (lit "\item" ++ [32%N])) with 6. cbn iota.
  f_equal. cbn [split_loop]. unfold rest. clear rest.
  destruct ts as [|u ts'].
  - unfold items_of. cbn [map concat]. rewrite app_nil_r.
    rewrite split_to_end by exact Tb. reflexivity.
  - rewrite split_through; [| exact Tb | rewrite items_of_cons; discriminate].
    rewrite IH by (discriminate || exact Hts).
    rewrite app_nil_r, rev_involutive. reflexivity.
Qed.

Lemma item_parts_items ts :
  forallb item_ok ts = true -> item_parts (items_of ts) = ts.
Proof.
  intros Hall. unfold item_parts.
  assert (F : forall l, forallb item_ok l = true ->
                        filter (fun s => nonempty (trim s)) l = l).
  { induction l as [|t l IH]; intros H; [reflexivity|].
    cbn [forallb filter] in *. apply andb_prop in H as [Ht Hl].
    destruct (item_ok_parts t Ht) as [Tn [Tt _]]. rewrite Tt.
    replace (nonempty t) with true by (symmetry; now apply nonempty_true).
    f_equal. now apply IH. }
  destruct ts as [|t ts]; [reflexivity|].
  unfold re_split.
  destruct (items_of (t :: ts)) as [|c0 r0] eqn:E;
    [rewrite items_of_cons in E; discriminate E|].
  rewrite <- E. rewrite split_items by (discriminate || exact Hall).
  cbn [rev].
  transitivity (filter (fun s => nonempty (trim s)) (t :: ts));
    [reflexivity | now apply F].
Qed.

Lemma item_text_ok t : item_ok t = true -> item_text t = t.
Proof.
  intros H. destruct (item_ok_parts t H) as [_ [Tt [Tb _]]].
  unfold item_text. rewrite Tt.
  rewrite (@re_replace_silent (re_cmd_text "textbf") _ t).
  - rewrite (@re_replace_silent (re_cmd_text "textit") _ t).
    + apply strip_silent. apply no_backslash_silent with (w := lit "\").
      * unfold re_linebreak, L. apply opens_with_lit.
      * exact Tb.
    + apply no_backslash_silent with (w := []); [|exact Tb].
      unfold re_cmd_text, L. apply opens_with_seq.
  - apply no_backslash_silent with (w := []); [|exact Tb].
    unfold re_cmd_text, L. apply opens_with_seq.
Qed.

Lemma numbered_labels : forall ts idx,
  forallb item_ok ts = true ->
  numbered idx ts =
  map (fun p => li_of (of_nat (fst p) ++ lit ". ") (snd p))
    (combine (seq (idx + 1) (length ts)) ts).
Proof.
  induction ts as [|t ts IH]; intros idx H; [reflexivity|].
  cbn [forallb] in H. apply andb_prop in H as [Ht Hts].
  cbn [numbered length seq combine map fst snd].
  rewrite (item_text_ok t Ht), (IH (S idx) Hts).
  unfold li_of. rewrite <- !app_assoc.
  replace (S idx + 1) with (S (idx + 1)) by lia. reflexivity.
Qed.

(** X21.  A list body of items without a backslash: the items are
    taken in their order; an [enumerate] list labels them 1, 2, 3, ...
    and an [itemize] list puts a bullet before each. *)
Theorem list_items_in_order ts mt :
  forallb item_ok ts = true ->
  group 1 mt = Some (items_of ts) ->
  render_enumerate mt =
    tpl "<ol class=`my-4 space-y-1`>" ++
    concat (map (fun p => li_of (of_nat (fst p) ++ lit ". ") (snd p))
              (combine (seq 1 (length ts)) ts)) ++
    lit "</ol>"
  /\ render_itemize mt =
    tpl "<ul class=`my-4 space-y-1`>" ++
    concat (map (li_of [bullet; 32%N]) ts) ++
    lit "</ul>".
Proof.
  intros Hall Hg. unfold render_enumerate, render_itemize, join.
  rewrite Hg. cbn [or_empty]. rewrite item_parts_items by exact Hall. split.
  - now rewrite numbered_labels by exact Hall.
  - assert (E : map (fun text =>
                      tpl "<li class=`ml-4 mb-2 text-gray-200`>" ++ [bullet; 32%N] ++
                      item_text text ++ lit "</li>") ts =
                map (li_of [bullet; 32%N]) ts).
    { apply map_ext_in. intros t Hin.
      rewrite forallb_forall in Hall. rewrite (item_text_ok t (Hall t Hin)).
      reflexivity. }
    now rewrite E.
Qed.

(** The hypotheses of X21 hold for a list of two items. *)
Lemma list_items_in_order_witness :
  forallb item_ok [lit "Fit the orbit"; lit "Report the mass"] = true
  /\ group 1 (RMatch [] [] [] [(1, items_of [lit "Fit the orbit"; lit "Report the mass"])]) =
     Some (items_of [lit "Fit the orbit"; lit "Report the mass"])
  /\ render_enumerate
       (RMatch [] [] [] [(1, items_of [lit "Fit the orbit"; lit "Report the mass"])]) =
     tpl "<ol class=`my-4 space-y-1`>" ++
     concat (map (fun p => li_of (of_nat (fst p) ++ lit ". ") (snd p))
               (combine (seq 1 2) [lit "Fit the orbit"; lit "Report the mass"])) ++
     lit "</ol>".
Proof.
  assert (H1 : forallb item_ok [lit "Fit the orbit"; lit "Report the mass"] = true)
    by (vm_compute; reflexivity).
  assert (H2 : group 1 (RMatch [] [] [] [(1, items_of [lit "Fit the orbit"; lit "Report the mass"])]) =
     Some (items_of [lit "Fit the orbit"; lit "Report the mass"])) by reflexivity.
  split; [exact H1|]. split; [exact H2|].
  exact (proj1 (@list_items_in_order _ _ H1 H2)).
Defined.

(** ** The paragraph step *)



(** ** Display math that is the whole document *)

Lemma restore_key k value u v :
  escapeHtml (underscore :: k) = underscore :: k ->
  existsb (eqc underscore) u = false -> existsb (eqc underscore) v = false ->
  existsb (eqc dollar) value = false ->
  restore_math [(underscore :: k, value)] (u ++ (underscore :: k) ++ v) =
  u ++ value ++ v.
Proof.
  intros He Hu Hv Hd. unfold restore_math. cbn [fold_left fst snd].
  rewrite He. unfold RegExp_of, re_replace, re_replace_fn.
  rewrite replace_one with (mt := RMatch (rev u ++ []) (underscore :: k) v []).
  - now rewrite expand_without_dollar.
  - intros a1 c a2 E. rewrite match_at_Lit_of.
    subst u. rewrite existsb_app in Hu. apply orb_false_iff in Hu as [_ Hu].
    cbn [existsb] in Hu. apply orb_false_iff in Hu as [Hc _].
    cbn [strip_prefix]. unfold eqc in Hc.
    now rewrite (N.eqb_sym underscore c), Hc.
  - rewrite match_at_Lit_of, strip_prefix_app. reflexivity.
  - reflexivity.
  - discriminate.
  - apply opens_silent with (w := [underscore]).
    + apply (@opens_with_shorter [underscore] k). apply opens_with_lit.
    + now apply existsb_includes.
Qed.

Lemma bracket_pass_whole math :
  indexOf (lit "\]") (math ++ lit "\]") = Some (length math) ->
  display_pass re_bracket_math (lit "\[" ++ math ++ lit "\]", MathState [] 0) =
  (display_key, MathState [(display_key, display_markup (trim math))] 1).
Proof.
  intros Hi. unfold display_pass, re_replace_st. cbn [fst snd].
  pose proof (@match_at_bracket (lit "\[") (lit "\]") 1 [] math []) as M.
  rewrite !app_nil_r in M. specialize (M Hi).
  pose proof (@replace_st_one math_state re_bracket_math mint_display
                [] (lit "\[" ++ math ++ lit "\]") [] []
                (RMatch [] (lit "\[" ++ math ++ lit "\]") [] [(1, math)])
                (MathState [] 0)) as R.
  cbn [app rev] in R. rewrite !app_nil_r in R. rewrite R; clear R.
  - reflexivity.
  - intros a1 c a2 E. destruct a1; discriminate E.
  - exact M.
  - reflexivity.
  - discriminate.
  - unfold re_bracket_math, L. apply silent_nil_literal. discriminate.
Qed.

(** X23.  A document that is one piece of display math between
    [\[] and [\]]: the output is one paragraph element around the
    placeholder element of the math, which carries the math without
    the white space at its ends. *)
Theorem display_math_alone math images :
  indexOf (lit "\]") (math ++ lit "\]") = Some (length math) ->
  existsb (eqc dollar) math = false ->
  includes (lit "\texorpdfstring{") (lit "\[" ++ math ++ lit "\]") = false ->
  parseAndRender (lit "\[" ++ math ++ lit "\]") images =
    tpl "<p class=`mb-4 leading-relaxed text-gray-200`>" ++
    display_markup (trim math) ++ lit "</p>".
Proof.
  intros Hi Hd Ht.
  assert (Ck : calm display_key = true) by (vm_compute; reflexivity).
  assert (E0 : extract_math
                 (re_replace re_texorpdfstring (lit "$1")
                    (lit "\[" ++ math ++ lit "\]")) =
               (display_key,
                MathState [(display_key, display_markup (trim math))] 1)).
  { rewrite re_replace_silent
      by (apply opens_silent with (w := lit "\texorpdfstring{");
          [unfold re_texorpdfstring, L; apply opens_with_seq | exact Ht]).
    unfold extract_math. rewrite bracket_pass_whole by exact Hi.
    pose proof Ck as Ck'. calm_hyps Ck'.
    repeat rewrite (@display_pass_silent _ display_key) by hush.
    now rewrite inline_pass_silent by hush. }
  rewrite (@render_calm _ images display_key display_key _ _ E0).
  - change (paragraphs (trim display_key))
      with (tpl "<p class=`mb-4 leading-relaxed text-gray-200`>" ++
            display_key ++ lit "</p>").
    unfold display_key. change (lit "__MATH_DISPLAY_0__")
      with (underscore :: lit "_MATH_DISPLAY_0__").
    apply restore_key; try reflexivity.
    unfold display_markup. rewrite !existsb_app.
    rewrite (existsb_trim _ _ Hd). reflexivity.
  - exact Ck.
  - exact Ck.
  - apply strip_silent. apply silent_blank_line. reflexivity.
  - intros a b E. apply dash_bullet_none.
    + rewrite app_nil_r. intros Hr. apply rev_nil_inv in Hr. subst a.
      cbn [app] in E. subst b. reflexivity.
    + intros t Hb. exfalso.
      apply (@no_nl_cons display_key t a b); [reflexivity | exact E | exact Hb].
Qed.

(** The hypotheses of X23 hold for an equation with commands. *)
Lemma display_math_alone_witness :
  indexOf (lit "\]") (lit " \frac{a}{b} = c " ++ lit "\]") =
    Some (length (lit " \frac{a}{b} = c "))
  /\ existsb (eqc dollar) (lit " \frac{a}{b} = c ") = false
  /\ includes (lit "\texorpdfstring{")
       (lit "\[" ++ lit " \frac{a}{b} = c " ++ lit "\]") = false
  /\ parseAndRender (lit "\[" ++ lit " \frac{a}{b} = c " ++ lit "\]") [] =
     tpl "<p class=`mb-4 leading-relaxed text-gray-200`>" ++
     display_markup (trim (lit " \frac{a}{b} = c ")) ++ lit "</p>".
Proof.
  assert (H1 : indexOf (lit "\]") (lit " \frac{a}{b} = c " ++ lit "\]") =
    Some (length (lit " \frac{a}{b} = c "))) by reflexivity.
  assert (H2 : existsb (eqc dollar) (lit " \frac{a}{b} = c ") = false) by reflexivity.
  assert (H3 : includes (lit "\texorpdfstring{")
       (lit "\[" ++ lit " \frac{a}{b} = c " ++ lit "\]") = false) by reflexivity.
  repeat (split; [assumption|]).
  exact (@display_math_alone _ [] H1 H2 H3).
Defined.

(** ** Images without a table *)

Lemma match_all_silent r : forall s pre, silent r pre s -> match_all_loop r 0 pre s = [].
Proof.
  induction s as [|c t IH]; intros pre H; cbn [match_all_loop];
    rewrite (silent_here H); [reflexivity|].
  apply IH. now apply silent_tail in H.
Qed.

Lemma minipage_item_empty mt : minipage_item [] mt = [].
Proof.
  unfold minipage_item. now destruct (re_match re_includegraphics _).
Qed.

Lemma direct_item_empty figContent : direct_item [] figContent = [].
Proof.
  unfold direct_item. now destruct (re_match re_includegraphics_width _).
Qed.

(** X24.  With an empty image table a figure that holds no subfigure
    environment is rendered as nothing, and so is every image outside
    a figure: an image that the table does not list leaves no trace in
    the output. *)
Theorem images_need_the_table mt mt' :
  includes (lit "\begin{subfigure}") (or_empty (group 1 mt)) = false ->
  render_figure [] mt = [] /\ render_standalone [] mt' = [].
Proof.
  intros H. split; [|reflexivity].
  unfold render_figure, figure_images, re_match_all.
  rewrite match_all_silent.
  - cbn [flat_map app].
    replace (flat_map (minipage_item []) _) with (@nil (list N)).
    + now rewrite direct_item_empty.
    + symmetry. generalize (match_all_loop re_minipage 0 [] (or_empty (group 1 mt))).
      intros l. induction l as [|x l IH]; [reflexivity|].
      cbn [flat_map]. now rewrite minipage_item_empty.
  - apply opens_silent with (w := lit "\begin{subfigure}"); [|exact H].
    unfold re_subfigure, L. apply opens_with_seq.
Qed.

(** The hypothesis of X24 holds for a figure with one image. *)
Lemma images_need_the_table_witness :
  includes (lit "\begin{subfigure}")
    (or_empty (group 1 (RMatch [] [] [] [(1, lit "\includegraphics{p/a.png}")]))) = false
  /\ render_figure [] (RMatch [] [] [] [(1, lit "\includegraphics{p/a.png}")]) = []
  /\ render_standalone [] (RMatch [] [] [] [(1, lit "p/a.png")]) = [].
Proof.
  assert (H : includes (lit "\begin{subfigure}")
    (or_empty (group 1 (RMatch [] [] [] [(1, lit "\includegraphics{p/a.png}")]))) = false)
    by reflexivity.
  split; [exact H|].
  exact (@images_need_the_table _ (RMatch [] [] [] [(1, lit "p/a.png")]) H).
Defined.

(** ** The width rules in the pipeline *)


Section Keeping.

(** A pattern [r] as in the section on deletion, and a text [o] that
    it can neither reach into from the left nor match inside. *)
Variable r : regex.
Variable f : rmatch -> str.
Variable fm : str -> option (str * str).
Variable o : str.

Hypothesis f_deletes : forall mt, f mt = [].
Hypothesis match_at_fm : forall pre s,
  match_at r pre s =
  match fm s with
  | Some (txt, rest) => Some (RMatch pre txt rest [])
  | None => None
  end.
Hypothesis fm_sound : forall s txt rest,
  fm s = Some (txt, rest) -> s = txt ++ rest /\ txt <> [].
Hypothesis fm_stable : forall x z txt rest,
  fm x = Some (txt, rest) -> fm (x ++ z) = Some (txt, rest ++ z).
Hypothesis o_no_reach : forall x b,
  x <> [] -> fm x = None -> fm (x ++ o ++ b) = None.
Hypothesis o_inert : forall o1 o2 b,
  o = o1 ++ o2 -> o2 <> [] -> fm (o2 ++ b) = None.



End Keeping.

(** *** Texts that neither width rule can match inside *)











(** *** Matches that would have to run on into a foreign character *)



(** *** What the two rules keep *)





(** *** The number 0.48 in a line of prose *)











(** ** The second pass *)






(** *** Every output opens with a tag *)

Lemma replace_keeps_head r f c s :
  match_at r [] (c :: s) = None ->
  exists t, replace_loop r f 0 [] (c :: s) = c :: t.
Proof. intros H. cbn [replace_loop]. rewrite H. now eexists. Qed.






(** *** A text that only the sweep reacts to *)






